(** * streaming_parser: a ring buffer and a header/body stream parser

    A shallow embedding of [src/ring_buffer.cc] and [src/streaming_parser.h].

    - Fixed-width C++ integers are values of [Z] with the wrap-around of
      every arithmetic operation written out ([to_uint32], [to_int32],
      [to_size_t]).
    - A call either returns, or stops the process on a failed [assert], or
      runs a [memcpy] outside the object it was given.  The three cases are
      the constructors [Returns], [Aborts] and [OutOfRange] of [outcome].
    - [assert] is compiled out when [NDEBUG] is defined; the build flag is
      a parameter of every function that asserts.
    - The mutex of the ring buffer is not modelled: calls are sequential.
      The callback of the zero-copy read runs with the lock released and
      may call into the ring buffer it was called from, so it is given
      the ring buffer and returns it; the callback of the parser has no
      access to the parser's ring buffer. *)

From Stdlib Require Import ZArith List Bool Lia.
From Stdlib.Strings Require Import Byte.
Import ListNotations.
Local Open Scope Z_scope.

(** ** Outcomes of a call *)

Inductive outcome (A : Type) : Type :=
| Returns (a : A)   (* the call returns [a] *)
| Aborts            (* an [assert] failed *)
| OutOfRange        (* a [memcpy] left the bounds of its source or target *)
| NoFuel.           (* the iteration budget of the model ran out *)

Arguments Returns {A} a.
Arguments Aborts {A}.
Arguments OutOfRange {A}.
Arguments NoFuel {A}.

Definition bind {A B : Type} (m : outcome A) (k : A -> outcome B) : outcome B :=
  match m with
  | Returns a => k a
  | Aborts => Aborts
  | OutOfRange => OutOfRange
  | NoFuel => NoFuel
  end.

Notation "x <- m ;; k" := (bind m (fun x => k))
  (at level 61, m at next level, right associativity).
Notation "' p <- m ;; k" := (bind m (fun x => match x with p => k end))
  (at level 61, p pattern, m at next level, right associativity).
Notation "m ;; k" := (bind m (fun _ => k))
  (at level 61, right associativity).

(** ** Machine integers and bytes *)

Definition to_uint32 (z : Z) : Z := z mod 2 ^ 32.
Definition to_int32 (z : Z) : Z := (z + 2 ^ 31) mod 2 ^ 32 - 2 ^ 31.
(** [size_t] of a 64-bit target. *)
Definition to_size_t (z : Z) : Z := z mod 2 ^ 64.

Definition Z_of_byte (b : byte) : Z := Z.of_N (Byte.to_N b).
Definition byte_of_Z (z : Z) : byte :=
  match Byte.of_N (Z.to_N (z mod 256)) with
  | Some b => b
  | None => x00
  end.

(** [v.size()] *)
Definition size (v : list byte) : Z := Z.of_nat (List.length v).

(** ** Raw memory copies *)

(** The [n] bytes at offset [off] of the object [src]. *)
Definition load (src : list byte) (off n : Z) : outcome (list byte) :=
  if (0 <=? off) && (0 <=? n) && (off + n <=? size src)
  then Returns (firstn (Z.to_nat n) (skipn (Z.to_nat off) src))
  else OutOfRange.

(** The object [dst] with [bytes] written over it from offset [off] on. *)
Definition patched (dst : list byte) (off : Z) (bytes : list byte) : list byte :=
  firstn (Z.to_nat off) dst ++ bytes ++ skipn (Z.to_nat (off + size bytes)) dst.

Definition store (dst : list byte) (off : Z) (bytes : list byte)
  : outcome (list byte) :=
  if (0 <=? off) && (off + size bytes <=? size dst)
  then Returns (patched dst off bytes)
  else OutOfRange.

(** [std::memcpy(&dst[doff], &src[soff], n)]; the result is the new [dst]. *)
Definition memcpy (dst : list byte) (doff : Z) (src : list byte) (soff n : Z)
  : outcome (list byte) :=
  bytes <- load src soff n ;;
  store dst doff bytes.

(** ** ring_buffer.cc *)

Inductive error_code : Type :=
| Success               (* std::error_code() *)
| ErrBufferOverflow     (* error_code(1, ring_buffer_category()) *)
| ErrInvalidParameter.  (* error_code(2, ring_buffer_category()) *)

Definition error_code_eqb (a b : error_code) : bool :=
  match a, b with
  | Success, Success => true
  | ErrBufferOverflow, ErrBufferOverflow => true
  | ErrInvalidParameter, ErrInvalidParameter => true
  | _, _ => false
  end.

Record RingBuffer : Type := mkRingBuffer {
  index_mask : Z;          (* const uint32_t *)
  buffer_ : list byte;     (* std::vector<uint8_t> *)
  read_index_ : Z;         (* uint32_t *)
  write_index_ : Z;        (* uint32_t, the next write position *)
  buffered_bytes_ : Z      (* int32_t, bytes currently buffered *)
}.

(** [#define IS_POWER_OF_TWO(x) (((x) != 0) && (((x) & ((x) - 1)) == 0))]
    at type [uint32_t]. *)
Definition IS_POWER_OF_TWO (x : Z) : bool :=
  negb (x =? 0) && (Z.land x (to_uint32 (x - 1)) =? 0).

Definition capacity (rb : RingBuffer) : Z := to_uint32 (size (buffer_ rb)).

Definition empty (rb : RingBuffer) : bool := buffered_bytes_ rb =? 0.

Definition full (rb : RingBuffer) : bool :=
  buffered_bytes_ rb =? to_int32 (size (buffer_ rb)).

Definition clear (rb : RingBuffer) : RingBuffer :=
  {| index_mask := index_mask rb; buffer_ := buffer_ rb;
     read_index_ := 0; write_index_ := 0; buffered_bytes_ := 0 |}.

Section RingBufferOps.

(** [true] when the translation unit is compiled with [-DNDEBUG]. *)
Variable NDEBUG : bool.

Definition assert_ (cond : bool) : outcome unit :=
  if NDEBUG || cond then Returns tt else Aborts.

(** [RingBuffer::RingBuffer(uint32_t size)] *)
Definition RingBuffer_new (size : Z) : outcome RingBuffer :=
  assert_ (0 <? size) ;;
  assert_ (IS_POWER_OF_TWO size) ;;
  Returns {| index_mask := to_uint32 (size - 1);
             buffer_ := repeat x00 (Z.to_nat size);
             read_index_ := 0; write_index_ := 0; buffered_bytes_ := 0 |}.

(** [RingBuffer::RingBuffer()], default size 2048 bytes *)
Definition RingBuffer_default : outcome RingBuffer := RingBuffer_new 2048.

Definition buffered_bytes (rb : RingBuffer) : outcome Z :=
  assert_ (0 <=? buffered_bytes_ rb) ;;
  Returns (to_uint32 (buffered_bytes_ rb)).

(** [std::error_code RingBuffer::write(const uint8_t* data, uint32_t length)].
    [data] is [None] for [nullptr] and otherwise the object the pointer
    points into, from the pointer on. *)
Definition write (rb : RingBuffer) (data : option (list byte)) (length : Z)
  : outcome (error_code * RingBuffer) :=
  match data with
  | None => Returns (ErrInvalidParameter, rb)
  | Some src =>
    if length =? 0 then Returns (ErrInvalidParameter, rb) else
    bb <- buffered_bytes rb ;;
    if to_uint32 (bb + length) >? capacity rb
    then Returns (ErrBufferOverflow, rb) else
    let temp_write_idx := Z.land (write_index_ rb) (index_mask rb) in
    buf <- (if to_uint32 (temp_write_idx + length) >? capacity rb then
              let left := to_size_t (to_uint32 (capacity rb - temp_write_idx)) in
              b1 <- memcpy (buffer_ rb) temp_write_idx src 0 left ;;
              memcpy b1 0 src left (to_size_t (length - left))
            else memcpy (buffer_ rb) temp_write_idx src 0 length) ;;
    let rb' :=
      {| index_mask := index_mask rb; buffer_ := buf;
         read_index_ := read_index_ rb;
         write_index_ := to_uint32 (temp_write_idx + length);
         buffered_bytes_ :=
           to_int32 (to_uint32 (to_uint32 (buffered_bytes_ rb) + length)) |} in
    assert_ (0 <=? buffered_bytes_ rb') ;;
    Returns (Success, rb')
  end.

(** [uint32_t RingBuffer::read(uint8_t* data, uint32_t length)].
    [data] is [None] for [nullptr] and otherwise the target object; the
    second component of the result is the target after the call. *)
Definition read (rb : RingBuffer) (data : option (list byte)) (length : Z)
  : outcome (Z * option (list byte) * RingBuffer) :=
  match data with
  | None => Returns (0, None, rb)
  | Some dst =>
    if length =? 0 then Returns (0, Some dst, rb) else
    if buffered_bytes_ rb =? 0 then Returns (0, Some dst, rb) else
    let temp_read_idx := Z.land (read_index_ rb) (index_mask rb) in
    bb <- buffered_bytes rb ;;
    let read_bytes := Z.min length bb in
    dst' <- (if to_uint32 (temp_read_idx + read_bytes) >? capacity rb then
               let left := to_size_t (to_uint32 (capacity rb - temp_read_idx)) in
               d1 <- memcpy dst 0 (buffer_ rb) temp_read_idx left ;;
               memcpy d1 left (buffer_ rb) 0 (to_size_t (read_bytes - left))
             else memcpy dst 0 (buffer_ rb) temp_read_idx read_bytes) ;;
    let rb' :=
      {| index_mask := index_mask rb; buffer_ := buffer_ rb;
         read_index_ := to_uint32 (temp_read_idx + read_bytes);
         write_index_ := write_index_ rb;
         buffered_bytes_ :=
           to_int32 (to_uint32 (to_uint32 (buffered_bytes_ rb) - read_bytes)) |} in
    assert_ (0 <=? buffered_bytes_ rb') ;;
    Returns (read_bytes, Some dst', rb')
  end.

(** [uint32_t RingBuffer::read(uint32_t length, ReceiveCallback&& recv_cb)].
    The callback sees [read_bytes] bytes through its pointer argument.  It
    runs with the lock released, and the mutex is recursive: it may call
    the member functions of this very ring buffer.  So the callback is
    given the ring buffer besides its own state of type [W] and returns
    both as it leaves them.  After the call the function goes on with the
    index and the amount that it computed before the call. *)
Definition read_cb {W : Type} (rb : RingBuffer) (length : Z)
    (recv_cb : list byte -> Z -> W -> RingBuffer
               -> outcome (bool * W * RingBuffer)) (w : W)
  : outcome (Z * RingBuffer * W) :=
  if length =? 0 then Returns (0, rb, w) else
  if buffered_bytes_ rb =? 0 then Returns (0, rb, w) else
  let temp_read_idx := Z.land (read_index_ rb) (index_mask rb) in
  bb <- buffered_bytes rb ;;
  let read_bytes := Z.min length bb in
  view <- (if to_uint32 (temp_read_idx + read_bytes) >? capacity rb then
             let left := to_size_t (to_uint32 (capacity rb - temp_read_idx)) in
             let temp_buffer := repeat x00 (Z.to_nat read_bytes) in
             t1 <- memcpy temp_buffer 0 (buffer_ rb) temp_read_idx left ;;
             memcpy t1 left (buffer_ rb) 0 (to_size_t (read_bytes - left))
           else load (buffer_ rb) temp_read_idx read_bytes) ;;
  '(read_ok, w', rb1) <- recv_cb view read_bytes w rb ;;
  if read_ok then
    let rb' :=
      {| index_mask := index_mask rb1; buffer_ := buffer_ rb1;
         read_index_ := to_uint32 (temp_read_idx + read_bytes);
         write_index_ := write_index_ rb1;
         buffered_bytes_ :=
           to_int32 (to_uint32 (to_uint32 (buffered_bytes_ rb1) - read_bytes)) |} in
    assert_ (0 <=? buffered_bytes_ rb') ;;
    Returns (read_bytes, rb', w')
  else Returns (0, rb1, w').

(** [void RingBuffer::drain(uint32_t length)] *)
Definition drain (rb : RingBuffer) (length : Z) : outcome RingBuffer :=
  let temp_read_idx := Z.land (read_index_ rb) (index_mask rb) in
  bb <- buffered_bytes rb ;;
  let read_bytes := Z.min length bb in
  let rb' :=
    {| index_mask := index_mask rb; buffer_ := buffer_ rb;
       read_index_ :=
         Z.land (to_uint32 (temp_read_idx + read_bytes)) (index_mask rb);
       write_index_ := write_index_ rb;
       buffered_bytes_ :=
         to_int32 (to_uint32 (to_uint32 (buffered_bytes_ rb) - read_bytes)) |} in
  assert_ (0 <=? buffered_bytes_ rb') ;;
  Returns rb'.

End RingBufferOps.

(** A callback that does not call into the ring buffer: it works on the
    bytes it is shown and on its own state. *)
Definition no_reentry {W : Type} (recv_cb : list byte -> Z -> W -> bool * W)
  : list byte -> Z -> W -> RingBuffer -> outcome (bool * W * RingBuffer) :=
  fun data length w rb =>
    let '(read_ok, w') := recv_cb data length w in
    Returns (read_ok, w', rb).

(** ** Byte order *)

Fixpoint decode_le (bytes : list byte) : Z :=
  match bytes with
  | [] => 0
  | b :: rest => Z_of_byte b + 256 * decode_le rest
  end.

Fixpoint encode_le (n : nat) (v : Z) : list byte :=
  match n with
  | O => []
  | S n' => byte_of_Z v :: encode_le n' (v / 256)
  end.

Definition decode_be (bytes : list byte) : Z := decode_le (rev bytes).
Definition encode_be (n : nat) (v : Z) : list byte := rev (encode_le n v).

(** The object representation of an unsigned integer on the host. *)
Definition decode_host (little_endian : bool) (bytes : list byte) : Z :=
  if little_endian then decode_le bytes else decode_be bytes.
Definition encode_host (little_endian : bool) (n : nat) (v : Z) : list byte :=
  if little_endian then encode_le n v else encode_be n v.

(** [ntohs] and [ntohl] of <arpa/inet.h>: the bytes of the argument, as they
    lie in memory, are read as an integer in network (big-endian) order. *)
Definition ntohs (little_endian : bool) (netshort : Z) : Z :=
  decode_be (encode_host little_endian 2 netshort).
Definition ntohl (little_endian : bool) (netlong : Z) : Z :=
  decode_be (encode_host little_endian 4 netlong).

(** ** streaming_parser.h *)

(** The template parameter [ProtoHeader]: a struct with a field
    [body_length] of type [uint16_t] or [uint32_t] (the [static_assert]),
    described by its size and by the place of that field. *)
Class ProtoHeader : Type := {
  protocol_header_length : Z;     (* sizeof(ProtoHeader) *)
  body_length_offset : Z;         (* offsetof(ProtoHeader, body_length) *)
  body_length_size : Z;           (* sizeof(header.body_length) *)
  body_length_type : body_length_size = 2 \/ body_length_size = 4;
  body_length_inside :
    0 <= body_length_offset /\
    body_length_offset + body_length_size <= protocol_header_length;
  protocol_header_fits : protocol_header_length < 2 ^ 32
}.

Inductive RecvState : Type := READ_HEADER | READ_BODY.

(** One invocation of a handler, with the arguments it was given. *)
Inductive handler_call : Type :=
| HeaderCall (header : list byte)
| BodyCall (data : list byte) (length : Z).

Record StreamingParser (W : Type) : Type := mkStreamingParser {
  recv_state_ : RecvState;
  current_header_ : list byte;   (* the bytes of the ProtoHeader object *)
  recv_buffer_ : RingBuffer;
  world : W;                     (* what the two handlers close over *)
  calls : list handler_call      (* ghost: handler invocations, oldest first *)
}.

Arguments mkStreamingParser {W}.
Arguments recv_state_ {W}.
Arguments current_header_ {W}.
Arguments recv_buffer_ {W}.
Arguments world {W}.
Arguments calls {W}.

Section StreamingParserOps.

Variable NDEBUG : bool.
(** Byte order of the host. *)
Variable little_endian : bool.
Context {PH : ProtoHeader}.
Variable W : Type.
Variable header_handler_ : list byte -> W -> bool * W.
Variable body_handler_ : list byte -> Z -> W -> bool * W.

(** The bytes of the field [body_length] inside a header object. *)
Definition body_length_field (header : list byte) : list byte :=
  firstn (Z.to_nat body_length_size)
    (skipn (Z.to_nat body_length_offset) header).

(** [header.body_length] as an rvalue. *)
Definition body_length (header : list byte) : Z :=
  decode_host little_endian (body_length_field header).

(** [header.body_length = v] *)
Definition set_body_length (header : list byte) (v : Z) : list byte :=
  firstn (Z.to_nat body_length_offset) header
    ++ encode_host little_endian (Z.to_nat body_length_size) v
    ++ skipn (Z.to_nat (body_length_offset + body_length_size)) header.

Definition DoBytesOrderConversion (header : list byte) : list byte :=
  if body_length_size =? 2 then
    set_body_length header (ntohs little_endian (body_length header))
  else if body_length_size =? 4 then
    set_body_length header (ntohl little_endian (body_length header))
  else header.

(** [StreamingParser(HeaderHandler&&, BodyHandler&&)].  The header object
    is not initialised by the constructor; [garbage] is what it holds. *)
Definition StreamingParser_new (garbage : list byte) (w : W)
  : outcome (StreamingParser W) :=
  rb <- RingBuffer_default NDEBUG ;;
  Returns {| recv_state_ := READ_HEADER;
             current_header_ := garbage;
             recv_buffer_ := rb;
             world := w;
             calls := [] |}.

(** The lambda handed to [recv_buffer_.read] in state [READ_BODY].  It
    forwards to [body_handler_], which has no access to the private
    [recv_buffer_]. *)
Definition body_callback (data : list byte) (length : Z)
    (wc : W * list handler_call) : bool * (W * list handler_call) :=
  let '(ok, w') := body_handler_ data length (fst wc) in
  (ok, (w', snd wc ++ [BodyCall data length])).

Definition PerformStreamingParse (p : StreamingParser W)
  : outcome (bool * StreamingParser W) :=
  match recv_state_ p with
  | READ_HEADER =>
    bb <- buffered_bytes NDEBUG (recv_buffer_ p) ;;
    if bb >=? protocol_header_length then
      '(_, target, rb) <-
        read NDEBUG (recv_buffer_ p) (Some (current_header_ p))
          protocol_header_length ;;
      let header :=
        DoBytesOrderConversion
          (match target with Some h => h | None => current_header_ p end) in
      let '(_, w') := header_handler_ header (world p) in
      Returns (false,
               {| recv_state_ := READ_BODY;
                  current_header_ := header;
                  recv_buffer_ := rb;
                  world := w';
                  calls := calls p ++ [HeaderCall header] |})
    else
      (* length field not ready. *)
      Returns (true, p)
  | READ_BODY =>
    assert_ NDEBUG (body_length (current_header_ p) >? 0) ;;
    bb <- buffered_bytes NDEBUG (recv_buffer_ p) ;;
    if bb >=? body_length (current_header_ p) then
      '(_, rb, wc) <-
        read_cb NDEBUG (recv_buffer_ p) (body_length (current_header_ p))
          (no_reentry body_callback) (world p, calls p) ;;
      Returns (false,
               {| recv_state_ := READ_HEADER;
                  current_header_ := set_body_length (current_header_ p) 0;
                  recv_buffer_ := rb;
                  world := fst wc;
                  calls := snd wc |})
    else
      (* body field not ready. *)
      Returns (true, p)
  end.

(** The condition of the [while] in [HandleData], with the short-circuit
    evaluation of [&&] and [||]. *)
Definition loop_condition (p : StreamingParser W) : outcome bool :=
  match recv_state_ p with
  | READ_HEADER =>
    bb <- buffered_bytes NDEBUG (recv_buffer_ p) ;;
    Returns (bb >=? protocol_header_length)
  | READ_BODY =>
    bb <- buffered_bytes NDEBUG (recv_buffer_ p) ;;
    Returns (bb >=? body_length (current_header_ p))
  end.

Fixpoint parse_loop (fuel : nat) (p : StreamingParser W)
  : outcome (StreamingParser W) :=
  match fuel with
  | O => NoFuel
  | S fuel' =>
    go <- loop_condition p ;;
    if go then
      '(waiting, p') <- PerformStreamingParse p ;;
      if waiting then Returns p' else parse_loop fuel' p'
    else Returns p
  end.

(** Iterations granted to the [while] loop: two for every buffered byte,
    and two more.  [HandleData_total] shows that they suffice. *)
Definition loop_budget (rb : RingBuffer) : nat :=
  S (S (2 * Z.to_nat (buffered_bytes_ rb))).

(** [bool HandleData(const uint8_t* data, uint32_t length)] *)
Definition HandleData (p : StreamingParser W) (data : option (list byte))
    (length : Z) : outcome (bool * StreamingParser W) :=
  '(err, rb) <- write NDEBUG (recv_buffer_ p) data length ;;
  let p1 := {| recv_state_ := recv_state_ p;
               current_header_ := current_header_ p;
               recv_buffer_ := rb;
               world := world p;
               calls := calls p |} in
  if error_code_eqb err ErrBufferOverflow then Returns (false, p1)
  else
    p2 <- parse_loop (loop_budget rb) p1 ;;
    Returns (true, p2).

(** Successive [HandleData] calls, one per chunk, with the results of the
    calls in order. *)
Fixpoint feed (p : StreamingParser W) (chunks : list (list byte))
  : outcome (list bool * StreamingParser W) :=
  match chunks with
  | [] => Returns ([], p)
  | chunk :: rest =>
    '(r, p1) <- HandleData p (Some chunk) (size chunk) ;;
    '(rs, p2) <- feed p1 rest ;;
    Returns (r :: rs, p2)
  end.

End StreamingParserOps.

Arguments StreamingParser_new NDEBUG {W} garbage w.
Arguments body_callback {W} body_handler_ data length wc.
Arguments PerformStreamingParse NDEBUG little_endian {PH W}
  header_handler_ body_handler_ p.
Arguments loop_condition NDEBUG little_endian {PH W} p.
Arguments parse_loop NDEBUG little_endian {PH W}
  header_handler_ body_handler_ fuel p.
Arguments HandleData NDEBUG little_endian {PH W}
  header_handler_ body_handler_ p data length.
Arguments feed NDEBUG little_endian {PH W}
  header_handler_ body_handler_ p chunks.

(** The header of [streaming_parser_test.cc] under the usual ABI:
    [uint16_t test_flag0, test_flag1; uint32_t body_length; uint16_t msg_type]
    and two bytes of padding. *)
Definition TestHeader : ProtoHeader :=
  {| protocol_header_length := 12;
     body_length_offset := 4;
     body_length_size := 4;
     body_length_type := or_intror eq_refl;
     body_length_inside := ltac:(lia);
     protocol_header_fits := eq_refl |}.

(** ** Invariants and abstraction *)

Definition byte_at (v : list byte) (i : Z) : byte := nth (Z.to_nat i) v x00.

(** A ring buffer as the constructor and the operations leave it: the
    storage has a power-of-two size that the [int32_t] counter can hold,
    the mask is that size minus one, the indices are [uint32_t] values, and
    the write index is the read index plus the counter, modulo the size. *)
Definition well_formed (rb : RingBuffer) : bool :=
  let cap := size (buffer_ rb) in
  IS_POWER_OF_TWO cap && (cap <? 2 ^ 31)
  && (index_mask rb =? cap - 1)
  && (0 <=? read_index_ rb) && (read_index_ rb <? 2 ^ 32)
  && (0 <=? write_index_ rb) && (write_index_ rb <? 2 ^ 32)
  && (0 <=? buffered_bytes_ rb) && (buffered_bytes_ rb <=? cap)
  && ((read_index_ rb + buffered_bytes_ rb) mod cap =? write_index_ rb mod cap).

(** [well_formed], spelled out ([well_formed_facts]). *)
Record ring_facts (rb : RingBuffer) : Prop := mkRingFacts {
  rf_cap_pos : 0 < size (buffer_ rb);
  rf_cap_max : size (buffer_ rb) < 2 ^ 31;
  rf_pow2 : IS_POWER_OF_TWO (size (buffer_ rb)) = true;
  rf_mask : index_mask rb = size (buffer_ rb) - 1;
  rf_read : 0 <= read_index_ rb < 2 ^ 32;
  rf_write : 0 <= write_index_ rb < 2 ^ 32;
  rf_count : 0 <= buffered_bytes_ rb <= size (buffer_ rb);
  rf_ring : (read_index_ rb + buffered_bytes_ rb) mod size (buffer_ rb)
            = write_index_ rb mod size (buffer_ rb)
}.

(** A ring buffer as the constructor and the operations leave it as long
    as the [int32_t] counter has not overflowed: the storage has a
    power-of-two size that a [uint32_t] holds, 2^31 included, and the
    counter holds the number of buffered bytes. *)
Definition store_ok (rb : RingBuffer) : bool :=
  let cap := size (buffer_ rb) in
  IS_POWER_OF_TWO cap && (cap <? 2 ^ 32)
  && (index_mask rb =? cap - 1)
  && (0 <=? read_index_ rb) && (read_index_ rb <? 2 ^ 32)
  && (0 <=? write_index_ rb) && (write_index_ rb <? 2 ^ 32)
  && (0 <=? buffered_bytes_ rb) && (buffered_bytes_ rb <=? cap)
  && (buffered_bytes_ rb <? 2 ^ 31)
  && ((read_index_ rb + buffered_bytes_ rb) mod cap =? write_index_ rb mod cap).

(** [store_ok], spelled out ([store_ok_facts]). *)
Record store_facts (rb : RingBuffer) : Prop := mkStoreFacts {
  sf_cap_pos : 0 < size (buffer_ rb);
  sf_cap_max : size (buffer_ rb) <= 2 ^ 31;
  sf_pow2 : IS_POWER_OF_TWO (size (buffer_ rb)) = true;
  sf_mask : index_mask rb = size (buffer_ rb) - 1;
  sf_read : 0 <= read_index_ rb < 2 ^ 32;
  sf_write : 0 <= write_index_ rb < 2 ^ 32;
  sf_count : 0 <= buffered_bytes_ rb <= size (buffer_ rb);
  sf_ring : (read_index_ rb + buffered_bytes_ rb) mod size (buffer_ rb)
            = write_index_ rb mod size (buffer_ rb);
  sf_int32 : buffered_bytes_ rb < 2 ^ 31
}.

(** The buffered bytes, oldest first. *)
Definition contents (rb : RingBuffer) : list byte :=
  map (fun i => byte_at (buffer_ rb)
                  ((read_index_ rb + Z.of_nat i) mod size (buffer_ rb)))
      (seq 0 (Z.to_nat (buffered_bytes_ rb))).

(** A parser whose ring buffer is well formed and whose header object has
    the size of the header type. *)
Definition parser_ok {PH : ProtoHeader} {W : Type} (p : StreamingParser W)
  : bool :=
  well_formed (recv_buffer_ p)
  && (size (current_header_ p) =? protocol_header_length).

(** A pointer argument together with a [uint32_t] length: the length is in
    range, and a non-null pointer has at least that many bytes behind it. *)
Definition valid_span (data : option (list byte)) (length : Z) : bool :=
  (0 <=? length) && (length <? 2 ^ 32)
  && match data with
     | None => true
     | Some bytes => length <=? size bytes
     end.

(** ** Headers that announce an empty body *)

(** A call of the header handler for a header whose body length is 0. *)
Definition announces_empty_body (little_endian : bool) {PH : ProtoHeader}
    (c : handler_call) : bool :=
  match c with
  | HeaderCall h => body_length little_endian h =? 0
  | BodyCall _ _ => false
  end.

(** The parser is in [READ_BODY] for a header whose body length is 0. *)
Definition awaits_empty_body (little_endian : bool) {PH : ProtoHeader}
    {W : Type} (p : StreamingParser W) : bool :=
  match recv_state_ p with
  | READ_HEADER => false
  | READ_BODY => body_length little_endian (current_header_ p) =? 0
  end.

(** ** Sequences of ring-buffer operations *)

Inductive op : Type :=
| OpWrite (data : option (list byte)) (length : Z)
| OpRead (data : option (list byte)) (length : Z)
| OpReadCb (length : Z) (recv_cb : list byte -> Z -> bool)
    (* a callback that does not call into the ring buffer *)
| OpDrain (length : Z).

(** What one operation did to the byte count: the length of an accepted
    write, and the number of bytes a read or a drain removed. *)
Record effect : Type := mkEffect { accepted : Z; removed : Z }.

Section Runs.

Variable NDEBUG : bool.

Definition step (rb : RingBuffer) (o : op) : outcome (RingBuffer * effect) :=
  match o with
  | OpWrite data length =>
    '(err, rb') <- write NDEBUG rb data length ;;
    Returns (rb', {| accepted := if error_code_eqb err Success
                                 then length else 0;
                     removed := 0 |})
  | OpRead data length =>
    '(n, _, rb') <- read NDEBUG rb data length ;;
    Returns (rb', {| accepted := 0; removed := n |})
  | OpReadCb length recv_cb =>
    '(n, rb', _) <-
      read_cb NDEBUG rb length
        (no_reentry (fun d l (w : unit) => (recv_cb d l, w))) tt ;;
    Returns (rb', {| accepted := 0; removed := n |})
  | OpDrain length =>
    bb <- buffered_bytes NDEBUG rb ;;
    rb' <- drain NDEBUG rb length ;;
    Returns (rb', {| accepted := 0; removed := Z.min length bb |})
  end.

(** The buffer after each operation, with the running totals of accepted
    and of removed bytes. *)
Fixpoint run (rb : RingBuffer) (acc rem : Z) (ops : list op)
  : outcome (list (RingBuffer * Z * Z)) :=
  match ops with
  | [] => Returns []
  | o :: rest =>
    '(rb', e) <- step rb o ;;
    let acc' := acc + accepted e in
    let rem' := rem + removed e in
    later <- run rb' acc' rem' rest ;;
    Returns ((rb', acc', rem') :: later)
  end.

(** Every operation has a valid argument span, and every write is no
    longer than the free space at the time it is made. *)
Fixpoint writes_fit (rb : RingBuffer) (ops : list op) : bool :=
  match ops with
  | [] => true
  | o :: rest =>
    match o with
    | OpWrite data length =>
      valid_span data length
      && (length <=? capacity rb - buffered_bytes_ rb)
    | OpRead data length => valid_span data length
    | OpReadCb length _ => valid_span None length
    | OpDrain length => valid_span None length
    end
    && match step rb o with
       | Returns (rb', _) => writes_fit rb' rest
       | _ => true
       end
  end.

(** Successive writes, one per chunk; the error codes in order. *)
Fixpoint write_all (rb : RingBuffer) (chunks : list (list byte))
  : outcome (list error_code * RingBuffer) :=
  match chunks with
  | [] => Returns ([], rb)
  | chunk :: rest =>
    '(err, rb1) <- write NDEBUG rb (Some chunk) (size chunk) ;;
    '(errs, rb2) <- write_all rb1 rest ;;
    Returns (err :: errs, rb2)
  end.

(** Successive reads, each into a fresh target of the requested length;
    the bytes each read produced, in order. *)
Fixpoint read_all (rb : RingBuffer) (lengths : list Z)
  : outcome (list (list byte) * RingBuffer) :=
  match lengths with
  | [] => Returns ([], rb)
  | length :: rest =>
    '(n, target, rb1) <-
      read NDEBUG rb (Some (repeat x00 (Z.to_nat length))) length ;;
    let got := match target with
               | Some bytes => firstn (Z.to_nat n) bytes
               | None => []
               end in
    '(gots, rb2) <- read_all rb1 rest ;;
    Returns (got :: gots, rb2)
  end.

End Runs.

(** ** Concrete inputs *)

(** [RingBuffer(16)] after [write(data, 1)] of the byte 0x5A. *)
Definition ring16_one : RingBuffer :=
  {| index_mask := 15;
     buffer_ := x5a :: repeat x00 15;
     read_index_ := 0; write_index_ := 1; buffered_bytes_ := 1 |}.

(** A ring buffer of eight bytes that holds 1, 2, 3, 4 across the end of
    its storage. *)
Definition ring8_wrapped : RingBuffer :=
  {| index_mask := 7;
     buffer_ := [x03; x04; x00; x00; x00; x00; x01; x02];
     read_index_ := 6; write_index_ := 10; buffered_bytes_ := 4 |}.

(** A callback that declines whatever it is shown. *)
Definition decline (data : list byte) (length : Z) (w : unit) : bool * unit :=
  (false, w).

(** A callback that calls [drain(k)] on the ring buffer it is called from
    and then returns [verdict]. *)
Definition drains (NDEBUG : bool) (k : Z) (verdict : bool)
    (data : list byte) (length : Z) (w : unit) (rb : RingBuffer)
  : outcome (bool * unit * RingBuffer) :=
  rb1 <- drain NDEBUG rb k ;;
  Returns (verdict, w, rb1).

(** The sum of a list of lengths. *)
Definition total (lengths : list Z) : Z := fold_right Z.add 0 lengths.

(** What [buffer_write_drain_test] does to a buffer of capacity 16, with a
    read in between. *)
Definition ops_demo : list op :=
  [ OpWrite (Some (repeat x5a 16)) 15;
    OpWrite (Some (repeat x5a 16)) 1;
    OpDrain 1;
    OpRead (Some (repeat x00 16)) 4;
    OpReadCb 20 (fun _ _ => false);
    OpReadCb 20 (fun _ _ => true);
    OpWrite None 3;
    OpWrite (Some [x01; x02; x03]) 3 ].

(** A well-formed empty buffer of capacity 16 whose indices stand at 14. *)
Definition ring16_at14 : RingBuffer :=
  {| index_mask := 15;
     buffer_ := repeat x00 16;
     read_index_ := 14; write_index_ := 14; buffered_bytes_ := 0 |}.

(** A header of the test's [ProtoHeader] as it travels: the two flags and
    the message type as a little-endian sender stores them, the body
    length [len] in network order, and the padding. *)
Definition wire_header (len : Z) : list byte :=
  [x55; xaa; x55; xbb] ++ encode_be 4 len ++ [xff; xff; x00; x00].

(** Handlers without state: the header handler returns [verdict], the body
    handler likewise. *)
Definition header_says (verdict : bool) (header : list byte) (w : unit)
  : bool * unit := (verdict, w).
Definition body_says (verdict : bool) (data : list byte) (length : Z) (w : unit)
  : bool * unit := (verdict, w).

(** A parser of the default capacity, in state [READ_HEADER], whose ring
    buffer holds [bytes] from index 0 on. *)
Definition parser_holding (bytes : list byte) : StreamingParser unit :=
  {| recv_state_ := READ_HEADER;
     current_header_ := repeat x00 12;
     recv_buffer_ :=
       {| index_mask := 2047;
          buffer_ := bytes ++ repeat x00 (2048 - length bytes);
          read_index_ := 0;
          write_index_ := size bytes;
          buffered_bytes_ := size bytes |};
     world := tt;
     calls := [] |}.

(** The parser of the test, freshly constructed. *)
Definition fresh_parser (NDEBUG : bool) : outcome (StreamingParser unit) :=
  StreamingParser_new NDEBUG (repeat x00 12) tt.

(** [HandleData] of the test's parser on a little-endian host. *)
Definition test_HandleData (NDEBUG : bool) (header_verdict body_verdict : bool)
  : StreamingParser unit -> option (list byte) -> Z
    -> outcome (bool * StreamingParser unit) :=
  HandleData NDEBUG true (PH := TestHeader)
    (header_says header_verdict) (body_says body_verdict).

Definition test_feed (NDEBUG : bool) (header_verdict body_verdict : bool)
  : StreamingParser unit -> list (list byte)
    -> outcome (list bool * StreamingParser unit) :=
  feed NDEBUG true (PH := TestHeader)
    (header_says header_verdict) (body_says body_verdict).

(** ** Delivery of one message *)

(** Where a parser stands when the bytes [seen] of the message
    [wire ++ body] have been written into the ring buffer of a parser
    that started as [p0]: nothing parsed yet, the header parsed, or the
    whole frame delivered. *)
Inductive pending {PH : ProtoHeader} {W : Type} (little_endian : bool)
    (header_handler_ : list byte -> W -> bool * W)
    (body_handler_ : list byte -> Z -> W -> bool * W)
    (wire body : list byte) (p0 : StreamingParser W)
    (seen : list byte) (p : StreamingParser W) : Prop :=
| pending_header :
    recv_state_ p = READ_HEADER ->
    contents (recv_buffer_ p) = seen ->
    calls p = calls p0 ->
    world p = world p0 ->
    pending little_endian header_handler_ body_handler_ wire body p0 seen p
| pending_body :
    recv_state_ p = READ_BODY ->
    current_header_ p = DoBytesOrderConversion little_endian wire ->
    protocol_header_length <= size seen ->
    contents (recv_buffer_ p)
      = skipn (Z.to_nat protocol_header_length) seen ->
    calls p = calls p0
                ++ [HeaderCall (DoBytesOrderConversion little_endian wire)] ->
    world p = snd (header_handler_
                     (DoBytesOrderConversion little_endian wire) (world p0)) ->
    pending little_endian header_handler_ body_handler_ wire body p0 seen p
| pending_done :
    recv_state_ p = READ_HEADER ->
    size seen = protocol_header_length + size body ->
    contents (recv_buffer_ p) = [] ->
    calls p = calls p0
                ++ [HeaderCall (DoBytesOrderConversion little_endian wire);
                    BodyCall body (size body)] ->
    world p = snd (body_handler_ body (size body)
                     (snd (header_handler_
                             (DoBytesOrderConversion little_endian wire)
                             (world p0)))) ->
    pending little_endian header_handler_ body_handler_ wire body p0 seen p.

(** The loop of [HandleData] has nothing to do on [p]. *)
Definition waits {PH : ProtoHeader} {W : Type} (little_endian : bool)
    (p : StreamingParser W) : Prop :=
  match recv_state_ p with
  | READ_HEADER => buffered_bytes_ (recv_buffer_ p) < protocol_header_length
  | READ_BODY => buffered_bytes_ (recv_buffer_ p)
                 < body_length little_endian (current_header_ p)
  end.

(** ** The queue a ring buffer stands for *)

(** The arguments of an operation are in range: a valid span, and for a
    write a length that the [int32_t] counter can hold. *)
Definition in_range (o : op) : bool :=
  match o with
  | OpWrite data length => valid_span data length && (length <? 2 ^ 31)
  | OpRead data length => valid_span data length
  | OpReadCb length _ => valid_span None length
  | OpDrain length => valid_span None length
  end.

(** One operation on a first-in first-out queue [q] of at most [cap]
    bytes: a write appends its bytes when all of them fit and does nothing
    otherwise; a read and a drain remove from the front; a read with a
    callback that does not call into the ring buffer removes what the
    callback accepted. *)
Definition fifo_step (cap : Z) (q : list byte) (o : op) : list byte :=
  match o with
  | OpWrite None _ => q
  | OpWrite (Some src) length =>
    if (length =? 0) || (cap - size q <? length) then q
    else q ++ firstn (Z.to_nat length) src
  | OpRead None _ => q
  | OpRead (Some _) length => skipn (Z.to_nat length) q
  | OpReadCb length recv_cb =>
    let n := Z.min length (size q) in
    if n =? 0 then q
    else if recv_cb (firstn (Z.to_nat n) q) n then skipn (Z.to_nat n) q else q
  | OpDrain length => skipn (Z.to_nat length) q
  end.

(** The queue after each operation. *)
Fixpoint fifo_run (cap : Z) (q : list byte) (ops : list op)
  : list (list byte) :=
  match ops with
  | [] => []
  | o :: rest =>
    let q' := fifo_step cap q o in
    q' :: fifo_run cap q' rest
  end.

(** ** [RingBuffer::getHexString] *)

(** [v[i]] of a [std::vector<uint8_t>]: the index is not checked. *)
Definition element (v : list byte) (i : Z) : outcome byte :=
  if (0 <=? i) && (i <? size v) then Returns (byte_at v i) else OutOfRange.

(** The character of one hexadecimal digit, lower case. *)
Definition hex_digit (d : Z) : byte :=
  byte_of_Z (if d <? 10 then 48 + d else 87 + d).

(** [stream << std::hex << static_cast<int>(b)] for a [uint8_t] [b]: one or
    two digits, no prefix and no padding. *)
Definition hex (b : byte) : list byte :=
  let v := Z_of_byte b in
  if v <? 16 then [hex_digit v] else [hex_digit (v / 16); hex_digit (v mod 16)].

(** The [for] loop from [i] on, [count] more rounds; the characters
    written to the stream. *)
Fixpoint hex_loop (rb : RingBuffer) (temp_read_idx i : Z) (count : nat)
  : outcome (list byte) :=
  match count with
  | O => Returns []
  | S count' =>
    b <- element (buffer_ rb)
           (Z.land (to_size_t (i + temp_read_idx)) (index_mask rb)) ;;
    rest <- hex_loop rb temp_read_idx (to_size_t (i + 1)) count' ;;
    Returns (hex b ++ [x20] ++ rest)
  end.

(** [std::string RingBuffer::getHexString()].  The loop runs while
    [i < buffered_bytes_], compared at type [size_t]. *)
Definition getHexString (rb : RingBuffer) : outcome (list byte) :=
  let temp_read_idx := read_index_ rb in
  hex_loop rb temp_read_idx 0 (Z.to_nat (to_size_t (buffered_bytes_ rb))).

(** The characters for a sequence of bytes: each one in hexadecimal,
    followed by a space. *)
Definition hex_dump (bytes : list byte) : list byte :=
  concat (map (fun b => hex b ++ [x20]) bytes).

(** ** What can be told of a parser *)

(** The state, the header object, the buffered bytes (not where they lie
    in the storage), what the handlers have done to their world, and the
    handler calls so far. *)
Definition observable {W : Type} (p : StreamingParser W)
  : RecvState * list byte * list byte * W * list handler_call :=
  (recv_state_ p, current_header_ p, contents (recv_buffer_ p),
   world p, calls p).

(** ** The handler calls of a parse *)

(** The handler calls [cs] are in the order of the protocol, for a parser
    that is in state [s] with header object [header]: a body call comes
    in state [READ_BODY] only, with as many bytes as the header object
    announces, more than none; a header call in state [READ_BODY] means
    that the header object announced an empty body. *)
Fixpoint calls_in_order (little_endian : bool) {PH : ProtoHeader}
    (s : RecvState) (header : list byte) (cs : list handler_call) : bool :=
  match cs with
  | [] => true
  | HeaderCall h :: rest =>
    match s with
    | READ_HEADER => true
    | READ_BODY => body_length little_endian header =? 0
    end
    && calls_in_order little_endian READ_BODY h rest
  | BodyCall data length :: rest =>
    match s with
    | READ_HEADER => false
    | READ_BODY => true
    end
    && (length =? body_length little_endian header)
    && (0 <? length)
    && (size data =? length)
    && calls_in_order little_endian READ_HEADER
         (set_body_length little_endian header 0) rest
  end.

(** The bytes of the stream that a handler call was made for: the header
    as it was before the conversion, or the body. *)
Definition stream_bytes (little_endian : bool) {PH : ProtoHeader}
    (c : handler_call) : list byte :=
  match c with
  | HeaderCall h => DoBytesOrderConversion little_endian h
  | BodyCall data _ => data
  end.

(** * Proofs *)

(** ** Machine integers *)

Lemma to_uint32_small (z : Z) : 0 <= z < 2 ^ 32 -> to_uint32 z = z.
Proof. intros H. unfold to_uint32. apply Z.mod_small. exact H. Qed.

Lemma to_int32_small (z : Z) : - 2 ^ 31 <= z < 2 ^ 31 -> to_int32 z = z.
Proof. intros H. unfold to_int32. rewrite Z.mod_small; lia. Qed.

Lemma to_size_t_small (z : Z) : 0 <= z < 2 ^ 64 -> to_size_t z = z.
Proof. intros H. unfold to_size_t. apply Z.mod_small. exact H. Qed.

Lemma to_uint32_range (z : Z) : 0 <= to_uint32 z < 2 ^ 32.
Proof. unfold to_uint32. apply Z.mod_pos_bound. lia. Qed.

(** What the macro tests: a positive [x] that shares no bit with [x - 1]
    is the power of two of its own logarithm. *)
Lemma power_of_two_log2 (c : Z) :
  0 < c < 2 ^ 32 -> IS_POWER_OF_TWO c = true -> c = 2 ^ Z.log2 c.
Proof.
  intros Hc H. unfold IS_POWER_OF_TWO in H.
  apply andb_prop in H as [_ H].
  rewrite to_uint32_small in H by lia. apply Z.eqb_eq in H.
  destruct (Z.log2_spec c) as [Hlo Hhi]; [lia|].
  destruct (Z.eq_dec c (2 ^ Z.log2 c)) as [Heq|Hne]; [exact Heq|exfalso].
  assert (Hone : 0 < 2 ^ Z.log2 c) by (apply Z.pow_pos_nonneg; [lia|apply Z.log2_nonneg]).
  assert (Hlog : Z.log2 (c - 1) = Z.log2 c).
  { apply Z.log2_unique; [apply Z.log2_nonneg|lia]. }
  assert (Hbit : Z.testbit (Z.land c (c - 1)) (Z.log2 c) = true).
  { rewrite Z.land_spec. rewrite (Z.bit_log2 c) by lia.
    rewrite <- Hlog. rewrite Z.bit_log2 by lia. reflexivity. }
  rewrite H in Hbit. rewrite Z.bits_0 in Hbit. discriminate.
Qed.

Lemma land_mask (c x : Z) :
  0 < c < 2 ^ 32 -> IS_POWER_OF_TWO c = true -> Z.land x (c - 1) = x mod c.
Proof.
  intros Hc H. pose proof (power_of_two_log2 c Hc H) as Hp.
  rewrite Hp at 2. rewrite <- Z.land_ones by apply Z.log2_nonneg.
  rewrite Z.ones_equiv, <- Hp. reflexivity.
Qed.

Lemma mod_shift_neq (c x d : Z) : 0 < d < c -> (x + d) mod c <> x mod c.
Proof.
  intros Hd Heq.
  assert (H : (x + d - x) mod c = 0).
  { rewrite Zminus_mod, Heq, Z.sub_diag. apply Z.mod_0_l. lia. }
  replace (x + d - x) with d in H by lia.
  rewrite Z.mod_small in H; lia.
Qed.

Lemma mod_congr_add (c x y d : Z) :
  x mod c = y mod c -> (x + d) mod c = (y + d) mod c.
Proof.
  intros H. rewrite <- (Zplus_mod_idemp_l x), H, Zplus_mod_idemp_l. reflexivity.
Qed.

(** ** What [well_formed] says *)

Lemma size_nonneg (v : list byte) : 0 <= size v.
Proof. unfold size. lia. Qed.

Lemma well_formed_facts (rb : RingBuffer) :
  well_formed rb = true <-> ring_facts rb.
Proof.
  unfold well_formed. split.
  - intros H.
    repeat match goal with
           | H : (_ && _) = true |- _ => apply andb_prop in H as [? ?]
           end.
    assert (Hpos : 0 < size (buffer_ rb)).
    { pose proof (size_nonneg (buffer_ rb)). match goal with
      | H : IS_POWER_OF_TWO _ = true |- _ =>
        unfold IS_POWER_OF_TWO in H; apply andb_prop in H as [H _];
        apply negb_true_iff, Z.eqb_neq in H
      end. lia. }
    constructor; try assumption; lia.
  - intros [? ? ? ? ? ? ? ?].
    repeat match goal with
           | |- (_ && _) = true => apply andb_true_intro; split
           end; try assumption; lia.
Qed.

Lemma capacity_size (rb : RingBuffer) :
  ring_facts rb -> capacity rb = size (buffer_ rb).
Proof. intros F. destruct F. unfold capacity. apply to_uint32_small. lia. Qed.

Lemma masked_index (rb : RingBuffer) (x : Z) :
  ring_facts rb -> Z.land x (index_mask rb) = x mod size (buffer_ rb).
Proof.
  intros F. destruct F. rewrite rf_mask0. apply land_mask; [lia|assumption].
Qed.

(** ** Objects as byte lists *)

Lemma size_app (a b : list byte) : size (a ++ b) = size a + size b.
Proof. unfold size. rewrite length_app. lia. Qed.

Lemma size_firstn (n : Z) (v : list byte) :
  0 <= n <= size v -> size (firstn (Z.to_nat n) v) = n.
Proof. unfold size. intros H. rewrite length_firstn. lia. Qed.

Lemma size_skipn (n : Z) (v : list byte) :
  0 <= n <= size v -> size (skipn (Z.to_nat n) v) = size v - n.
Proof. unfold size. intros H. rewrite length_skipn. lia. Qed.

Lemma size_repeat (b : byte) (n : Z) : 0 <= n -> size (repeat b (Z.to_nat n)) = n.
Proof. unfold size. intros H. rewrite repeat_length. lia. Qed.

Lemma byte_at_ext (a b : list byte) :
  size a = size b ->
  (forall i, 0 <= i < size a -> byte_at a i = byte_at b i) ->
  a = b.
Proof.
  unfold size, byte_at. intros Hlen H.
  apply (nth_ext a b x00 x00); [lia|].
  intros n Hn. specialize (H (Z.of_nat n)).
  rewrite Nat2Z.id in H. apply H. lia.
Qed.

Lemma byte_at_app (a b : list byte) (i : Z) :
  0 <= i ->
  byte_at (a ++ b) i = if i <? size a then byte_at a i else byte_at b (i - size a).
Proof.
  unfold size, byte_at. intros Hi.
  destruct (Z.ltb_spec i (Z.of_nat (length a))).
  - apply app_nth1. lia.
  - rewrite app_nth2 by lia. f_equal. lia.
Qed.

Lemma byte_at_firstn (n i : Z) (v : list byte) :
  0 <= i < n -> byte_at (firstn (Z.to_nat n) v) i = byte_at v i.
Proof.
  unfold byte_at. intros H. rewrite nth_firstn.
  destruct (Nat.ltb_spec (Z.to_nat i) (Z.to_nat n)); [reflexivity|lia].
Qed.

Lemma byte_at_skipn (n i : Z) (v : list byte) :
  0 <= n -> 0 <= i -> byte_at (skipn (Z.to_nat n) v) i = byte_at v (n + i).
Proof.
  unfold byte_at. intros Hn Hi. rewrite nth_skipn. f_equal. lia.
Qed.

Lemma byte_at_slice (src : list byte) (off n i : Z) :
  0 <= off -> 0 <= i < n ->
  byte_at (firstn (Z.to_nat n) (skipn (Z.to_nat off) src)) i = byte_at src (off + i).
Proof.
  intros Hoff Hi. rewrite byte_at_firstn by lia. apply byte_at_skipn; lia.
Qed.

Lemma load_returns (src : list byte) (off n : Z) :
  0 <= off -> 0 <= n -> off + n <= size src ->
  load src off n = Returns (firstn (Z.to_nat n) (skipn (Z.to_nat off) src)).
Proof.
  intros H1 H2 H3. unfold load.
  destruct (Z.leb_spec 0 off); [|lia].
  destruct (Z.leb_spec 0 n); [|lia].
  destruct (Z.leb_spec (off + n) (size src)); [|lia].
  reflexivity.
Qed.

Lemma size_slice (src : list byte) (off n : Z) :
  0 <= off -> 0 <= n -> off + n <= size src ->
  size (firstn (Z.to_nat n) (skipn (Z.to_nat off) src)) = n.
Proof.
  intros H1 H2 H3. rewrite size_firstn; [reflexivity|].
  rewrite size_skipn; lia.
Qed.

(** Whatever [load] returns has the requested length. *)
Lemma load_size (src : list byte) (off n : Z) (bytes : list byte) :
  load src off n = Returns bytes -> 0 <= off /\ size bytes = n /\ off + n <= size src.
Proof.
  unfold load.
  destruct (Z.leb_spec 0 off); [|discriminate].
  destruct (Z.leb_spec 0 n); [|discriminate].
  destruct (Z.leb_spec (off + n) (size src)); [|discriminate].
  simpl. intros Heq. injection Heq as <-. rewrite size_slice by lia. lia.
Qed.

Lemma store_returns (dst : list byte) (off : Z) (bytes : list byte) :
  0 <= off -> off + size bytes <= size dst ->
  store dst off bytes = Returns (patched dst off bytes).
Proof.
  intros H1 H2. unfold store.
  destruct (Z.leb_spec 0 off); [|lia].
  destruct (Z.leb_spec (off + size bytes) (size dst)); [|lia].
  reflexivity.
Qed.

Lemma size_patched (dst : list byte) (off : Z) (bytes : list byte) :
  0 <= off -> off + size bytes <= size dst ->
  size (patched dst off bytes) = size dst.
Proof.
  intros H1 H2. pose proof (size_nonneg bytes). unfold patched.
  rewrite !size_app, size_firstn, size_skipn by lia. lia.
Qed.

Lemma byte_at_patched (dst : list byte) (off : Z) (bytes : list byte) (j : Z) :
  0 <= off -> off + size bytes <= size dst -> 0 <= j ->
  byte_at (patched dst off bytes) j =
    if (off <=? j) && (j <? off + size bytes)
    then byte_at bytes (j - off) else byte_at dst j.
Proof.
  intros H1 H2 Hj. pose proof (size_nonneg bytes). unfold patched.
  rewrite byte_at_app by lia. rewrite size_firstn by lia.
  destruct (Z.ltb_spec j off).
  - destruct (Z.leb_spec off j); [lia|]. simpl. apply byte_at_firstn. lia.
  - destruct (Z.leb_spec off j); [|lia]. simpl.
    rewrite byte_at_app by lia.
    destruct (Z.ltb_spec (j - off) (size bytes));
      destruct (Z.ltb_spec j (off + size bytes)); try lia.
    + reflexivity.
    + rewrite byte_at_skipn by lia. f_equal. lia.
Qed.

Lemma patched_front (dst bytes : list byte) :
  size bytes <= size dst ->
  patched dst 0 bytes = bytes ++ skipn (Z.to_nat (size bytes)) dst.
Proof. intros H. unfold patched. reflexivity. Qed.

Lemma patched_after (front rest bytes : list byte) (off : Z) :
  off = size front ->
  size bytes <= size rest ->
  patched (front ++ rest) off bytes
  = front ++ bytes ++ skipn (Z.to_nat (size bytes)) rest.
Proof.
  intros -> H. unfold patched, size in *.
  rewrite Nat2Z.id. rewrite firstn_app, firstn_all, Nat.sub_diag. simpl.
  rewrite app_nil_r. f_equal. f_equal.
  rewrite skipn_app. rewrite skipn_all2 by lia. simpl. f_equal. lia.
Qed.

(** ** The buffered bytes *)

Lemma size_contents (rb : RingBuffer) :
  0 <= buffered_bytes_ rb -> size (contents rb) = buffered_bytes_ rb.
Proof.
  intros H. unfold contents, size. rewrite length_map, length_seq. lia.
Qed.

Lemma byte_at_contents (rb : RingBuffer) (i : Z) :
  0 <= i < buffered_bytes_ rb ->
  byte_at (contents rb) i
  = byte_at (buffer_ rb) ((read_index_ rb + i) mod size (buffer_ rb)).
Proof.
  intros H. unfold contents. unfold byte_at at 1.
  set (f := fun i0 : nat => _).
  rewrite (nth_indep _ x00 (f O)) by (rewrite length_map, length_seq; lia).
  rewrite map_nth. rewrite seq_nth by lia. unfold f. simpl.
  rewrite Z2Nat.id by lia. reflexivity.
Qed.

(** The constructor, when its assertions hold, makes a well-formed empty
    ring buffer of the requested capacity. *)
Lemma RingBuffer_new_well_formed (NDEBUG : bool) (n : Z) :
  0 < n < 2 ^ 31 -> IS_POWER_OF_TWO n = true ->
  exists rb,
    RingBuffer_new NDEBUG n = Returns rb
    /\ well_formed rb = true
    /\ capacity rb = n
    /\ buffered_bytes_ rb = 0.
Proof.
  intros Hn Hpow. unfold RingBuffer_new, assert_.
  destruct (Z.ltb_spec 0 n); [|lia].
  rewrite Hpow, !orb_true_r. cbn [bind].
  eexists. split; [reflexivity|].
  assert (Hsize : size (repeat x00 (Z.to_nat n)) = n) by (apply size_repeat; lia).
  split; [|split; [|reflexivity]].
  - apply well_formed_facts.
    constructor; cbn [buffer_ index_mask read_index_ write_index_ buffered_bytes_];
      rewrite ?Hsize; try lia; try assumption.
    + apply to_uint32_small. lia.
    + reflexivity.
  - unfold capacity. cbn [buffer_]. rewrite Hsize. apply to_uint32_small. lia.
Qed.

(** ** The ring buffer on well-formed states *)

Lemma mod_wrap (c x : Z) : c <= x < 2 * c -> x mod c = x - c.
Proof.
  intros H. symmetry. apply (Zmod_unique x c 1); lia.
Qed.

Lemma masked_range (rb : RingBuffer) (x : Z) :
  ring_facts rb -> 0 <= Z.land x (index_mask rb) < size (buffer_ rb).
Proof.
  intros F. rewrite masked_index by exact F.
  apply Z.mod_pos_bound. apply (rf_cap_pos _ F).
Qed.

(** *** Ring buffers of any capacity *)

Lemma power_of_two_at_most (c : Z) :
  0 < c < 2 ^ 32 -> IS_POWER_OF_TWO c = true -> c <= 2 ^ 31.
Proof.
  intros Hc Hpow. pose proof (power_of_two_log2 c Hc Hpow) as Heq.
  assert (Z.log2 c < 32) by (apply Z.log2_lt_pow2; lia).
  rewrite Heq. apply Z.pow_le_mono_r; lia.
Qed.

Lemma store_ok_facts (rb : RingBuffer) :
  store_ok rb = true <-> store_facts rb.
Proof.
  unfold store_ok. split.
  - intros H.
    repeat match goal with
           | H : (_ && _) = true |- _ => apply andb_prop in H as [? ?]
           end.
    assert (Hpos : 0 < size (buffer_ rb)).
    { pose proof (size_nonneg (buffer_ rb)).
      match goal with
      | H : IS_POWER_OF_TWO _ = true |- _ =>
        pose proof H as Hnz; unfold IS_POWER_OF_TWO in Hnz;
        apply andb_prop in Hnz as [Hnz _];
        apply negb_true_iff, Z.eqb_neq in Hnz
      end. lia. }
    assert (Hmax : size (buffer_ rb) <= 2 ^ 31)
      by (apply power_of_two_at_most; [lia|assumption]).
    constructor; try assumption; lia.
  - intros [? ? ? ? ? ? ? ? ?].
    repeat match goal with
           | |- (_ && _) = true => apply andb_true_intro; split
           end; try assumption; lia.
Qed.

Lemma ring_is_store (rb : RingBuffer) : ring_facts rb -> store_facts rb.
Proof. intros [? ? ? ? ? ? ? ?]. constructor; try assumption; lia. Qed.

Lemma store_is_ring (rb : RingBuffer) :
  store_facts rb -> size (buffer_ rb) < 2 ^ 31 -> ring_facts rb.
Proof. intros [? ? ? ? ? ? ? ? ?] Hcap. constructor; assumption. Qed.

Lemma store_capacity_size (rb : RingBuffer) :
  store_facts rb -> capacity rb = size (buffer_ rb).
Proof. intros F. destruct F. unfold capacity. apply to_uint32_small. lia. Qed.

Lemma store_masked_index (rb : RingBuffer) (x : Z) :
  store_facts rb -> Z.land x (index_mask rb) = x mod size (buffer_ rb).
Proof.
  intros F. destruct F. rewrite sf_mask0. apply land_mask; [lia|assumption].
Qed.

Lemma store_masked_range (rb : RingBuffer) (x : Z) :
  store_facts rb -> 0 <= Z.land x (index_mask rb) < size (buffer_ rb).
Proof.
  intros F. rewrite store_masked_index by exact F.
  apply Z.mod_pos_bound. apply (sf_cap_pos _ F).
Qed.

Section RingBufferFacts.

Variable NDEBUG : bool.

Lemma assert_holds (cond : bool) : cond = true -> assert_ NDEBUG cond = Returns tt.
Proof. intros ->. unfold assert_. rewrite orb_true_r. reflexivity. Qed.

Lemma buffered_bytes_returns (rb : RingBuffer) :
  ring_facts rb -> buffered_bytes NDEBUG rb = Returns (buffered_bytes_ rb).
Proof.
  intros F. destruct F. unfold buffered_bytes.
  rewrite assert_holds by lia. cbn [bind].
  rewrite to_uint32_small by lia. reflexivity.
Qed.

(** The two-part copy into the storage: the [length] bytes of [src] land
    at the positions [t, t+1, ...] modulo the size, and no other byte of
    the storage changes. *)
Lemma write_copy (rb : RingBuffer) (src : list byte) (length : Z) :
  ring_facts rb ->
  0 < length <= size (buffer_ rb) -> length <= size src ->
  let t := Z.land (write_index_ rb) (index_mask rb) in
  let cap := size (buffer_ rb) in
  exists buf,
    (if to_uint32 (t + length) >? capacity rb then
       let left := to_size_t (to_uint32 (capacity rb - t)) in
       b1 <- memcpy (buffer_ rb) t src 0 left ;;
       memcpy b1 0 src left (to_size_t (length - left))
     else memcpy (buffer_ rb) t src 0 length) = Returns buf
    /\ size buf = cap
    /\ (forall k, 0 <= k < length ->
          byte_at buf ((t + k) mod cap) = byte_at src k)
    /\ (forall j, 0 <= j < cap ->
          (forall k, 0 <= k < length -> j <> (t + k) mod cap) ->
          byte_at buf j = byte_at (buffer_ rb) j).
Proof.
  intros F Hlen Hsrc t cap.
  pose proof (masked_range rb (write_index_ rb) F) as Ht. fold t cap in Ht.
  pose proof (rf_cap_max _ F) as Hmax. fold cap in Hmax.
  rewrite (capacity_size rb F). fold cap.
  rewrite to_uint32_small by lia.
  destruct (Z.gtb_spec (t + length) cap) as [Hwrap|Hflat].
  - (* the range wraps past the end of the storage *)
    cbv zeta.
    rewrite (to_uint32_small (cap - t)) by lia.
    rewrite (to_size_t_small (cap - t)) by lia.
    rewrite (to_size_t_small (length - (cap - t))) by lia.
    unfold memcpy.
    rewrite (load_returns src 0 (cap - t)) by lia. cbn [bind].
    set (part1 := firstn (Z.to_nat (cap - t)) (skipn (Z.to_nat 0) src)).
    assert (Hs1 : size part1 = cap - t) by (apply size_slice; lia).
    rewrite (store_returns (buffer_ rb) t part1) by (fold cap; lia). cbn [bind].
    set (b1 := patched (buffer_ rb) t part1).
    assert (Hb1 : size b1 = cap) by (apply size_patched; fold cap; lia).
    rewrite (load_returns src (cap - t) (length - (cap - t))) by lia. cbn [bind].
    set (part2 := firstn (Z.to_nat (length - (cap - t))) (skipn (Z.to_nat (cap - t)) src)).
    assert (Hs2 : size part2 = length - (cap - t)) by (apply size_slice; lia).
    rewrite (store_returns b1 0 part2) by lia.
    eexists. split; [reflexivity|]. split; [|split].
    + rewrite size_patched by lia. exact Hb1.
    + intros k Hk. destruct (Z.lt_ge_cases (t + k) cap) as [Hlo|Hhi].
      * rewrite Z.mod_small by lia.
        rewrite byte_at_patched by lia.
        destruct (Z.leb_spec 0 (t + k)); [|lia].
        destruct (Z.ltb_spec (t + k) (0 + size part2)); [lia|]. simpl.
        unfold b1. rewrite byte_at_patched by (fold cap; lia).
        destruct (Z.leb_spec t (t + k)); [|lia].
        destruct (Z.ltb_spec (t + k) (t + size part1)); [|lia]. simpl.
        unfold part1. rewrite byte_at_slice by lia. f_equal. lia.
      * rewrite mod_wrap by lia.
        rewrite byte_at_patched by lia.
        destruct (Z.leb_spec 0 (t + k - cap)); [|lia].
        destruct (Z.ltb_spec (t + k - cap) (0 + size part2)); [|lia]. simpl.
        unfold part2. rewrite byte_at_slice by lia. f_equal. lia.
    + intros j Hj Hout.
      rewrite byte_at_patched by lia.
      destruct (Z.leb_spec 0 j); [|lia].
      destruct (Z.ltb_spec j (0 + size part2)) as [Hin|Hnot]; simpl.
      * exfalso. apply (Hout (j + (cap - t))); [lia|].
        replace (t + (j + (cap - t))) with (j + cap) by lia.
        rewrite mod_wrap by lia. lia.
      * unfold b1. rewrite byte_at_patched by (fold cap; lia).
        destruct (Z.leb_spec t j); [|reflexivity].
        destruct (Z.ltb_spec j (t + size part1)); [|reflexivity]. simpl.
        exfalso. apply (Hout (j - t)); [lia|].
        replace (t + (j - t)) with j by lia.
        rewrite Z.mod_small by lia. reflexivity.
  - (* one contiguous copy *)
    unfold memcpy.
    rewrite (load_returns src 0 length) by lia. cbn [bind].
    set (part := firstn (Z.to_nat length) (skipn (Z.to_nat 0) src)).
    assert (Hs : size part = length) by (apply size_slice; lia).
    rewrite (store_returns (buffer_ rb) t part) by (fold cap; lia).
    eexists. split; [reflexivity|]. split; [|split].
    + apply size_patched; fold cap; lia.
    + intros k Hk. rewrite Z.mod_small by lia.
      rewrite byte_at_patched by (fold cap; lia).
      destruct (Z.leb_spec t (t + k)); [|lia].
      destruct (Z.ltb_spec (t + k) (t + size part)); [|lia]. simpl.
      unfold part. rewrite byte_at_slice by lia. f_equal. lia.
    + intros j Hj Hout.
      rewrite byte_at_patched by (fold cap; lia).
      destruct (Z.leb_spec t j); [|reflexivity].
      destruct (Z.ltb_spec j (t + size part)); [|reflexivity]. simpl.
      exfalso. apply (Hout (j - t)); [lia|].
      replace (t + (j - t)) with j by lia.
      rewrite Z.mod_small by lia. reflexivity.
Qed.

(** An accepted write appends its bytes to the buffered bytes. *)
Lemma write_accepts (rb : RingBuffer) (src : list byte) (length : Z) :
  ring_facts rb ->
  0 < length -> length <= size src ->
  buffered_bytes_ rb + length <= size (buffer_ rb) ->
  exists rb',
    write NDEBUG rb (Some src) length = Returns (Success, rb')
    /\ ring_facts rb'
    /\ size (buffer_ rb') = size (buffer_ rb)
    /\ buffered_bytes_ rb' = buffered_bytes_ rb + length
    /\ contents rb' = contents rb ++ firstn (Z.to_nat length) src.
Proof.
  intros F Hpos Hsrc Hfit.
  pose proof F as [Hcpos Hcmax Hpow Hmask Hrd Hwr Hcnt Hring].
  pose proof (masked_range rb (write_index_ rb) F) as Ht.
  destruct (write_copy rb src length F) as (buf & Hcopy & Hsize & Hnew & Hold);
    [lia|lia|].
  unfold write.
  destruct (Z.eqb_spec length 0); [lia|].
  rewrite buffered_bytes_returns by exact F. cbn [bind].
  rewrite (capacity_size rb F) in *.
  rewrite (to_uint32_small (buffered_bytes_ rb + length)) by lia.
  destruct (Z.gtb_spec (buffered_bytes_ rb + length) (size (buffer_ rb))); [lia|].
  cbv zeta in Hcopy. rewrite Hcopy. cbn [bind buffered_bytes_].
  rewrite (to_uint32_small (buffered_bytes_ rb)) by lia.
  rewrite (to_uint32_small (buffered_bytes_ rb + length)) by lia.
  rewrite (to_int32_small (buffered_bytes_ rb + length)) by lia.
  rewrite (to_uint32_small (Z.land (write_index_ rb) (index_mask rb) + length)) by lia.
  rewrite assert_holds by lia. cbn [bind].
  eexists. split; [reflexivity|].
  assert (Hring' :
    (read_index_ rb + (buffered_bytes_ rb + length)) mod size (buffer_ rb)
    = (Z.land (write_index_ rb) (index_mask rb) + length) mod size (buffer_ rb)).
  { rewrite Z.add_assoc. rewrite (masked_index rb _ F).
    rewrite Zplus_mod_idemp_l. apply mod_congr_add. exact Hring. }
  split; [|split; [|split]].
  - constructor; cbn [buffer_ index_mask read_index_ write_index_ buffered_bytes_];
      rewrite ?Hsize; try assumption; try lia.
  - exact Hsize.
  - reflexivity.
  - apply byte_at_ext.
    + rewrite size_app, !size_contents, size_firstn;
        cbn [buffered_bytes_]; lia.
    + rewrite size_contents by (cbn [buffered_bytes_]; lia).
      cbn [buffered_bytes_]. intros i Hi.
      rewrite byte_at_contents by (cbn [buffered_bytes_]; lia).
      cbn [buffer_ read_index_]. rewrite Hsize.
      rewrite byte_at_app by lia. rewrite size_contents by lia.
      destruct (Z.ltb_spec i (buffered_bytes_ rb)) as [Hlo|Hhi].
      * rewrite byte_at_contents by lia.
        apply Hold; [apply Z.mod_pos_bound; lia|].
        intros k Hk Heq.
        rewrite (masked_index rb _ F), Zplus_mod_idemp_l in Heq.
        rewrite <- (mod_congr_add _ _ _ k Hring) in Heq.
        apply (mod_shift_neq (size (buffer_ rb)) (read_index_ rb + i)
                 (buffered_bytes_ rb + k - i)); [lia|].
        rewrite Heq. f_equal. lia.
      * rewrite byte_at_firstn by lia.
        rewrite <- (Hnew (i - buffered_bytes_ rb)) by lia. f_equal.
        rewrite (masked_index rb _ F), Zplus_mod_idemp_l.
        rewrite <- (mod_congr_add _ _ _ (i - buffered_bytes_ rb) Hring).
        f_equal. lia.
Qed.

(** The length check, as long as the 32-bit sum does not wrap. *)
Lemma write_rejects (rb : RingBuffer) (src : list byte) (length : Z) :
  ring_facts rb ->
  0 < length -> buffered_bytes_ rb + length < 2 ^ 32 ->
  size (buffer_ rb) < buffered_bytes_ rb + length ->
  write NDEBUG rb (Some src) length = Returns (ErrBufferOverflow, rb).
Proof.
  intros F Hpos Hsum Hover.
  pose proof F as [Hcpos Hcmax Hpow Hmask Hrd Hwr Hcnt Hring].
  unfold write.
  destruct (Z.eqb_spec length 0); [lia|].
  rewrite buffered_bytes_returns by exact F. cbn [bind].
  rewrite (capacity_size rb F).
  rewrite (to_uint32_small (buffered_bytes_ rb + length)) by lia.
  destruct (Z.gtb_spec (buffered_bytes_ rb + length) (size (buffer_ rb))); [|lia].
  reflexivity.
Qed.

Lemma write_invalid (rb : RingBuffer) (data : option (list byte)) (length : Z) :
  data = None \/ length = 0 ->
  write NDEBUG rb data length = Returns (ErrInvalidParameter, rb).
Proof.
  intros H. unfold write. destruct data as [src|]; [|reflexivity].
  destruct H as [H|H]; [discriminate|]. subst length. reflexivity.
Qed.

Lemma store_buffered_bytes_returns (rb : RingBuffer) :
  store_facts rb -> buffered_bytes NDEBUG rb = Returns (buffered_bytes_ rb).
Proof.
  intros F. destruct F. unfold buffered_bytes.
  rewrite assert_holds by lia. cbn [bind].
  rewrite to_uint32_small by lia. reflexivity.
Qed.

(** Moving the read index forward by [n] drops the [n] oldest bytes. *)
Lemma store_consume_facts (rb rb' : RingBuffer) (n : Z) :
  store_facts rb ->
  0 <= n <= buffered_bytes_ rb ->
  buffer_ rb' = buffer_ rb ->
  index_mask rb' = index_mask rb ->
  write_index_ rb' = write_index_ rb ->
  buffered_bytes_ rb' = buffered_bytes_ rb - n ->
  0 <= read_index_ rb' < 2 ^ 32 ->
  read_index_ rb' mod size (buffer_ rb)
    = (read_index_ rb + n) mod size (buffer_ rb) ->
  store_facts rb' /\ contents rb' = skipn (Z.to_nat n) (contents rb).
Proof.
  intros F Hn Hbuf Hmask' Hwr' Hcnt' Hrd' Hidx.
  pose proof F as [Hcpos Hcmax Hpow Hmask Hrd Hwr Hcnt Hring Hint].
  split.
  - constructor; rewrite ?Hbuf, ?Hmask', ?Hwr', ?Hcnt'; try assumption; try lia.
    rewrite <- Hring. rewrite <- Zplus_mod_idemp_l, Hidx, Zplus_mod_idemp_l.
    f_equal. lia.
  - apply byte_at_ext.
    + rewrite size_skipn, !size_contents; rewrite ?size_contents; lia.
    + rewrite size_contents by lia. intros i Hi.
      rewrite byte_at_contents by lia.
      rewrite byte_at_skipn by lia.
      rewrite byte_at_contents by lia.
      rewrite Hbuf. f_equal.
      rewrite <- Zplus_mod_idemp_l, Hidx, Zplus_mod_idemp_l.
      f_equal. lia.
Qed.

(** The bytes a read takes out of the storage, in one piece or in two,
    are the oldest buffered bytes. *)
Lemma store_oldest_flat (rb : RingBuffer) (n : Z) :
  store_facts rb -> 0 <= n <= buffered_bytes_ rb ->
  let t := Z.land (read_index_ rb) (index_mask rb) in
  t + n <= size (buffer_ rb) ->
  firstn (Z.to_nat n) (skipn (Z.to_nat t) (buffer_ rb))
  = firstn (Z.to_nat n) (contents rb).
Proof.
  intros F Hn t Hflat.
  pose proof F as [Hcpos Hcmax Hpow Hmask Hrd Hwr Hcnt Hring Hint].
  pose proof (store_masked_range rb (read_index_ rb) F) as Ht. fold t in Ht.
  apply byte_at_ext.
  - rewrite size_slice by lia. rewrite size_firstn; rewrite ?size_contents; lia.
  - rewrite size_slice by lia. intros i Hi.
    rewrite byte_at_slice by lia. rewrite byte_at_firstn by lia.
    rewrite byte_at_contents by lia. f_equal.
    rewrite <- Zplus_mod_idemp_l.
    rewrite <- (store_masked_index rb (read_index_ rb) F). fold t.
    rewrite Z.mod_small; lia.
Qed.

Lemma store_oldest_wrapped (rb : RingBuffer) (n : Z) :
  store_facts rb -> 0 <= n <= buffered_bytes_ rb ->
  let t := Z.land (read_index_ rb) (index_mask rb) in
  let left := size (buffer_ rb) - t in
  size (buffer_ rb) < t + n ->
  firstn (Z.to_nat left) (skipn (Z.to_nat t) (buffer_ rb))
    ++ firstn (Z.to_nat (n - left)) (skipn (Z.to_nat 0) (buffer_ rb))
  = firstn (Z.to_nat n) (contents rb).
Proof.
  intros F Hn t left Hwrap.
  pose proof F as [Hcpos Hcmax Hpow Hmask Hrd Hwr Hcnt Hring Hint].
  pose proof (store_masked_range rb (read_index_ rb) F) as Ht. fold t in Ht.
  assert (Hsz : size (firstn (Z.to_nat left) (skipn (Z.to_nat t) (buffer_ rb))
                      ++ firstn (Z.to_nat (n - left))
                           (skipn (Z.to_nat 0) (buffer_ rb))) = n).
  { rewrite size_app, !size_slice by (unfold left; lia). lia. }
  apply byte_at_ext.
  - rewrite Hsz. rewrite size_firstn; rewrite ?size_contents; lia.
  - rewrite Hsz. intros i Hi.
    rewrite byte_at_app by lia. rewrite size_slice by (unfold left; lia).
    rewrite (byte_at_firstn n i (contents rb)) by lia.
    rewrite byte_at_contents by lia.
    rewrite <- Zplus_mod_idemp_l.
    rewrite <- (store_masked_index rb (read_index_ rb) F). fold t.
    destruct (Z.ltb_spec i left).
    + rewrite byte_at_slice by lia. f_equal.
      rewrite Z.mod_small; unfold left in *; lia.
    + rewrite byte_at_slice by (unfold left in *; lia). f_equal.
      rewrite mod_wrap; unfold left in *; lia.
Qed.

(** The copy of [n] buffered bytes into the front of a target object. *)
Lemma store_read_copy (rb : RingBuffer) (dst : list byte) (n : Z) :
  store_facts rb -> 0 < n <= buffered_bytes_ rb -> n <= size dst ->
  let t := Z.land (read_index_ rb) (index_mask rb) in
  (if to_uint32 (t + n) >? capacity rb then
     let left := to_size_t (to_uint32 (capacity rb - t)) in
     d1 <- memcpy dst 0 (buffer_ rb) t left ;;
     memcpy d1 left (buffer_ rb) 0 (to_size_t (n - left))
   else memcpy dst 0 (buffer_ rb) t n)
  = Returns (firstn (Z.to_nat n) (contents rb) ++ skipn (Z.to_nat n) dst).
Proof.
  intros F Hn Hdst t.
  pose proof F as [Hcpos Hcmax Hpow Hmask Hrd Hwr Hcnt Hring Hint].
  pose proof (store_masked_range rb (read_index_ rb) F) as Ht. fold t in Ht.
  rewrite (store_capacity_size rb F).
  rewrite to_uint32_small by lia.
  destruct (Z.gtb_spec (t + n) (size (buffer_ rb))) as [Hwrap|Hflat].
  - cbv zeta.
    set (left := size (buffer_ rb) - t).
    rewrite (to_uint32_small left) by (unfold left; lia).
    rewrite (to_size_t_small left) by (unfold left; lia).
    rewrite (to_size_t_small (n - left)) by (unfold left; lia).
    unfold memcpy.
    rewrite (load_returns (buffer_ rb) t left) by (unfold left; lia). cbn [bind].
    set (part1 := firstn (Z.to_nat left) (skipn (Z.to_nat t) (buffer_ rb))).
    assert (Hs1 : size part1 = left) by (apply size_slice; unfold left; lia).
    rewrite (store_returns dst 0 part1) by (unfold left in *; lia). cbn [bind].
    rewrite patched_front by (unfold left in *; lia).
    rewrite (load_returns (buffer_ rb) 0 (n - left)) by (unfold left; lia).
    cbn [bind].
    set (part2 := firstn (Z.to_nat (n - left)) (skipn (Z.to_nat 0) (buffer_ rb))).
    assert (Hs2 : size part2 = n - left) by (apply size_slice; unfold left; lia).
    rewrite store_returns
      by (rewrite ?size_app, ?size_skipn; unfold left in *; lia).
    rewrite (patched_after part1 _ part2 left)
      by (rewrite ?size_skipn; unfold left in *; lia).
    f_equal. rewrite app_assoc. f_equal.
    + apply (store_oldest_wrapped rb n F); [lia|exact Hwrap].
    + rewrite skipn_skipn. f_equal. rewrite Hs1, Hs2. unfold left in *. lia.
  - unfold memcpy.
    rewrite (load_returns (buffer_ rb) t n) by lia. cbn [bind].
    set (part := firstn (Z.to_nat n) (skipn (Z.to_nat t) (buffer_ rb))).
    assert (Hs : size part = n) by (apply size_slice; lia).
    rewrite (store_returns dst 0 part) by lia.
    rewrite patched_front by lia. f_equal. f_equal.
    + apply (store_oldest_flat rb n F); [lia|exact Hflat].
    + rewrite Hs. reflexivity.
Qed.

Lemma store_read_returns (rb : RingBuffer) (dst : list byte) (length : Z) :
  store_facts rb -> 0 <= length < 2 ^ 32 -> length <= size dst ->
  let n := Z.min length (buffered_bytes_ rb) in
  exists rb',
    read NDEBUG rb (Some dst) length
    = Returns (n, Some (firstn (Z.to_nat n) (contents rb)
                          ++ skipn (Z.to_nat n) dst), rb')
    /\ store_facts rb'
    /\ buffer_ rb' = buffer_ rb
    /\ buffered_bytes_ rb' = buffered_bytes_ rb - n
    /\ contents rb' = skipn (Z.to_nat n) (contents rb).
Proof.
  intros F Hlen Hdst n.
  pose proof F as [Hcpos Hcmax Hpow Hmask Hrd Hwr Hcnt Hring Hint].
  pose proof (store_masked_range rb (read_index_ rb) F) as Ht.
  unfold read.
  destruct (Z.eqb_spec length 0) as [Hz|Hnz].
  { assert (Hn0 : n = 0) by (unfold n; lia). rewrite Hn0.
    exists rb. repeat split; try assumption; try lia; reflexivity. }
  destruct (Z.eqb_spec (buffered_bytes_ rb) 0) as [Hb|Hb].
  { assert (Hn0 : n = 0) by (unfold n; lia). rewrite Hn0.
    exists rb. repeat split; try assumption; try lia; reflexivity. }
  rewrite store_buffered_bytes_returns by exact F. cbn [bind]. fold n.
  pose proof (store_read_copy rb dst n F) as Hcopy. cbv zeta in Hcopy.
  rewrite Hcopy by (unfold n; lia). cbn [bind buffered_bytes_].
  rewrite (to_uint32_small (buffered_bytes_ rb)) by lia.
  rewrite (to_uint32_small (buffered_bytes_ rb - n)) by (unfold n; lia).
  rewrite (to_int32_small (buffered_bytes_ rb - n)) by (unfold n; lia).
  rewrite (to_uint32_small (Z.land (read_index_ rb) (index_mask rb) + n))
    by (unfold n; lia).
  rewrite assert_holds by (unfold n; lia). cbn [bind].
  eexists. split; [reflexivity|].
  match goal with
  | |- store_facts ?r /\ _ /\ _ /\ _ =>
    destruct (store_consume_facts rb r n F) as [F' Hc]
  end; cbn [buffer_ index_mask read_index_ write_index_ buffered_bytes_];
    try reflexivity; try (subst n; lia).
  - rewrite (store_masked_index rb _ F). apply Zplus_mod_idemp_l.
  - split; [exact F'|]. split; [reflexivity|]. split; [reflexivity|exact Hc].
Qed.

(** The bytes shown to the callback of the zero-copy read. *)
Lemma store_read_view (rb : RingBuffer) (n : Z) :
  store_facts rb -> 0 < n <= buffered_bytes_ rb ->
  let t := Z.land (read_index_ rb) (index_mask rb) in
  (if to_uint32 (t + n) >? capacity rb then
     let left := to_size_t (to_uint32 (capacity rb - t)) in
     let temp_buffer := repeat x00 (Z.to_nat n) in
     t1 <- memcpy temp_buffer 0 (buffer_ rb) t left ;;
     memcpy t1 left (buffer_ rb) 0 (to_size_t (n - left))
   else load (buffer_ rb) t n)
  = Returns (firstn (Z.to_nat n) (contents rb)).
Proof.
  intros F Hn t.
  pose proof F as [Hcpos Hcmax Hpow Hmask Hrd Hwr Hcnt Hring Hint].
  pose proof (store_masked_range rb (read_index_ rb) F) as Ht. fold t in Ht.
  pose proof (store_read_copy rb (repeat x00 (Z.to_nat n)) n F Hn) as Hcopy.
  cbv zeta in Hcopy. fold t in Hcopy.
  rewrite size_repeat in Hcopy by lia. specialize (Hcopy (Z.le_refl n)).
  rewrite skipn_all2, app_nil_r in Hcopy by (rewrite repeat_length; lia).
  destruct (to_uint32 (t + n) >? capacity rb) eqn:Hbranch.
  - exact Hcopy.
  - rewrite (store_capacity_size rb F) in Hbranch.
    rewrite to_uint32_small in Hbranch by lia.
    rewrite load_returns by lia. f_equal.
    apply (store_oldest_flat rb n F); lia.
Qed.

Lemma store_read_cb_nothing {W : Type} (rb : RingBuffer) (length : Z)
    (recv_cb : list byte -> Z -> W -> RingBuffer
               -> outcome (bool * W * RingBuffer)) (w : W) :
  length = 0 \/ buffered_bytes_ rb = 0 ->
  read_cb NDEBUG rb length recv_cb w = Returns (0, rb, w).
Proof.
  intros H. unfold read_cb.
  destruct (Z.eqb_spec length 0); [reflexivity|].
  destruct (Z.eqb_spec (buffered_bytes_ rb) 0); [reflexivity|].
  destruct H; contradiction.
Qed.

(** A callback that returns [false] and has left the ring buffer alone:
    the ring buffer is as it was. *)
Lemma store_read_cb_declined {W : Type} (rb : RingBuffer) (length : Z)
    (recv_cb : list byte -> Z -> W -> RingBuffer
               -> outcome (bool * W * RingBuffer)) (w w' : W) :
  store_facts rb -> 0 < length < 2 ^ 32 -> 0 < buffered_bytes_ rb ->
  let n := Z.min length (buffered_bytes_ rb) in
  recv_cb (firstn (Z.to_nat n) (contents rb)) n w rb
  = Returns (false, w', rb) ->
  read_cb NDEBUG rb length recv_cb w = Returns (0, rb, w').
Proof.
  intros F Hlen Hb n Hcb.
  pose proof F as [Hcpos Hcmax Hpow Hmask Hrd Hwr Hcnt Hring Hint].
  unfold read_cb.
  destruct (Z.eqb_spec length 0); [lia|].
  destruct (Z.eqb_spec (buffered_bytes_ rb) 0); [lia|].
  rewrite store_buffered_bytes_returns by exact F. cbn [bind]. fold n.
  pose proof (store_read_view rb n F) as Hview. cbv zeta in Hview.
  rewrite Hview by (unfold n; lia). cbn [bind].
  rewrite Hcb. reflexivity.
Qed.

(** A callback that returns [true] and has left the ring buffer alone:
    the read is committed. *)
Lemma store_read_cb_accepted {W : Type} (rb : RingBuffer) (length : Z)
    (recv_cb : list byte -> Z -> W -> RingBuffer
               -> outcome (bool * W * RingBuffer)) (w w' : W) :
  store_facts rb -> 0 < length < 2 ^ 32 -> 0 < buffered_bytes_ rb ->
  let n := Z.min length (buffered_bytes_ rb) in
  recv_cb (firstn (Z.to_nat n) (contents rb)) n w rb
  = Returns (true, w', rb) ->
  exists rb',
    read_cb NDEBUG rb length recv_cb w = Returns (n, rb', w')
    /\ store_facts rb'
    /\ buffer_ rb' = buffer_ rb
    /\ read_index_ rb' = Z.land (read_index_ rb) (index_mask rb) + n
    /\ buffered_bytes_ rb' = buffered_bytes_ rb - n
    /\ contents rb' = skipn (Z.to_nat n) (contents rb).
Proof.
  intros F Hlen Hb n Hcb.
  pose proof F as [Hcpos Hcmax Hpow Hmask Hrd Hwr Hcnt Hring Hint].
  pose proof (store_masked_range rb (read_index_ rb) F) as Ht.
  unfold read_cb.
  destruct (Z.eqb_spec length 0); [lia|].
  destruct (Z.eqb_spec (buffered_bytes_ rb) 0); [lia|].
  rewrite store_buffered_bytes_returns by exact F. cbn [bind]. fold n.
  pose proof (store_read_view rb n F) as Hview. cbv zeta in Hview.
  rewrite Hview by (unfold n; lia). cbn [bind].
  rewrite Hcb. cbn [bind buffered_bytes_].
  rewrite (to_uint32_small (buffered_bytes_ rb)) by lia.
  rewrite (to_uint32_small (buffered_bytes_ rb - n)) by (unfold n; lia).
  rewrite (to_int32_small (buffered_bytes_ rb - n)) by (unfold n; lia).
  rewrite (to_uint32_small (Z.land (read_index_ rb) (index_mask rb) + n))
    by (unfold n; lia).
  rewrite assert_holds by (unfold n; lia). cbn [bind].
  eexists. split; [reflexivity|].
  match goal with
  | |- store_facts ?r /\ _ /\ _ /\ _ /\ _ =>
    destruct (store_consume_facts rb r n F) as [F' Hc]
  end; cbn [buffer_ index_mask read_index_ write_index_ buffered_bytes_];
    try reflexivity; try (subst n; lia).
  - rewrite (store_masked_index rb _ F). apply Zplus_mod_idemp_l.
  - split; [exact F'|]. split; [reflexivity|]. split; [reflexivity|].
    split; [reflexivity|exact Hc].
Qed.

(** *** The same on well-formed ring buffers *)

Lemma consume_facts (rb rb' : RingBuffer) (n : Z) :
  ring_facts rb ->
  0 <= n <= buffered_bytes_ rb ->
  buffer_ rb' = buffer_ rb ->
  index_mask rb' = index_mask rb ->
  write_index_ rb' = write_index_ rb ->
  buffered_bytes_ rb' = buffered_bytes_ rb - n ->
  0 <= read_index_ rb' < 2 ^ 32 ->
  read_index_ rb' mod size (buffer_ rb)
    = (read_index_ rb + n) mod size (buffer_ rb) ->
  ring_facts rb' /\ contents rb' = skipn (Z.to_nat n) (contents rb).
Proof.
  intros F Hn Hbuf Hmask' Hwr' Hcnt' Hrd' Hidx.
  destruct (store_consume_facts rb rb' n (ring_is_store rb F)
              Hn Hbuf Hmask' Hwr' Hcnt' Hrd' Hidx) as [F' Hc].
  split; [|exact Hc].
  apply store_is_ring; [exact F'|]. rewrite Hbuf. apply (rf_cap_max _ F).
Qed.

Lemma oldest_flat (rb : RingBuffer) (n : Z) :
  ring_facts rb -> 0 <= n <= buffered_bytes_ rb ->
  let t := Z.land (read_index_ rb) (index_mask rb) in
  t + n <= size (buffer_ rb) ->
  firstn (Z.to_nat n) (skipn (Z.to_nat t) (buffer_ rb))
  = firstn (Z.to_nat n) (contents rb).
Proof. intros F. apply store_oldest_flat, ring_is_store, F. Qed.

Lemma oldest_wrapped (rb : RingBuffer) (n : Z) :
  ring_facts rb -> 0 <= n <= buffered_bytes_ rb ->
  let t := Z.land (read_index_ rb) (index_mask rb) in
  let left := size (buffer_ rb) - t in
  size (buffer_ rb) < t + n ->
  firstn (Z.to_nat left) (skipn (Z.to_nat t) (buffer_ rb))
    ++ firstn (Z.to_nat (n - left)) (skipn (Z.to_nat 0) (buffer_ rb))
  = firstn (Z.to_nat n) (contents rb).
Proof. intros F. apply store_oldest_wrapped, ring_is_store, F. Qed.

Lemma read_copy (rb : RingBuffer) (dst : list byte) (n : Z) :
  ring_facts rb -> 0 < n <= buffered_bytes_ rb -> n <= size dst ->
  let t := Z.land (read_index_ rb) (index_mask rb) in
  (if to_uint32 (t + n) >? capacity rb then
     let left := to_size_t (to_uint32 (capacity rb - t)) in
     d1 <- memcpy dst 0 (buffer_ rb) t left ;;
     memcpy d1 left (buffer_ rb) 0 (to_size_t (n - left))
   else memcpy dst 0 (buffer_ rb) t n)
  = Returns (firstn (Z.to_nat n) (contents rb) ++ skipn (Z.to_nat n) dst).
Proof. intros F. apply store_read_copy, ring_is_store, F. Qed.

Lemma read_returns (rb : RingBuffer) (dst : list byte) (length : Z) :
  ring_facts rb -> 0 <= length < 2 ^ 32 -> length <= size dst ->
  let n := Z.min length (buffered_bytes_ rb) in
  exists rb',
    read NDEBUG rb (Some dst) length
    = Returns (n, Some (firstn (Z.to_nat n) (contents rb)
                          ++ skipn (Z.to_nat n) dst), rb')
    /\ ring_facts rb'
    /\ buffer_ rb' = buffer_ rb
    /\ buffered_bytes_ rb' = buffered_bytes_ rb - n
    /\ contents rb' = skipn (Z.to_nat n) (contents rb).
Proof.
  intros F Hlen Hdst n.
  destruct (store_read_returns rb dst length (ring_is_store rb F) Hlen Hdst)
    as (rb' & Hrun & F' & Hbuf & Hcnt & Hc).
  exists rb'. split; [exact Hrun|]. split; [|auto].
  apply store_is_ring; [exact F'|]. rewrite Hbuf. apply (rf_cap_max _ F).
Qed.

(** The bytes shown to the callback of the zero-copy read. *)
Lemma read_view (rb : RingBuffer) (n : Z) :
  ring_facts rb -> 0 < n <= buffered_bytes_ rb ->
  let t := Z.land (read_index_ rb) (index_mask rb) in
  (if to_uint32 (t + n) >? capacity rb then
     let left := to_size_t (to_uint32 (capacity rb - t)) in
     let temp_buffer := repeat x00 (Z.to_nat n) in
     t1 <- memcpy temp_buffer 0 (buffer_ rb) t left ;;
     memcpy t1 left (buffer_ rb) 0 (to_size_t (n - left))
   else load (buffer_ rb) t n)
  = Returns (firstn (Z.to_nat n) (contents rb)).
Proof. intros F. apply store_read_view, ring_is_store, F. Qed.

(** The zero-copy read with a callback that does not call into the ring
    buffer. *)
Lemma read_cb_nothing {W : Type} (rb : RingBuffer) (length : Z)
    (recv_cb : list byte -> Z -> W -> bool * W) (w : W) :
  length = 0 \/ buffered_bytes_ rb = 0 ->
  read_cb NDEBUG rb length (no_reentry recv_cb) w = Returns (0, rb, w).
Proof. apply store_read_cb_nothing. Qed.

(** A callback that returns [false] leaves the ring buffer as it was. *)
Lemma read_cb_declined {W : Type} (rb : RingBuffer) (length : Z)
    (recv_cb : list byte -> Z -> W -> bool * W) (w w' : W) :
  ring_facts rb -> 0 < length < 2 ^ 32 -> 0 < buffered_bytes_ rb ->
  let n := Z.min length (buffered_bytes_ rb) in
  recv_cb (firstn (Z.to_nat n) (contents rb)) n w = (false, w') ->
  read_cb NDEBUG rb length (no_reentry recv_cb) w = Returns (0, rb, w').
Proof.
  intros F Hlen Hb n Hcb.
  apply store_read_cb_declined; [apply ring_is_store, F|exact Hlen|exact Hb|].
  fold n. unfold no_reentry. rewrite Hcb. reflexivity.
Qed.

(** A callback that returns [true] commits the read. *)
Lemma read_cb_accepted {W : Type} (rb : RingBuffer) (length : Z)
    (recv_cb : list byte -> Z -> W -> bool * W) (w w' : W) :
  ring_facts rb -> 0 < length < 2 ^ 32 -> 0 < buffered_bytes_ rb ->
  let n := Z.min length (buffered_bytes_ rb) in
  recv_cb (firstn (Z.to_nat n) (contents rb)) n w = (true, w') ->
  exists rb',
    read_cb NDEBUG rb length (no_reentry recv_cb) w = Returns (n, rb', w')
    /\ ring_facts rb'
    /\ buffer_ rb' = buffer_ rb
    /\ buffered_bytes_ rb' = buffered_bytes_ rb - n
    /\ contents rb' = skipn (Z.to_nat n) (contents rb).
Proof.
  intros F Hlen Hb n Hcb.
  destruct (store_read_cb_accepted rb length (no_reentry recv_cb) w w'
              (ring_is_store rb F) Hlen Hb)
    as (rb' & Hrun & F' & Hbuf & _ & Hcnt & Hc).
  { fold n. unfold no_reentry. rewrite Hcb. reflexivity. }
  exists rb'. split; [exact Hrun|]. split; [|auto].
  apply store_is_ring; [exact F'|]. rewrite Hbuf. apply (rf_cap_max _ F).
Qed.

Lemma drain_returns (rb : RingBuffer) (length : Z) :
  ring_facts rb -> 0 <= length < 2 ^ 32 ->
  let n := Z.min length (buffered_bytes_ rb) in
  exists rb',
    drain NDEBUG rb length = Returns rb'
    /\ ring_facts rb'
    /\ buffer_ rb' = buffer_ rb
    /\ buffered_bytes_ rb' = buffered_bytes_ rb - n
    /\ contents rb' = skipn (Z.to_nat n) (contents rb).
Proof.
  intros F Hlen n.
  pose proof F as [Hcpos Hcmax Hpow Hmask Hrd Hwr Hcnt Hring].
  pose proof (masked_range rb (read_index_ rb) F) as Ht.
  unfold drain.
  rewrite buffered_bytes_returns by exact F. cbn [bind buffered_bytes_]. fold n.
  rewrite (to_uint32_small (buffered_bytes_ rb)) by lia.
  rewrite (to_uint32_small (buffered_bytes_ rb - n)) by (unfold n; lia).
  rewrite (to_int32_small (buffered_bytes_ rb - n)) by (unfold n; lia).
  rewrite (to_uint32_small (Z.land (read_index_ rb) (index_mask rb) + n))
    by (unfold n; lia).
  rewrite assert_holds by (unfold n; lia). cbn [bind].
  eexists. split; [reflexivity|].
  pose proof (masked_range rb
    (Z.land (read_index_ rb) (index_mask rb) + n) F) as Ht'.
  match goal with
  | |- ring_facts ?r /\ _ /\ _ /\ _ =>
    destruct (consume_facts rb r n F) as [F' Hc]
  end; cbn [buffer_ index_mask read_index_ write_index_ buffered_bytes_];
    try reflexivity; try (subst n; lia).
  - rewrite !(masked_index rb _ F). rewrite Z.mod_mod by lia.
    apply Zplus_mod_idemp_l.
  - split; [exact F'|]. split; [reflexivity|]. split; [reflexivity|exact Hc].
Qed.

End RingBufferFacts.

(** ** Byte order *)

Lemma Z_of_byte_range (b : byte) : 0 <= Z_of_byte b < 256.
Proof.
  unfold Z_of_byte. pose proof (Byte.to_N_bounded b). lia.
Qed.

Lemma Z_of_byte_of_Z (z : Z) : Z_of_byte (byte_of_Z z) = z mod 256.
Proof.
  unfold Z_of_byte, byte_of_Z.
  pose proof (Z.mod_pos_bound z 256 ltac:(lia)) as Hr.
  destruct (Byte.of_N (Z.to_N (z mod 256))) as [b|] eqn:Hb.
  - apply Byte.to_of_N in Hb. rewrite Hb. lia.
  - apply Byte.of_N_None_iff in Hb. lia.
Qed.

Lemma byte_of_Z_of_byte (b : byte) : byte_of_Z (Z_of_byte b) = b.
Proof.
  pose proof (Z_of_byte_range b) as Hr.
  unfold byte_of_Z. rewrite Z.mod_small by exact Hr.
  unfold Z_of_byte. rewrite N2Z.id. rewrite Byte.of_to_N. reflexivity.
Qed.

Lemma length_encode_le (n : nat) (v : Z) : length (encode_le n v) = n.
Proof.
  revert v. induction n as [|n IH]; intros v; simpl; [reflexivity|].
  rewrite IH. reflexivity.
Qed.

Lemma decode_le_range (bytes : list byte) :
  0 <= decode_le bytes < 256 ^ Z.of_nat (length bytes).
Proof.
  induction bytes as [|b rest IH]; cbn [decode_le length].
  - simpl. lia.
  - pose proof (Z_of_byte_range b).
    rewrite Nat2Z.inj_succ, Z.pow_succ_r by lia. lia.
Qed.

(** Storing an integer in [n] bytes truncates it to [8 n] bits. *)
Lemma decode_encode_le (n : nat) (v : Z) :
  decode_le (encode_le n v) = v mod 256 ^ Z.of_nat n.
Proof.
  revert v. induction n as [|n IH]; intros v.
  - simpl. rewrite Z.mod_1_r. reflexivity.
  - cbn [encode_le decode_le].
    rewrite Z_of_byte_of_Z, IH.
    rewrite Nat2Z.inj_succ, Z.pow_succ_r by lia.
    rewrite Z.rem_mul_r; [reflexivity|lia|].
    apply Z.pow_pos_nonneg; lia.
Qed.

Lemma encode_decode_le (bytes : list byte) :
  encode_le (length bytes) (decode_le bytes) = bytes.
Proof.
  induction bytes as [|b rest IH]; cbn [encode_le decode_le length];
    [reflexivity|].
  pose proof (Z_of_byte_range b) as Hr.
  f_equal.
  - rewrite <- (byte_of_Z_of_byte b) at 2. unfold byte_of_Z.
    replace ((Z_of_byte b + 256 * decode_le rest) mod 256)
      with (Z_of_byte b mod 256); [reflexivity|].
    rewrite Z.mul_comm, Z_mod_plus_full. reflexivity.
  - replace ((Z_of_byte b + 256 * decode_le rest) / 256) with (decode_le rest);
      [exact IH|].
    rewrite Z.add_comm, Z.mul_comm, Z_div_plus_full_l by lia.
    rewrite Z.div_small by exact Hr. lia.
Qed.

Lemma length_encode_host (le : bool) (n : nat) (v : Z) :
  length (encode_host le n v) = n.
Proof.
  unfold encode_host, encode_be. destruct le.
  - apply length_encode_le.
  - rewrite length_rev. apply length_encode_le.
Qed.

Lemma decode_encode_host (le : bool) (n : nat) (v : Z) :
  decode_host le (encode_host le n v) = v mod 256 ^ Z.of_nat n.
Proof.
  unfold decode_host, encode_host, decode_be, encode_be. destruct le.
  - apply decode_encode_le.
  - rewrite rev_involutive. apply decode_encode_le.
Qed.

Lemma encode_decode_host (le : bool) (bytes : list byte) :
  encode_host le (length bytes) (decode_host le bytes) = bytes.
Proof.
  unfold decode_host, encode_host, decode_be, encode_be. destruct le.
  - apply encode_decode_le.
  - rewrite <- (length_rev bytes). rewrite encode_decode_le.
    apply rev_involutive.
Qed.

Lemma decode_be_range (bytes : list byte) :
  0 <= decode_be bytes < 256 ^ Z.of_nat (length bytes).
Proof.
  unfold decode_be. rewrite <- (length_rev bytes). apply decode_le_range.
Qed.

(** On a big-endian host [ntohl] and [ntohs] change nothing; on a
    little-endian host they reverse the bytes. *)
Lemma ntohl_big_endian (v : Z) : 0 <= v < 2 ^ 32 -> ntohl false v = v.
Proof.
  intros H. unfold ntohl, encode_host, decode_be, encode_be.
  rewrite rev_involutive, decode_encode_le. apply Z.mod_small. exact H.
Qed.

Lemma ntohs_big_endian (v : Z) : 0 <= v < 2 ^ 16 -> ntohs false v = v.
Proof.
  intros H. unfold ntohs, encode_host, decode_be, encode_be.
  rewrite rev_involutive, decode_encode_le. apply Z.mod_small. exact H.
Qed.

Lemma ntohl_little_endian (b0 b1 b2 b3 : byte) :
  ntohl true (decode_le [b0; b1; b2; b3]) = decode_le [b3; b2; b1; b0].
Proof.
  unfold ntohl, encode_host, decode_be.
  change 4%nat with (length [b0; b1; b2; b3]).
  rewrite encode_decode_le. reflexivity.
Qed.

(** ** The header object *)

Section HeaderFacts.

Variable little_endian : bool.
Context {PH : ProtoHeader}.

Lemma header_shape :
  0 <= body_length_offset /\ 0 < body_length_size <= 4
  /\ body_length_offset + body_length_size <= protocol_header_length
  /\ 2 <= protocol_header_length < 2 ^ 32.
Proof.
  pose proof body_length_type. pose proof body_length_inside.
  pose proof protocol_header_fits. lia.
Qed.

Lemma size_encode_host (n : nat) (v : Z) :
  size (encode_host little_endian n v) = Z.of_nat n.
Proof. unfold size. rewrite length_encode_host. reflexivity. Qed.

Lemma size_body_length_field (header : list byte) :
  body_length_offset + body_length_size <= size header ->
  size (body_length_field header) = body_length_size.
Proof.
  intros H. pose proof header_shape. unfold body_length_field.
  apply size_slice; lia.
Qed.

Lemma body_length_range (header : list byte) :
  0 <= body_length little_endian header < 2 ^ 32.
Proof.
  pose proof header_shape as Hs.
  unfold body_length, decode_host.
  set (field := body_length_field header).
  assert (Hlen : (length field <= 4)%nat).
  { unfold field, body_length_field. rewrite length_firstn. lia. }
  assert (Hpow : 256 ^ Z.of_nat (length field) <= 2 ^ 32).
  { change (2 ^ 32) with (256 ^ 4). apply Z.pow_le_mono_r; lia. }
  destruct little_endian.
  - pose proof (decode_le_range field). lia.
  - pose proof (decode_be_range field). lia.
Qed.

Lemma size_set_body_length (header : list byte) (v : Z) :
  body_length_offset + body_length_size <= size header ->
  size (set_body_length little_endian header v) = size header.
Proof.
  intros H. pose proof header_shape as Hs. unfold set_body_length.
  rewrite !size_app, size_firstn, size_skipn, size_encode_host by lia. lia.
Qed.

Lemma body_length_field_set (header : list byte) (v : Z) :
  body_length_offset + body_length_size <= size header ->
  body_length_field (set_body_length little_endian header v)
  = encode_host little_endian (Z.to_nat body_length_size) v.
Proof.
  intros H. pose proof header_shape as Hs.
  unfold body_length_field, set_body_length.
  assert (Hfront : length (firstn (Z.to_nat body_length_offset) header)
                   = Z.to_nat body_length_offset).
  { rewrite length_firstn. unfold size in H. lia. }
  rewrite skipn_app, Hfront, Nat.sub_diag.
  rewrite skipn_all2 by lia. cbn [skipn app].
  rewrite firstn_app, length_encode_host, Nat.sub_diag. cbn [firstn].
  rewrite app_nil_r. apply firstn_all2. rewrite length_encode_host. lia.
Qed.

Lemma body_length_set (header : list byte) (v : Z) :
  body_length_offset + body_length_size <= size header ->
  body_length little_endian (set_body_length little_endian header v)
  = v mod 256 ^ body_length_size.
Proof.
  intros H. pose proof header_shape as Hs. unfold body_length.
  rewrite body_length_field_set by exact H.
  rewrite decode_encode_host. rewrite Z2Nat.id by lia. reflexivity.
Qed.

(** The conversion stores the big-endian reading of the field's bytes,
    whatever the byte order of the host. *)
Lemma DoBytesOrderConversion_spec (header : list byte) :
  body_length_offset + body_length_size <= size header ->
  DoBytesOrderConversion little_endian header
  = set_body_length little_endian header
      (decode_be (body_length_field header)).
Proof.
  intros H. pose proof header_shape as Hs.
  pose proof (size_body_length_field header H) as Hf.
  unfold DoBytesOrderConversion, ntohs, ntohl, body_length.
  destruct body_length_type as [Hw|Hw]; rewrite Hw in *; cbn [Z.eqb Pos.eqb].
  - change 2%nat with (Z.to_nat 2). rewrite <- Hf. unfold size.
    rewrite Nat2Z.id, encode_decode_host. reflexivity.
  - change 4%nat with (Z.to_nat 4). rewrite <- Hf. unfold size.
    rewrite Nat2Z.id, encode_decode_host. reflexivity.
Qed.

Lemma size_DoBytesOrderConversion (header : list byte) :
  body_length_offset + body_length_size <= size header ->
  size (DoBytesOrderConversion little_endian header) = size header.
Proof.
  intros H. rewrite DoBytesOrderConversion_spec by exact H.
  apply size_set_body_length. exact H.
Qed.

Lemma body_length_converted (header : list byte) :
  body_length_offset + body_length_size <= size header ->
  body_length little_endian (DoBytesOrderConversion little_endian header)
  = decode_be (body_length_field header).
Proof.
  intros H. pose proof header_shape as Hs.
  rewrite DoBytesOrderConversion_spec by exact H.
  rewrite body_length_set by exact H.
  pose proof (decode_be_range (body_length_field header)) as Hr.
  pose proof (size_body_length_field header H) as Hf. unfold size in Hf.
  rewrite Hf in Hr. apply Z.mod_small. exact Hr.
Qed.

End HeaderFacts.

(** ** One transition of the parser *)

Section StreamingParserFacts.

Variable NDEBUG : bool.
Variable little_endian : bool.
Context {PH : ProtoHeader}.
Variable W : Type.
Variable header_handler_ : list byte -> W -> bool * W.
Variable body_handler_ : list byte -> Z -> W -> bool * W.

Local Abbreviation transition :=
  (PerformStreamingParse NDEBUG little_endian header_handler_ body_handler_).
Local Abbreviation loop :=
  (parse_loop NDEBUG little_endian header_handler_ body_handler_).
Local Abbreviation handle :=
  (HandleData NDEBUG little_endian header_handler_ body_handler_).

Lemma parser_ok_facts (p : StreamingParser W) :
  parser_ok p = true <->
  ring_facts (recv_buffer_ p)
  /\ size (current_header_ p) = protocol_header_length.
Proof.
  unfold parser_ok. rewrite andb_true_iff, well_formed_facts, Z.eqb_eq.
  reflexivity.
Qed.

(** State [READ_HEADER] with a whole header buffered. *)
Lemma header_step (p : StreamingParser W) :
  parser_ok p = true ->
  recv_state_ p = READ_HEADER ->
  protocol_header_length <= buffered_bytes_ (recv_buffer_ p) ->
  let wire := firstn (Z.to_nat protocol_header_length)
                (contents (recv_buffer_ p)) in
  let header := DoBytesOrderConversion little_endian wire in
  exists rb',
    transition p
    = Returns (false,
               {| recv_state_ := READ_BODY;
                  current_header_ := header;
                  recv_buffer_ := rb';
                  world := snd (header_handler_ header (world p));
                  calls := calls p ++ [HeaderCall header] |})
    /\ ring_facts rb'
    /\ buffer_ rb' = buffer_ (recv_buffer_ p)
    /\ buffered_bytes_ rb'
       = buffered_bytes_ (recv_buffer_ p) - protocol_header_length
    /\ contents rb'
       = skipn (Z.to_nat protocol_header_length) (contents (recv_buffer_ p)).
Proof.
  intros Hok Hstate Henough wire header.
  apply parser_ok_facts in Hok as [F Hhdr].
  pose proof header_shape as Hs.
  unfold PerformStreamingParse. rewrite Hstate.
  rewrite buffered_bytes_returns by exact F. cbn [bind].
  destruct (Z.geb_spec (buffered_bytes_ (recv_buffer_ p)) protocol_header_length);
    [|lia].
  destruct (read_returns NDEBUG (recv_buffer_ p) (current_header_ p)
              protocol_header_length F) as (rb' & Hread & F' & Hbuf & Hcnt & Hcont);
    [lia|lia|].
  rewrite Z.min_l in Hread, Hcnt, Hcont by lia.
  rewrite skipn_all2, app_nil_r in Hread by (unfold size in Hhdr; lia).
  rewrite Hread. cbn [bind]. fold wire. fold header.
  exists rb'. split; [|auto].
  destruct (header_handler_ header (world p)) as [ok w']. reflexivity.
Qed.

(** State [READ_BODY] with a zero body length: the assertion. *)
Lemma body_step_asserts (p : StreamingParser W) :
  NDEBUG = false ->
  recv_state_ p = READ_BODY ->
  body_length little_endian (current_header_ p) = 0 ->
  transition p = Aborts.
Proof.
  intros Hdbg Hstate Hzero.
  unfold PerformStreamingParse. rewrite Hstate, Hzero.
  unfold assert_. rewrite Hdbg. reflexivity.
Qed.

(** The same state without assertions: [read] returns before it calls the
    callback, and the parser goes back to [READ_HEADER]. *)
Lemma body_step_empty (p : StreamingParser W) :
  NDEBUG = true ->
  parser_ok p = true ->
  recv_state_ p = READ_BODY ->
  body_length little_endian (current_header_ p) = 0 ->
  transition p
  = Returns (false,
             {| recv_state_ := READ_HEADER;
                current_header_ :=
                  set_body_length little_endian (current_header_ p) 0;
                recv_buffer_ := recv_buffer_ p;
                world := world p;
                calls := calls p |}).
Proof.
  intros Hrel Hok Hstate Hzero.
  apply parser_ok_facts in Hok as [F Hhdr].
  pose proof (rf_count _ F) as Hcnt.
  unfold PerformStreamingParse. rewrite Hstate, Hzero.
  unfold assert_ at 1. rewrite Hrel. cbn [orb bind].
  rewrite buffered_bytes_returns by exact F. cbn [bind].
  destruct (Z.geb_spec (buffered_bytes_ (recv_buffer_ p)) 0); [|lia].
  rewrite read_cb_nothing by (left; reflexivity). reflexivity.
Qed.

(** State [READ_BODY] with a whole body buffered: what the body handler
    is shown, and what happens to the state. *)
Lemma body_step (p : StreamingParser W) :
  parser_ok p = true ->
  recv_state_ p = READ_BODY ->
  let n := body_length little_endian (current_header_ p) in
  0 < n <= buffered_bytes_ (recv_buffer_ p) ->
  let view := firstn (Z.to_nat n) (contents (recv_buffer_ p)) in
  let verdict := body_handler_ view n (world p) in
  exists rb',
    transition p
    = Returns (false,
               {| recv_state_ := READ_HEADER;
                  current_header_ :=
                    set_body_length little_endian (current_header_ p) 0;
                  recv_buffer_ := rb';
                  world := snd verdict;
                  calls := calls p ++ [BodyCall view n] |})
    /\ ring_facts rb'
    /\ buffer_ rb' = buffer_ (recv_buffer_ p)
    /\ (if fst verdict
        then buffered_bytes_ rb' = buffered_bytes_ (recv_buffer_ p) - n
             /\ contents rb' = skipn (Z.to_nat n) (contents (recv_buffer_ p))
        else rb' = recv_buffer_ p).
Proof.
  intros Hok Hstate n Hn view verdict.
  apply parser_ok_facts in Hok as [F Hhdr].
  pose proof (body_length_range little_endian (current_header_ p)) as Hr.
  fold n in Hr.
  unfold PerformStreamingParse. rewrite Hstate. fold n.
  rewrite assert_holds by lia. cbn [bind].
  rewrite buffered_bytes_returns by exact F. cbn [bind].
  destruct (Z.geb_spec (buffered_bytes_ (recv_buffer_ p)) n); [|lia].
  assert (Hmin : Z.min n (buffered_bytes_ (recv_buffer_ p)) = n) by lia.
  assert (Hcb : body_callback body_handler_ view n (world p, calls p)
                = (fst verdict, (snd verdict, calls p ++ [BodyCall view n]))).
  { unfold body_callback. cbn [fst snd]. fold verdict.
    destruct verdict. reflexivity. }
  destruct (fst verdict) eqn:Hv.
  - destruct (read_cb_accepted NDEBUG (recv_buffer_ p) n
                (body_callback body_handler_) (world p, calls p)
                (snd verdict, calls p ++ [BodyCall view n]) F)
      as (rb' & Hread & F' & Hbuf & Hcnt & Hcont);
      [lia|lia|rewrite Hmin; exact Hcb|].
    rewrite Hmin in Hread, Hcnt, Hcont.
    rewrite Hread. cbn [bind fst snd].
    exists rb'. auto.
  - rewrite (read_cb_declined NDEBUG (recv_buffer_ p) n
               (body_callback body_handler_) (world p, calls p)
               (snd verdict, calls p ++ [BodyCall view n]) F);
      [|lia|lia|rewrite Hmin; exact Hcb].
    cbn [bind fst snd].
    exists (recv_buffer_ p). auto.
Qed.

(** ** The loop of [HandleData] *)

Lemma loop_condition_returns (p : StreamingParser W) :
  parser_ok p = true ->
  loop_condition NDEBUG little_endian p
  = Returns (match recv_state_ p with
             | READ_HEADER =>
               buffered_bytes_ (recv_buffer_ p) >=? protocol_header_length
             | READ_BODY =>
               buffered_bytes_ (recv_buffer_ p)
                 >=? body_length little_endian (current_header_ p)
             end).
Proof.
  intros Hok. apply parser_ok_facts in Hok as [F _].
  unfold loop_condition.
  destruct (recv_state_ p); rewrite buffered_bytes_returns by exact F;
    reflexivity.
Qed.

Lemma loop_waits (fuel : nat) (p : StreamingParser W) :
  parser_ok p = true ->
  match recv_state_ p with
  | READ_HEADER => buffered_bytes_ (recv_buffer_ p) < protocol_header_length
  | READ_BODY => buffered_bytes_ (recv_buffer_ p)
                 < body_length little_endian (current_header_ p)
  end ->
  loop (S fuel) p = Returns p.
Proof.
  intros Hok Hshort. cbn [parse_loop].
  rewrite loop_condition_returns by exact Hok. cbn [bind].
  destruct (recv_state_ p);
    match goal with
    | |- context [?a >=? ?b] => destruct (Z.geb_spec a b); [lia|reflexivity]
    end.
Qed.

Lemma loop_advances (fuel : nat) (p p' : StreamingParser W) :
  parser_ok p = true ->
  match recv_state_ p with
  | READ_HEADER => protocol_header_length <= buffered_bytes_ (recv_buffer_ p)
  | READ_BODY => body_length little_endian (current_header_ p)
                 <= buffered_bytes_ (recv_buffer_ p)
  end ->
  transition p = Returns (false, p') ->
  loop (S fuel) p = loop fuel p'.
Proof.
  intros Hok Hready Hstep. cbn [parse_loop].
  rewrite loop_condition_returns by exact Hok. cbn [bind].
  destruct (recv_state_ p);
    match goal with
    | |- context [?a >=? ?b] => destruct (Z.geb_spec a b); [|lia]
    end; rewrite Hstep; reflexivity.
Qed.

Lemma loop_aborts (fuel : nat) (p : StreamingParser W) :
  parser_ok p = true ->
  NDEBUG = false ->
  recv_state_ p = READ_BODY ->
  body_length little_endian (current_header_ p) = 0 ->
  loop (S fuel) p = Aborts.
Proof.
  intros Hok Hdbg Hstate Hzero. cbn [parse_loop].
  pose proof Hok as Hok'. apply parser_ok_facts in Hok' as [F _].
  pose proof (rf_count _ F).
  rewrite loop_condition_returns by exact Hok. cbn [bind].
  rewrite Hstate, Hzero.
  destruct (Z.geb_spec (buffered_bytes_ (recv_buffer_ p)) 0); [|lia].
  rewrite body_step_asserts by assumption. reflexivity.
Qed.

(** The loop ends within its budget.  It returns a well-formed parser
    over the same storage, or, in a build with assertions, it aborts. *)
Lemma loop_total (fuel : nat) :
  forall p : StreamingParser W,
    parser_ok p = true ->
    (2 * Z.to_nat (buffered_bytes_ (recv_buffer_ p))
     + match recv_state_ p with READ_HEADER => 0 | READ_BODY => 1 end
     < fuel)%nat ->
    (exists p',
        loop fuel p = Returns p'
        /\ parser_ok p' = true
        /\ size (buffer_ (recv_buffer_ p')) = size (buffer_ (recv_buffer_ p))
        /\ buffered_bytes_ (recv_buffer_ p')
           <= buffered_bytes_ (recv_buffer_ p))
    \/ (NDEBUG = false /\ loop fuel p = Aborts).
Proof.
  induction fuel as [|fuel IH]; intros p Hok Hfuel; [lia|].
  pose proof Hok as Hok'. apply parser_ok_facts in Hok' as [F Hhdr].
  pose proof (rf_count _ F) as Hcnt.
  pose proof header_shape as Hs.
  destruct (recv_state_ p) eqn:Hstate.
  - (* READ_HEADER *)
    destruct (Z.lt_ge_cases (buffered_bytes_ (recv_buffer_ p))
                protocol_header_length) as [Hshort|Hready].
    + left. exists p. rewrite loop_waits by (rewrite ?Hstate; assumption).
      repeat split; try assumption; lia.
    + destruct (header_step p Hok Hstate) as (rb' & Hstep & F' & Hbuf & Hcnt' & _);
        [lia|].
      rewrite (loop_advances fuel p _ Hok) by (rewrite ?Hstate; eassumption).
      match goal with
      | |- context [loop fuel ?q] =>
        destruct (IH q) as [(p' & Hrun & Hok1 & Hsz & Hle)|[Hdbg Hrun]]
      end.
      * apply parser_ok_facts. cbn [recv_buffer_ current_header_].
        split; [exact F'|].
        rewrite size_DoBytesOrderConversion;
          rewrite size_firstn; rewrite ?size_contents; lia.
      * cbn [recv_buffer_ recv_state_]. lia.
      * left. exists p'. cbn [recv_buffer_] in Hsz, Hle.
        rewrite Hbuf in Hsz. repeat split; try assumption; lia.
      * right. split; assumption.
  - (* READ_BODY *)
    set (n := body_length little_endian (current_header_ p)) in *.
    pose proof (body_length_range little_endian (current_header_ p)) as Hn.
    fold n in Hn.
    assert (Hhdr0 : size (set_body_length little_endian (current_header_ p) 0)
                    = protocol_header_length).
    { rewrite size_set_body_length; lia. }
    destruct (Z.lt_ge_cases (buffered_bytes_ (recv_buffer_ p)) n)
      as [Hshort|Hready].
    + left. exists p. rewrite loop_waits by (rewrite ?Hstate; assumption).
      repeat split; try assumption; lia.
    + destruct (Z.eq_dec n 0) as [Hzero|Hpos].
      * destruct (bool_dec NDEBUG true) as [Hbuild|Hbuild].
        -- pose proof (body_step_empty p Hbuild Hok Hstate Hzero) as Hstep.
           rewrite (loop_advances fuel p _ Hok)
             by (rewrite ?Hstate; fold n; eassumption).
           match goal with
           | |- context [loop fuel ?q] =>
             destruct (IH q) as [(p' & Hrun & Hok1 & Hsz & Hle)|[Hdbg Hrun]]
           end.
           ++ apply parser_ok_facts. cbn [recv_buffer_ current_header_].
              split; assumption.
           ++ cbn [recv_buffer_ recv_state_]. lia.
           ++ left. exists p'. cbn [recv_buffer_] in Hsz, Hle.
              repeat split; try assumption; lia.
           ++ congruence.
        -- apply not_true_is_false in Hbuild. right. split; [exact Hbuild|].
           apply loop_aborts; assumption.
      * destruct (body_step p Hok Hstate) as (rb' & Hstep & F' & Hbuf & Hcase);
          [fold n; lia|]. fold n in Hstep, Hcase.
        rewrite (loop_advances fuel p _ Hok)
          by (rewrite ?Hstate; fold n; eassumption).
        assert (Hle' : buffered_bytes_ rb' <= buffered_bytes_ (recv_buffer_ p)).
        { destruct (fst (body_handler_ _ n (world p)));
            [destruct Hcase as [-> _]; lia|rewrite Hcase; lia]. }
        match goal with
        | |- context [loop fuel ?q] =>
          destruct (IH q) as [(p' & Hrun & Hok1 & Hsz & Hle)|[Hdbg Hrun]]
        end.
        -- apply parser_ok_facts. cbn [recv_buffer_ current_header_].
           split; assumption.
        -- cbn [recv_buffer_ recv_state_]. lia.
        -- left. exists p'. cbn [recv_buffer_] in Hsz, Hle.
           rewrite Hbuf in Hsz. repeat split; try assumption; lia.
        -- right. split; assumption.
Qed.

(** ** [HandleData] *)

(** The parser [p] with another ring buffer. *)
Local Abbreviation with_buffer p rb :=
  {| recv_state_ := recv_state_ p;
     current_header_ := current_header_ p;
     recv_buffer_ := rb;
     world := world p;
     calls := calls p |}.

Lemma with_own_buffer (p : StreamingParser W) :
  with_buffer p (recv_buffer_ p) = p.
Proof. destruct p. reflexivity. Qed.

(** [HandleData] returns [false] exactly when [write] reports the
    overflow. *)
Lemma HandleData_false_iff (p p' : StreamingParser W)
    (data : option (list byte)) (length : Z) :
  handle p data length = Returns (false, p') <->
  exists rb',
    write NDEBUG (recv_buffer_ p) data length = Returns (ErrBufferOverflow, rb')
    /\ p' = with_buffer p rb'.
Proof.
  unfold HandleData. split.
  - destruct (write NDEBUG (recv_buffer_ p) data length) as [[err rb']| | |];
      cbn [bind]; try discriminate.
    destruct err; cbn [error_code_eqb].
    + destruct (loop _ _); cbn [bind]; discriminate.
    + intros H. injection H as <-. exists rb'. split; reflexivity.
    + destruct (loop _ _); cbn [bind]; discriminate.
  - intros (rb' & Hw & ->). rewrite Hw. reflexivity.
Qed.

(** A chunk that fits is appended to the buffered bytes, and then the
    loop runs. *)
Lemma HandleData_takes_chunk (p : StreamingParser W) (chunk : list byte) :
  parser_ok p = true ->
  buffered_bytes_ (recv_buffer_ p) + size chunk
    <= size (buffer_ (recv_buffer_ p)) ->
  exists rb1,
    ring_facts rb1
    /\ size (buffer_ rb1) = size (buffer_ (recv_buffer_ p))
    /\ buffered_bytes_ rb1 = buffered_bytes_ (recv_buffer_ p) + size chunk
    /\ contents rb1 = contents (recv_buffer_ p) ++ chunk
    /\ handle p (Some chunk) (size chunk)
       = (p2 <- loop (loop_budget rb1) (with_buffer p rb1) ;;
          Returns (true, p2)).
Proof.
  intros Hok Hfit. apply parser_ok_facts in Hok as [F Hhdr].
  pose proof (size_nonneg chunk) as Hsz.
  destruct (Z.eq_dec (size chunk) 0) as [Hempty|Hsome].
  - exists (recv_buffer_ p).
    assert (chunk = []) as ->.
    { destruct chunk; [reflexivity|]. unfold size in Hempty. simpl in Hempty. lia. }
    rewrite app_nil_r. change (size []) with 0.
    split; [exact F|]. split; [reflexivity|]. split; [lia|].
    split; [reflexivity|].
    unfold HandleData. rewrite write_invalid by (right; reflexivity).
    reflexivity.
  - destruct (write_accepts NDEBUG (recv_buffer_ p) chunk (size chunk) F)
      as (rb1 & Hw & F1 & Hsize & Hcnt & Hcont); [lia|lia|lia|].
    exists rb1. unfold size in Hcont at 1. rewrite Nat2Z.id, firstn_all in Hcont.
    split; [exact F1|]. split; [exact Hsize|]. split; [exact Hcnt|].
    split; [exact Hcont|].
    unfold HandleData. rewrite Hw. reflexivity.
Qed.

(** [HandleData] returns, unless an assertion stops it. *)
Lemma HandleData_total (p : StreamingParser W)
    (data : option (list byte)) (length : Z) :
  parser_ok p = true ->
  valid_span data length = true ->
  buffered_bytes_ (recv_buffer_ p) + length < 2 ^ 32 ->
  (exists r p',
      handle p data length = Returns (r, p')
      /\ parser_ok p' = true
      /\ size (buffer_ (recv_buffer_ p')) = size (buffer_ (recv_buffer_ p)))
  \/ (NDEBUG = false /\ handle p data length = Aborts).
Proof.
  intros Hok Hspan Hsum.
  pose proof Hok as Hok'. apply parser_ok_facts in Hok' as [F Hhdr].
  pose proof (rf_count _ F) as Hcnt.
  unfold valid_span in Hspan.
  apply andb_prop in Hspan as [Hspan Hsrc].
  apply andb_prop in Hspan as [Hlo Hhi].
  assert (Hrun : forall rb1,
             ring_facts rb1 ->
             size (buffer_ rb1) = size (buffer_ (recv_buffer_ p)) ->
             (exists p',
                 loop (loop_budget rb1) (with_buffer p rb1) = Returns p'
                 /\ parser_ok p' = true
                 /\ size (buffer_ (recv_buffer_ p'))
                    = size (buffer_ (recv_buffer_ p)))
             \/ (NDEBUG = false
                 /\ loop (loop_budget rb1) (with_buffer p rb1) = Aborts)).
  { intros rb1 F1 Hsize.
    destruct (loop_total (loop_budget rb1) (with_buffer p rb1))
      as [(p' & Hl & Hok1 & Hsz & _)|[Hdbg Hl]].
    - apply parser_ok_facts. cbn [recv_buffer_ current_header_].
      split; assumption.
    - cbn [recv_buffer_ recv_state_]. unfold loop_budget.
      destruct (recv_state_ p); lia.
    - left. exists p'. cbn [recv_buffer_] in Hsz.
      repeat split; try assumption. lia.
    - right. split; assumption. }
  assert (Hnone : data = None \/ length = 0 ->
             (exists r p',
                 handle p data length = Returns (r, p')
                 /\ parser_ok p' = true
                 /\ size (buffer_ (recv_buffer_ p'))
                    = size (buffer_ (recv_buffer_ p)))
             \/ (NDEBUG = false /\ handle p data length = Aborts)).
  { intros Hinv. unfold HandleData. rewrite write_invalid by exact Hinv.
    cbn [bind error_code_eqb].
    destruct (Hrun (recv_buffer_ p) F eq_refl) as [(p' & Hl & Hok1 & Hsz)|[Hdbg Hl]];
      rewrite Hl; cbn [bind].
    - left. exists true, p'. repeat split; assumption.
    - right. split; [assumption|reflexivity]. }
  destruct data as [src|]; [|apply Hnone; left; reflexivity].
  destruct (Z.eq_dec length 0) as [Hz|Hnz]; [apply Hnone; right; exact Hz|].
  destruct (Z.le_gt_cases (buffered_bytes_ (recv_buffer_ p) + length)
              (size (buffer_ (recv_buffer_ p)))) as [Hfit|Hover].
  - destruct (write_accepts NDEBUG (recv_buffer_ p) src length F)
      as (rb1 & Hw & F1 & Hsize & _); [lia|lia|lia|].
    unfold HandleData. rewrite Hw. cbn [bind error_code_eqb].
    destruct (Hrun rb1 F1 Hsize) as [(p' & Hl & Hok1 & Hsz)|[Hdbg Hl]];
      rewrite Hl; cbn [bind].
    + left. exists true, p'. repeat split; assumption.
    + right. split; [assumption|reflexivity].
  - left. exists false, p.
    unfold HandleData. rewrite write_rejects by (try assumption; lia).
    cbn [bind error_code_eqb]. rewrite with_own_buffer.
    repeat split; assumption.
Qed.

End StreamingParserFacts.

(** * Properties of the specification *)

(** ** C3: the length check of [write] *)

Lemma ring16_one_reached (NDEBUG : bool) :
  (rb <- RingBuffer_new NDEBUG 16 ;;
   '(_, rb1) <- write NDEBUG rb (Some [x5a]) 1 ;;
   Returns rb1) = Returns ring16_one.
Proof. destruct NDEBUG; vm_compute; reflexivity. Qed.

(** C3, at the input where the code departs from the claim.  A ring buffer
    of capacity 16 holds one byte, so 15 bytes are free.  A write of
    4294967295 bytes exceeds the free space, but the sum
    [buffered_bytes() + length] wraps to 0 at 32 bits, the comparison with
    the capacity fails to notice, and the call goes on to copy out of
    range instead of returning [ErrBufferOverflow]. *)
Theorem write_length_check_wraps (NDEBUG : bool) (src : list byte) :
  well_formed ring16_one = true
  /\ capacity ring16_one - buffered_bytes_ ring16_one < 4294967295
  /\ write NDEBUG ring16_one (Some src) 4294967295 = OutOfRange.
Proof.
  split; [reflexivity|]. split; [reflexivity|].
  unfold write.
  change (4294967295 =? 0) with false. cbv iota.
  assert (Hbb : buffered_bytes NDEBUG ring16_one = Returns 1)
    by (destruct NDEBUG; reflexivity).
  rewrite Hbb. cbn [bind].
  change (to_uint32 (1 + 4294967295) >? capacity ring16_one) with false.
  cbv iota zeta.
  change (Z.land (write_index_ ring16_one) (index_mask ring16_one)) with 1.
  change (to_uint32 (1 + 4294967295) >? capacity ring16_one) with false.
  cbv iota. unfold memcpy.
  destruct (load src 0 4294967295) as [bytes| | |] eqn:Hload;
    cbn [bind]; try reflexivity.
  - apply load_size in Hload as (_ & Hsize & _).
    unfold store. rewrite Hsize.
    change (size (buffer_ ring16_one)) with 16. reflexivity.
  - unfold load in Hload.
    destruct ((0 <=? 0) && (0 <=? 4294967295) && (0 + 4294967295 <=? size src));
      discriminate.
  - unfold load in Hload.
    destruct ((0 <=? 0) && (0 <=? 4294967295) && (0 + 4294967295 <=? size src));
      discriminate.
Qed.

(** ** C4: the zero-copy read commits only when the consumer accepts *)

(** C4, where it fails.  The consumer runs with the lock released and
    may call into the ring buffer.  On the eight-byte buffer that holds
    1, 2, 3, 4, a consumer is shown 1, 2, 3, drains one byte and returns
    [false]: the read returns 0, yet the count has gone from 4 to 3 and a
    later read of the same length yields 2, 3, 4.  (A consumer that
    drains two bytes and returns [true] has the read commit the three
    bytes it counted before the call against the two that are left: the
    assertion stops the call.) *)
Lemma read_cb_consumer_changes_store :
  well_formed ring8_wrapped = true
  /\ firstn 3 (contents ring8_wrapped) = [x01; x02; x03]
  /\ buffered_bytes_ ring8_wrapped = 4
  /\ (exists rb',
        read_cb false ring8_wrapped 3 (drains false 1 false) tt
        = Returns (0, rb', tt)
        /\ buffered_bytes_ rb' = 3
        /\ exists rb2,
             read false rb' (Some (repeat x00 3)) 3
             = Returns (3, Some [x02; x03; x04], rb2))
  /\ read_cb false ring8_wrapped 3 (drains false 2 true) tt = Aborts.
Proof.
  split; [reflexivity|]. split; [reflexivity|]. split; [reflexivity|].
  split; [|vm_compute; reflexivity].
  eexists. split; [vm_compute; reflexivity|].
  split; [reflexivity|].
  eexists. vm_compute. reflexivity.
Qed.

(** C4, as the code has it.  The ring buffer is in any state that the
    constructor and the operations produce while the counter has not
    overflowed (capacity 2^31 included), and the consumer leaves the ring
    buffer as it is while it runs.  Then the zero-copy read returns.
    With nothing to read the consumer is not called and nothing changes.
    Otherwise the consumer is shown the [n = min (length, buffered)]
    oldest bytes.  If it returns [true] the read is committed: the call
    returns [n], the read index moves on by [n], the count drops by [n]
    and the bytes shown are gone from the buffer.  If it returns [false]
    the call returns 0, the ring buffer is exactly as before, and a later
    [read] or zero-copy read of the same length produces the very same
    bytes. *)
Theorem read_cb_commits_iff_accepted {W : Type} (NDEBUG : bool)
    (rb : RingBuffer) (length : Z)
    (recv_cb : list byte -> Z -> W -> RingBuffer
               -> outcome (bool * W * RingBuffer))
    (w w' : W) (ok : bool) :
  store_ok rb = true ->
  0 <= length < 2 ^ 32 ->
  let n := Z.min length (buffered_bytes_ rb) in
  let view := firstn (Z.to_nat n) (contents rb) in
  (0 < n -> recv_cb view n w rb = Returns (ok, w', rb)) ->
  exists r rb',
    read_cb NDEBUG rb length recv_cb w
    = Returns (r, rb', if n =? 0 then w else w')
    /\ ((n = 0 /\ r = 0 /\ rb' = rb)
        \/ (0 < n /\ ok = true
            /\ r = n
            /\ store_ok rb' = true
            /\ capacity rb' = capacity rb
            /\ read_index_ rb' = Z.land (read_index_ rb) (index_mask rb) + n
            /\ buffered_bytes_ rb' = buffered_bytes_ rb - n
            /\ contents rb' = skipn (Z.to_nat n) (contents rb))
        \/ (0 < n /\ ok = false
            /\ r = 0
            /\ rb' = rb
            /\ (forall dst, length <= size dst ->
                  exists rb2,
                    read NDEBUG rb' (Some dst) length
                    = Returns (n, Some (view ++ skipn (Z.to_nat n) dst), rb2))
            /\ (forall (recv_cb2 : list byte -> Z -> W -> RingBuffer
                                   -> outcome (bool * W * RingBuffer))
                       (w2 w2' : W) (ok2 : bool),
                  recv_cb2 view n w2 rb' = Returns (ok2, w2', rb') ->
                  exists r2 rb2,
                    read_cb NDEBUG rb' length recv_cb2 w2
                    = Returns (r2, rb2, w2')
                    /\ r2 = if ok2 then n else 0))).
Proof.
  intros Hok Hlen n view Hcb.
  apply store_ok_facts in Hok as F.
  pose proof (sf_count _ F) as Hcnt.
  destruct (Z.eqb_spec n 0) as [Hz|Hnz].
  - exists 0, rb. split; [|left; auto].
    apply store_read_cb_nothing. subst n. lia.
  - assert (Hn : 0 < n) by (subst n; lia).
    assert (Hlen' : 0 < length < 2 ^ 32) by (subst n; lia).
    assert (Hb : 0 < buffered_bytes_ rb) by (subst n; lia).
    specialize (Hcb Hn). destruct ok.
    + destruct (store_read_cb_accepted NDEBUG rb length recv_cb w w'
                  F Hlen' Hb Hcb)
        as (rb' & Hrun & F' & Hbuf & Hidx & Hcnt' & Hcont).
      exists n, rb'. split; [exact Hrun|]. right. left.
      split; [exact Hn|]. split; [reflexivity|]. split; [reflexivity|].
      split; [apply store_ok_facts; exact F'|].
      split; [unfold capacity; rewrite Hbuf; reflexivity|].
      split; [exact Hidx|]. split; assumption.
    + exists 0, rb. split.
      * apply (store_read_cb_declined NDEBUG rb length recv_cb w w'
                 F Hlen' Hb Hcb).
      * right. right.
        split; [exact Hn|]. split; [reflexivity|]. split; [reflexivity|].
        split; [reflexivity|]. split.
        -- intros dst Hdst.
           destruct (store_read_returns NDEBUG rb dst length F Hlen Hdst)
             as (rb2 & Hread & _).
           exists rb2. exact Hread.
        -- intros recv_cb2 w2 w2' ok2 Hcb2. destruct ok2.
           ++ destruct (store_read_cb_accepted NDEBUG rb length recv_cb2
                          w2 w2' F Hlen' Hb Hcb2) as (rb2 & Hrun & _).
              exists n, rb2. split; [exact Hrun|reflexivity].
           ++ exists 0, rb. split; [|reflexivity].
              apply (store_read_cb_declined NDEBUG rb length recv_cb2
                       w2 w2' F Hlen' Hb Hcb2).
Qed.

(** C4 on a ring buffer whose four bytes lie across the end of the
    storage, with a consumer that declines and stays out of the ring
    buffer. *)
Lemma read_cb_commits_iff_accepted_witness :
  store_ok ring8_wrapped = true
  /\ 0 <= 3 < 2 ^ 32
  /\ exists r rb',
       read_cb false ring8_wrapped 3 (no_reentry decline) tt
       = Returns (r, rb', tt)
       /\ r = 0 /\ rb' = ring8_wrapped.
Proof.
  split; [reflexivity|]. split; [lia|].
  destruct (read_cb_commits_iff_accepted false ring8_wrapped 3
              (no_reentry decline) tt tt false)
    as (r & rb' & Hrun & Hcase); [reflexivity|lia|intros _; reflexivity|].
  exists r, rb'. split; [exact Hrun|].
  destruct Hcase as [(Hn & _)|[(_ & Hacc & _)|(_ & _ & Hr & Hrb & _)]].
  - vm_compute in Hn. discriminate.
  - discriminate.
  - split; assumption.
Defined.

(** ** C6: the byte count *)

Lemma read_cb_returns {W : Type} (NDEBUG : bool) (rb : RingBuffer) (length : Z)
    (recv_cb : list byte -> Z -> W -> bool * W) (w : W) :
  ring_facts rb -> 0 <= length < 2 ^ 32 ->
  exists r rb' w',
    read_cb NDEBUG rb length (no_reentry recv_cb) w = Returns (r, rb', w')
    /\ ring_facts rb'
    /\ size (buffer_ rb') = size (buffer_ rb)
    /\ buffered_bytes_ rb' = buffered_bytes_ rb - r
    /\ 0 <= r.
Proof.
  intros F Hlen. pose proof (rf_count _ F) as Hcnt.
  set (n := Z.min length (buffered_bytes_ rb)).
  destruct (Z.eq_dec n 0) as [Hz|Hnz].
  - exists 0, rb, w. rewrite read_cb_nothing by (unfold n in *; lia).
    split; [reflexivity|]. split; [exact F|]. split; [reflexivity|]. lia.
  - assert (Hlen' : 0 < length < 2 ^ 32) by (unfold n in *; lia).
    assert (Hb : 0 < buffered_bytes_ rb) by (unfold n in *; lia).
    destruct (recv_cb (firstn (Z.to_nat n) (contents rb)) n w) as [ok w'] eqn:Hcb.
    destruct ok.
    + destruct (read_cb_accepted NDEBUG rb length recv_cb w w' F Hlen' Hb Hcb)
        as (rb' & Hrun & F' & Hbuf & Hcnt' & _).
      exists n, rb', w'. rewrite Hbuf.
      split; [exact Hrun|]. split; [exact F'|]. split; [reflexivity|].
      split; [exact Hcnt'|unfold n in *; lia].
    + exists 0, rb, w'.
      rewrite (read_cb_declined NDEBUG rb length recv_cb w w' F Hlen' Hb Hcb).
      split; [reflexivity|]. split; [exact F|]. split; [reflexivity|]. lia.
Qed.

Section Accounting.

Variable NDEBUG : bool.

Lemma valid_span_facts (data : option (list byte)) (length : Z) :
valid_span data length = true ->
0 <= length < 2 ^ 32
/\ match data with Some bytes => length <= size bytes | None => True end.
Proof.
unfold valid_span. intros H.
apply andb_prop in H as [H Hd]. apply andb_prop in H as [Hlo Hhi].
split; [lia|]. destruct data; [lia|exact I].
Qed.

(** One operation with valid arguments, a write within the free space:
  the operation returns, and the count moves by what was accepted minus
  what was removed. *)
Lemma step_accounts (rb : RingBuffer) (o : op) :
ring_facts rb ->
match o with
| OpWrite data length =>
  valid_span data length = true
  /\ length <= capacity rb - buffered_bytes_ rb
| OpRead data length => valid_span data length = true
| OpReadCb length _ => valid_span None length = true
| OpDrain length => valid_span None length = true
end ->
exists rb' e,
  step NDEBUG rb o = Returns (rb', e)
  /\ ring_facts rb'
  /\ size (buffer_ rb') = size (buffer_ rb)
  /\ buffered_bytes_ rb' = buffered_bytes_ rb + accepted e - removed e
  /\ 0 <= accepted e /\ 0 <= removed e.
Proof.
intros F Hvalid.
pose proof (rf_count _ F) as Hcnt.
destruct o as [data length|data length|length recv_cb|length]; cbn [step].
- (* write *)
  destruct Hvalid as [Hspan Hfit].
  apply valid_span_facts in Hspan as [Hlen Hsrc].
  rewrite (capacity_size rb F) in Hfit.
  destruct data as [src|].
  + destruct (Z.eq_dec length 0) as [->|Hnz].
    * rewrite write_invalid by (right; reflexivity). cbn [bind error_code_eqb].
      exists rb. eexists. split; [reflexivity|]. cbn [accepted removed].
      auto with zarith.
    * destruct (write_accepts NDEBUG rb src length F)
        as (rb' & Hw & F' & Hsize & Hcnt' & _); [lia|lia|lia|].
      rewrite Hw. cbn [bind error_code_eqb].
      exists rb'. eexists. split; [reflexivity|]. cbn [accepted removed].
      auto with zarith.
  + rewrite write_invalid by (left; reflexivity). cbn [bind error_code_eqb].
    exists rb. eexists. split; [reflexivity|]. cbn [accepted removed].
    auto with zarith.
- (* read *)
  apply valid_span_facts in Hvalid as [Hlen Hdst].
  destruct data as [dst|].
  + destruct (read_returns NDEBUG rb dst length F Hlen Hdst)
      as (rb' & Hr & F' & Hbuf & Hcnt' & _).
    rewrite Hr. cbn [bind].
    exists rb'. eexists. split; [reflexivity|]. cbn [accepted removed].
    rewrite Hbuf. auto with zarith.
  + cbn [read bind].
    exists rb. eexists. split; [reflexivity|]. cbn [accepted removed].
    auto with zarith.
- (* read with a consumer *)
  apply valid_span_facts in Hvalid as [Hlen _].
  destruct (read_cb_returns NDEBUG rb length
              (fun d l (w : unit) => (recv_cb d l, w)) tt F Hlen)
    as (r & rb' & w' & Hr & F' & Hsize & Hcnt' & Hr0).
  rewrite Hr. cbn [bind].
  exists rb'. eexists. split; [reflexivity|]. cbn [accepted removed].
  auto with zarith.
- (* drain *)
  apply valid_span_facts in Hvalid as [Hlen _].
  rewrite buffered_bytes_returns by exact F. cbn [bind].
  destruct (drain_returns NDEBUG rb length F Hlen)
    as (rb' & Hd & F' & Hbuf & Hcnt' & _).
  rewrite Hd. cbn [bind].
  exists rb'. eexists. split; [reflexivity|]. cbn [accepted removed].
  rewrite Hbuf. auto with zarith.
Qed.

Lemma run_accounts (ops : list op) :
forall (rb : RingBuffer) (acc rem base : Z),
  ring_facts rb ->
  writes_fit NDEBUG rb ops = true ->
  buffered_bytes_ rb = base + acc - rem ->
  exists trace,
    run NDEBUG rb acc rem ops = Returns trace
    /\ length trace = length ops
    /\ Forall (fun x =>
                 buffered_bytes_ (fst (fst x)) = base + snd (fst x) - snd x
                 /\ 0 <= buffered_bytes_ (fst (fst x)) <= capacity (fst (fst x))
                 /\ capacity (fst (fst x)) = capacity rb) trace.
Proof.
induction ops as [|o rest IH]; intros rb acc rem base F Hfit Hbase.
- exists []. repeat split. constructor.
- cbn [writes_fit] in Hfit. apply andb_prop in Hfit as [Hop Hrest].
  destruct (step_accounts rb o F) as (rb' & e & Hstep & F' & Hsize & Hcnt & Ha & Hr).
  { destruct o; try exact Hop.
    apply andb_prop in Hop as [Hspan Hle]. split; [exact Hspan|lia]. }
  rewrite Hstep in Hrest.
  destruct (IH rb' (acc + accepted e) (rem + removed e) base F' Hrest)
    as (trace & Hrun & Hlen & Hall); [lia|].
  cbn [run]. rewrite Hstep. cbn [bind]. rewrite Hrun. cbn [bind].
  eexists. split; [reflexivity|]. split; [cbn [length]; lia|].
  assert (Hcap : capacity rb' = capacity rb).
  { rewrite !capacity_size by assumption. exact Hsize. }
  constructor.
  + cbn [fst snd]. pose proof (rf_count _ F') as Hc.
    split; [lia|]. split; [|exact Hcap].
    rewrite (capacity_size rb' F'). lia.
  + eapply Forall_impl; [|exact Hall].
    intros x (H1 & H2 & H3). rewrite <- Hcap. auto.
Qed.

End Accounting.

(** 2^31 does not fit the [int32_t] counter. *)
Lemma to_int32_2_31 : to_int32 (2 ^ 31) = - 2 ^ 31.
Proof. reflexivity. Qed.

(** A ring buffer of capacity 2^31 that is empty and whose write index
    is 0, and a write of 2^31 bytes: the length passes the check, the
    bytes are copied, and the counter goes to -2^31. *)

Lemma write_overflows_counter (NDEBUG : bool) (rb : RingBuffer)
    (src : list byte) :
  size (buffer_ rb) = 2 ^ 31 ->
  write_index_ rb = 0 -> buffered_bytes_ rb = 0 ->
  2 ^ 31 <= size src ->
  exists rb',
    buffered_bytes_ rb' = - 2 ^ 31
    /\ write NDEBUG rb (Some src) (2 ^ 31)
       = if NDEBUG then Returns (Success, rb') else Aborts.
Proof.
  intros Hsize Hw Hcount Hsrc.
  unfold write.
  destruct (Z.eqb_spec (2 ^ 31) 0) as [Hz|_]; [lia|].
  unfold buffered_bytes. rewrite Hcount.
  rewrite (assert_holds NDEBUG) by reflexivity. cbn [bind].
  unfold capacity. rewrite Hsize, Hw, Z.land_0_l.
  rewrite (to_uint32_small 0) by lia.
  rewrite (to_uint32_small (0 + 2 ^ 31)) by lia.
  rewrite (to_uint32_small (2 ^ 31)) by lia.
  rewrite !Z.add_0_l.
  destruct (Z.gtb_spec (2 ^ 31) (2 ^ 31)); [lia|].
  unfold memcpy.
  rewrite (load_returns src 0 (2 ^ 31)) by lia. cbn [bind].
  rewrite store_returns by (rewrite ?size_slice by lia; lia). cbn [bind].
  cbn [buffered_bytes_]. rewrite to_int32_2_31.
  eexists {| index_mask := index_mask rb;
             buffer_ := _;
             read_index_ := read_index_ rb;
             write_index_ := 2 ^ 31;
             buffered_bytes_ := - 2 ^ 31 |}.
  split; [reflexivity|].
  unfold assert_.
  destruct (Z.leb_spec 0 (- 2 ^ 31)); [lia|].
  destruct NDEBUG; reflexivity.
Qed.

Lemma RingBuffer_new_2_31 (NDEBUG : bool) :
  RingBuffer_new NDEBUG (2 ^ 31)
  = Returns {| index_mask := to_uint32 (2 ^ 31 - 1);
               buffer_ := repeat x00 (Z.to_nat (2 ^ 31));
               read_index_ := 0; write_index_ := 0; buffered_bytes_ := 0 |}.
Proof.
  unfold RingBuffer_new.
  rewrite (assert_holds NDEBUG (0 <? 2 ^ 31)) by reflexivity. cbn [bind].
  rewrite (assert_holds NDEBUG (IS_POWER_OF_TWO (2 ^ 31))) by reflexivity.
  reflexivity.
Qed.

(** C6, where the code fails.  [RingBuffer(2147483648)] passes both
    assertions of the constructor.  A first write of 2^31 bytes is no
    longer than the free space; it stops at [assert(buffered_bytes_ >= 0)]
    in a build with assertions, and without them it leaves the count at
    -2^31. *)
Theorem count_overflows_at_capacity_2_31 :
  exists rb,
    RingBuffer_new false (2 ^ 31) = Returns rb
    /\ RingBuffer_new true (2 ^ 31) = Returns rb
    /\ capacity rb = 2 ^ 31
    /\ buffered_bytes_ rb = 0
    /\ step false rb (OpWrite (Some (repeat x5a (Z.to_nat (2 ^ 31)))) (2 ^ 31))
       = Aborts
    /\ exists rb',
         step true rb (OpWrite (Some (repeat x5a (Z.to_nat (2 ^ 31)))) (2 ^ 31))
         = Returns (rb', {| accepted := 2 ^ 31; removed := 0 |})
         /\ buffered_bytes_ rb' = - 2 ^ 31.
Proof.
  eexists. split; [apply RingBuffer_new_2_31|].
  split; [apply RingBuffer_new_2_31|].
  assert (Hsize : size (repeat x00 (Z.to_nat (2 ^ 31))) = 2 ^ 31)
    by (apply size_repeat; lia).
  assert (Hsrc : 2 ^ 31 <= size (repeat x5a (Z.to_nat (2 ^ 31))))
    by (rewrite size_repeat; lia).
  split; [unfold capacity; cbn [buffer_]; rewrite Hsize;
          apply to_uint32_small; lia|].
  split; [reflexivity|].
  cbn [step]. split.
  - match goal with
    | |- context [write false ?rb _ _] =>
      destruct (write_overflows_counter false rb _ Hsize eq_refl eq_refl Hsrc)
        as (rb' & _ & Hrun)
    end.
    rewrite Hrun. reflexivity.
  - match goal with
    | |- context [write true ?rb _ _] =>
      destruct (write_overflows_counter true rb _ Hsize eq_refl eq_refl Hsrc)
        as (rb' & Hcount & Hrun)
    end.
    exists rb'. rewrite Hrun. split; [reflexivity|exact Hcount].
Qed.

(** ** C7: what is written is what is read *)

Section RoundTrip.

Variable NDEBUG : bool.

Lemma size_concat_cons (chunk : list byte) (rest : list (list byte)) :
size (concat (chunk :: rest)) = size chunk + size (concat rest).
Proof. cbn [concat]. apply size_app. Qed.

(** Successive writes append the chunks in order. *)
Lemma write_all_appends (chunks : list (list byte)) :
forall rb : RingBuffer,
  ring_facts rb ->
  buffered_bytes_ rb + size (concat chunks) <= size (buffer_ rb) ->
  exists errs rb1,
    write_all NDEBUG rb chunks = Returns (errs, rb1)
    /\ ring_facts rb1
    /\ size (buffer_ rb1) = size (buffer_ rb)
    /\ contents rb1 = contents rb ++ concat chunks
    /\ errs = map (fun chunk => match chunk with
                                | [] => ErrInvalidParameter
                                | _ :: _ => Success
                                end) chunks.
Proof.
induction chunks as [|chunk rest IH]; intros rb F Hfit.
- exists [], rb. cbn [write_all concat map]. rewrite app_nil_r. auto.
- rewrite size_concat_cons in Hfit.
  pose proof (size_nonneg chunk) as Hc.
  pose proof (size_nonneg (concat rest)) as Hr.
  pose proof (rf_count _ F) as Hcnt.
  cbn [write_all concat map].
  destruct chunk as [|b chunk'].
  + rewrite write_invalid by (right; reflexivity). cbn [bind].
    destruct (IH rb F) as (errs & rb1 & Hw & F1 & Hsize & Hcont & Herrs);
      [change (size []) with 0 in Hfit; lia|].
    rewrite Hw. cbn [bind]. exists (ErrInvalidParameter :: errs), rb1.
    rewrite Herrs. cbn [app]. auto.
  + set (chunk := b :: chunk') in *.
    assert (Hpos : 0 < size chunk) by (unfold chunk, size; simpl; lia).
    destruct (write_accepts NDEBUG rb chunk (size chunk) F)
      as (rb' & Hw' & F' & Hsize' & Hcnt' & Hcont'); [lia|lia|lia|].
    unfold size in Hcont' at 1. rewrite Nat2Z.id, firstn_all in Hcont'.
    rewrite Hw'. cbn [bind].
    destruct (IH rb' F') as (errs & rb1 & Hw & F1 & Hsize & Hcont & Herrs);
      [lia|].
    rewrite Hw. cbn [bind]. exists (Success :: errs), rb1.
    rewrite Herrs, Hcont, Hcont', <- app_assoc.
    split; [reflexivity|]. split; [exact F1|]. split; [lia|]. auto.
Qed.

(** Successive reads hand out the buffered bytes in order. *)
Lemma read_all_takes (lengths : list Z) :
forall rb : RingBuffer,
  ring_facts rb ->
  Forall (fun n => 0 <= n) lengths ->
  total lengths <= buffered_bytes_ rb ->
  exists outs rb2,
    read_all NDEBUG rb lengths = Returns (outs, rb2)
    /\ ring_facts rb2
    /\ concat outs = firstn (Z.to_nat (total lengths)) (contents rb)
    /\ contents rb2 = skipn (Z.to_nat (total lengths)) (contents rb)
    /\ buffered_bytes_ rb2 = buffered_bytes_ rb - total lengths
    /\ map size outs = lengths.
Proof.
induction lengths as [|n rest IH]; intros rb F Hall Hsum.
- exists [], rb. cbn [read_all total fold_right concat map].
  change (Z.to_nat 0) with 0%nat. cbn [firstn skipn].
  split; [reflexivity|]. split; [exact F|]. split; [reflexivity|].
  split; [reflexivity|]. split; [lia|reflexivity].
- apply Forall_cons_iff in Hall as [Hn Hall].
  assert (Hrest : 0 <= total rest).
  { clear -Hall. induction Hall; cbn [total fold_right]; [lia|].
    fold (total l). lia. }
  cbn [total fold_right] in *. fold (total rest) in *.
  pose proof F as [Hcpos Hcmax Hpow Hmask Hrd Hwr Hcnt Hring].
  cbn [read_all].
  destruct (read_returns NDEBUG rb (repeat x00 (Z.to_nat n)) n F)
    as (rb1 & Hr & F1 & Hbuf & Hcnt1 & Hcont1);
    [lia|rewrite size_repeat by lia; lia|].
  rewrite Z.min_l in Hr, Hcnt1, Hcont1 by lia.
  rewrite skipn_all2, app_nil_r in Hr by (rewrite repeat_length; lia).
  rewrite Hr. cbn [bind].
  destruct (IH rb1 F1 Hall) as (outs & rb2 & Hrun & F2 & Hcat & Hcont2 & Hcnt2 & Hsz);
    [lia|].
  rewrite Hrun. cbn [bind].
  assert (Hsize_c : size (contents rb) = buffered_bytes_ rb)
    by (apply size_contents; lia).
  assert (Hgot : firstn (Z.to_nat n) (firstn (Z.to_nat n) (contents rb))
                 = firstn (Z.to_nat n) (contents rb)).
  { rewrite firstn_firstn. f_equal. lia. }
  eexists. exists rb2. split; [reflexivity|]. split; [exact F2|].
  rewrite Hgot. cbn [concat map].
  split; [|split; [|split]].
  + rewrite Hcat, Hcont1.
    rewrite <- (firstn_skipn (Z.to_nat n)
                  (firstn (Z.to_nat (n + total rest)) (contents rb))).
    rewrite firstn_firstn. f_equal; [f_equal; lia|].
    rewrite skipn_firstn_comm. f_equal. lia.
  + rewrite Hcont2, Hcont1, skipn_skipn. f_equal. lia.
  + lia.
  + f_equal; [|exact Hsz]. apply size_firstn. lia.
Qed.

End RoundTrip.

(** C7, where the code fails.  [RingBuffer(2147483648)] and a byte
    sequence of 2^31 bytes, as long as the capacity, written in one call:
    in a build with assertions the write stops at
    [assert(buffered_bytes_ >= 0)] and nothing is read back. *)
Theorem round_trip_stops_at_capacity_2_31 :
  exists rb,
    RingBuffer_new false (2 ^ 31) = Returns rb
    /\ size (repeat x5a (Z.to_nat (2 ^ 31))) = capacity rb
    /\ write_all false rb [repeat x5a (Z.to_nat (2 ^ 31))] = Aborts.
Proof.
  eexists. split; [apply RingBuffer_new_2_31|].
  assert (Hsize : size (repeat x00 (Z.to_nat (2 ^ 31))) = 2 ^ 31)
    by (apply size_repeat; lia).
  assert (Hsrc : size (repeat x5a (Z.to_nat (2 ^ 31))) = 2 ^ 31)
    by (apply size_repeat; lia).
  split; [unfold capacity; cbn [buffer_]; rewrite Hsize, Hsrc;
          symmetry; apply to_uint32_small; lia|].
  cbn [write_all]. rewrite Hsrc.
  match goal with
  | |- context [write false ?rb _ _] =>
    destruct (write_overflows_counter false rb
                (repeat x5a (Z.to_nat (2 ^ 31))) Hsize eq_refl eq_refl)
      as (rb' & _ & Hrun); [lia|]
  end.
  rewrite Hrun. reflexivity.
Qed.

(** ** C8: the transition out of [READ_HEADER] *)

Lemma ntoh_converts (little_endian : bool) {PH : ProtoHeader}
    (header : list byte) :
  body_length_offset + body_length_size <= size header ->
  (if body_length_size =? 2
   then ntohs little_endian (body_length little_endian header)
   else ntohl little_endian (body_length little_endian header))
  = decode_be (body_length_field header).
Proof.
  intros H.
  pose proof (size_body_length_field header H) as Hf.
  unfold ntohs, ntohl, body_length.
  destruct body_length_type as [Hw|Hw]; rewrite Hw in *; cbn [Z.eqb Pos.eqb].
  - change 2%nat with (Z.to_nat 2). rewrite <- Hf. unfold size.
    rewrite Nat2Z.id, encode_decode_host. reflexivity.
  - change 4%nat with (Z.to_nat 4). rewrite <- Hf. unfold size.
    rewrite Nat2Z.id, encode_decode_host. reflexivity.
Qed.

(** C8.  In state [READ_HEADER] with at least a header buffered, one call
    of [PerformStreamingParse] returns [false] (it is not waiting) and
    - takes exactly [protocol_header_length] bytes, the oldest, out of the
      ring buffer and into the header object;
    - replaces the field [body_length] by [ntohs] or [ntohl] of it,
      according to its width, which is the big-endian reading of the
      field's bytes on either kind of host;
    - calls the header handler once, on the converted header;
    - leaves the converted value as the body length that state
      [READ_BODY] waits for;
    - and moves to [READ_BODY], whatever the handler returned. *)
Theorem header_transition (NDEBUG little_endian : bool) {PH : ProtoHeader}
    {W : Type} (header_handler_ : list byte -> W -> bool * W)
    (body_handler_ : list byte -> Z -> W -> bool * W)
    (p : StreamingParser W) :
  parser_ok p = true ->
  recv_state_ p = READ_HEADER ->
  protocol_header_length <= buffered_bytes_ (recv_buffer_ p) ->
  let wire := firstn (Z.to_nat protocol_header_length)
                (contents (recv_buffer_ p)) in
  let converted :=
    if body_length_size =? 2
    then ntohs little_endian (body_length little_endian wire)
    else ntohl little_endian (body_length little_endian wire) in
  let header := set_body_length little_endian wire converted in
  exists p',
    PerformStreamingParse NDEBUG little_endian header_handler_ body_handler_ p
    = Returns (false, p')
    /\ recv_state_ p' = READ_BODY
    /\ current_header_ p' = header
    /\ converted = decode_be (body_length_field wire)
    /\ body_length little_endian (current_header_ p') = converted
    /\ calls p' = calls p ++ [HeaderCall header]
    /\ world p' = snd (header_handler_ header (world p))
    /\ buffered_bytes_ (recv_buffer_ p')
       = buffered_bytes_ (recv_buffer_ p) - protocol_header_length
    /\ contents (recv_buffer_ p')
       = skipn (Z.to_nat protocol_header_length) (contents (recv_buffer_ p))
    /\ parser_ok p' = true.
Proof.
  intros Hok Hstate Hready wire converted header.
  pose proof Hok as Hok'. apply parser_ok_facts in Hok' as [F Hhdr].
  pose proof (rf_count _ F) as Hcnt.
  pose proof header_shape as Hs.
  assert (Hwire : size wire = protocol_header_length).
  { unfold wire. rewrite size_firstn; rewrite ?size_contents; lia. }
  assert (Hconv : converted = decode_be (body_length_field wire)).
  { unfold converted. apply ntoh_converts. lia. }
  assert (Hheader : DoBytesOrderConversion little_endian wire = header).
  { rewrite DoBytesOrderConversion_spec by lia. unfold header.
    rewrite Hconv. reflexivity. }
  destruct (header_step NDEBUG little_endian W header_handler_ body_handler_
              p Hok Hstate Hready) as (rb' & Hstep & F' & Hbuf & Hcnt' & Hcont).
  fold wire in Hstep. rewrite Hheader in Hstep.
  eexists. split; [exact Hstep|]. cbn [recv_state_ current_header_ calls world recv_buffer_].
  split; [reflexivity|]. split; [reflexivity|]. split; [exact Hconv|].
  split.
  { rewrite <- Hheader, Hconv. apply body_length_converted. lia. }
  split; [reflexivity|]. split; [reflexivity|]. split; [exact Hcnt'|].
  split; [exact Hcont|].
  apply parser_ok_facts. cbn [recv_buffer_ current_header_].
  split; [exact F'|]. unfold header. rewrite size_set_body_length; lia.
Qed.

(** C8 on the header of the test, announcing 100 bytes, on a
    little-endian host, with a header handler that returns [false]. *)
Lemma header_transition_witness :
  exists p',
    PerformStreamingParse true true (PH := TestHeader)
      (header_says false) (body_says true) (parser_holding (wire_header 100))
    = Returns (false, p')
    /\ recv_state_ p' = READ_BODY
    /\ body_length true (PH := TestHeader) (current_header_ p') = 100.
Proof.
  destruct (header_transition true true (PH := TestHeader)
              (header_says false) (body_says true)
              (parser_holding (wire_header 100)))
    as (p' & Hstep & Hstate & _ & Hconv & Hlen & _).
  - reflexivity.
  - reflexivity.
  - vm_compute. discriminate.
  - exists p'. split; [exact Hstep|]. split; [exact Hstate|].
    rewrite Hlen, Hconv. reflexivity.
Defined.

(** ** C5: the result of [HandleData] *)

(** C5, where it fails.  In a build with assertions a fresh parser is
    given a complete header whose body length is 0.  The write accepts the
    twelve bytes, yet [HandleData] does not return [true]: the assertion
    of state [READ_BODY] stops the process. *)
Lemma HandleData_neither_true_nor_false :
  fresh_parser false = Returns (parser_holding [])
  /\ write false (recv_buffer_ (parser_holding [])) (Some (wire_header 0)) 12
     = Returns (Success, recv_buffer_ (parser_holding (wire_header 0)))
  /\ test_HandleData false true true (parser_holding [])
       (Some (wire_header 0)) 12 = Aborts
  /\ forall r p',
       test_HandleData false true true (parser_holding [])
         (Some (wire_header 0)) 12 <> Returns (r, p').
Proof.
  assert (H : test_HandleData false true true (parser_holding [])
                (Some (wire_header 0)) 12 = Aborts)
    by (vm_compute; reflexivity).
  split; [vm_compute; reflexivity|].
  split; [vm_compute; reflexivity|].
  split; [exact H|].
  intros r p' Heq. rewrite H in Heq. discriminate.
Qed.

(** What returns in a build with assertions returns the same without
    them. *)
Lemma buffered_bytes_release (rb : RingBuffer) (x : Z) :
  buffered_bytes false rb = Returns x -> buffered_bytes true rb = Returns x.
Proof.
  unfold buffered_bytes, assert_. cbn [orb].
  destruct (0 <=? buffered_bytes_ rb); cbn [bind]; [auto|discriminate].
Qed.

Lemma write_release (rb : RingBuffer) (data : option (list byte)) (length : Z)
    (x : error_code * RingBuffer) :
  write false rb data length = Returns x -> write true rb data length = Returns x.
Proof.
  unfold write. destruct data as [src|]; [|auto].
  destruct (length =? 0); [auto|].
  destruct (buffered_bytes false rb) as [bb| | |] eqn:Hbb;
    cbn [bind]; try discriminate.
  rewrite (buffered_bytes_release rb bb Hbb). cbn [bind].
  destruct (to_uint32 (bb + length) >? capacity rb); [auto|].
  match goal with
  | |- (buf <- ?copy ;; _) = _ -> _ =>
    destruct copy as [buf| | |]; cbn [bind]; try discriminate
  end.
  unfold assert_. cbn [orb buffered_bytes_].
  match goal with
  | |- (_ <- (if ?c then _ else _) ;; _) = _ -> _ =>
    destruct c; cbn [bind]; [auto|discriminate]
  end.
Qed.

Lemma read_release (rb : RingBuffer) (data : option (list byte)) (length : Z)
    (x : Z * option (list byte) * RingBuffer) :
  read false rb data length = Returns x -> read true rb data length = Returns x.
Proof.
  unfold read. destruct data as [dst|]; [|auto].
  destruct (length =? 0); [auto|].
  destruct (buffered_bytes_ rb =? 0); [auto|].
  destruct (buffered_bytes false rb) as [bb| | |] eqn:Hbb;
    cbn [bind]; try discriminate.
  rewrite (buffered_bytes_release rb bb Hbb). cbn [bind].
  match goal with
  | |- (dst' <- ?copy ;; _) = _ -> _ =>
    destruct copy as [dst'| | |]; cbn [bind]; try discriminate
  end.
  unfold assert_. cbn [orb buffered_bytes_].
  match goal with
  | |- (_ <- (if ?c then _ else _) ;; _) = _ -> _ =>
    destruct c; cbn [bind]; [auto|discriminate]
  end.
Qed.

Lemma read_cb_release {W : Type} (rb : RingBuffer) (length : Z)
    (recv_cb : list byte -> Z -> W -> bool * W) (w : W)
    (x : Z * RingBuffer * W) :
  read_cb false rb length (no_reentry recv_cb) w = Returns x ->
  read_cb true rb length (no_reentry recv_cb) w = Returns x.
Proof.
  unfold read_cb. destruct (length =? 0); [auto|].
  destruct (buffered_bytes_ rb =? 0); [auto|].
  destruct (buffered_bytes false rb) as [bb| | |] eqn:Hbb;
    cbn [bind]; try discriminate.
  rewrite (buffered_bytes_release rb bb Hbb). cbn [bind].
  match goal with
  | |- (view <- ?copy ;; _) = _ -> _ =>
    destruct copy as [view| | |]; cbn [bind]; try discriminate
  end.
  unfold no_reentry. destruct (recv_cb view (Z.min length bb) w) as [ok w'].
  cbn [bind]. destruct ok; [|auto].
  unfold assert_. cbn [orb buffered_bytes_].
  match goal with
  | |- (_ <- (if ?c then _ else _) ;; _) = _ -> _ =>
    destruct c; cbn [bind]; [auto|discriminate]
  end.
Qed.

Section Builds.

Variable little_endian : bool.
Context {PH : ProtoHeader}.
Variable W : Type.
Variable header_handler_ : list byte -> W -> bool * W.
Variable body_handler_ : list byte -> Z -> W -> bool * W.

Local Abbreviation transition b :=
  (PerformStreamingParse b little_endian header_handler_ body_handler_).
Local Abbreviation loop b :=
  (parse_loop b little_endian header_handler_ body_handler_).

Lemma transition_release (p : StreamingParser W)
    (x : bool * StreamingParser W) :
  transition false p = Returns x -> transition true p = Returns x.
Proof.
  unfold PerformStreamingParse. destruct (recv_state_ p).
  - destruct (buffered_bytes false (recv_buffer_ p)) as [bb| | |] eqn:Hbb;
      cbn [bind]; try discriminate.
    rewrite (buffered_bytes_release _ bb Hbb). cbn [bind].
    destruct (bb >=? protocol_header_length); [|auto].
    destruct (read false (recv_buffer_ p) (Some (current_header_ p))
                protocol_header_length) as [y| | |] eqn:Hr;
      cbn [bind]; try discriminate.
    rewrite (read_release _ _ _ y Hr). cbn [bind]. auto.
  - unfold assert_. cbn [orb].
    destruct (body_length little_endian (current_header_ p) >? 0);
      cbn [bind]; [|discriminate].
    destruct (buffered_bytes false (recv_buffer_ p)) as [bb| | |] eqn:Hbb;
      cbn [bind]; try discriminate.
    rewrite (buffered_bytes_release _ bb Hbb). cbn [bind].
    destruct (bb >=? body_length little_endian (current_header_ p)); [|auto].
    destruct (read_cb false (recv_buffer_ p)
                (body_length little_endian (current_header_ p))
                (no_reentry (body_callback body_handler_))
                (world p, calls p)) as [y| | |] eqn:Hr;
      cbn [bind]; try discriminate.
    rewrite (read_cb_release _ _ _ _ y Hr). cbn [bind]. auto.
Qed.

(** The loop of [HandleData] in the two builds.  Without assertions it
    returns; with assertions it is stopped exactly when the parser stands
    in [READ_BODY] for a header whose body length is 0, at the start or
    after one of the header calls that the loop makes, and otherwise it
    returns the same parser. *)
Lemma loop_builds (fuel : nat) :
  forall p : StreamingParser W,
    parser_ok p = true ->
    (2 * Z.to_nat (buffered_bytes_ (recv_buffer_ p))
     + match recv_state_ p with READ_HEADER => 0 | READ_BODY => 1 end
     < fuel)%nat ->
    exists q new,
      loop true fuel p = Returns q
      /\ parser_ok q = true
      /\ size (buffer_ (recv_buffer_ q)) = size (buffer_ (recv_buffer_ p))
      /\ calls q = calls p ++ new
      /\ loop false fuel p
         = if awaits_empty_body little_endian p
              || existsb (announces_empty_body little_endian) new
           then Aborts else Returns q.
Proof.
  induction fuel as [|fuel IH]; intros p Hok Hfuel; [lia|].
  pose proof Hok as Hok'. apply parser_ok_facts in Hok' as [F Hhdr].
  pose proof (rf_count _ F) as Hcnt.
  pose proof header_shape as Hs.
  unfold awaits_empty_body.
  destruct (recv_state_ p) eqn:Hstate.
  - (* READ_HEADER *)
    destruct (Z.lt_ge_cases (buffered_bytes_ (recv_buffer_ p))
                protocol_header_length) as [Hshort|Hready].
    + exists p, [].
      rewrite !loop_waits by (rewrite ?Hstate; assumption).
      rewrite app_nil_r. repeat split; assumption.
    + destruct (header_step false little_endian W header_handler_
                  body_handler_ p Hok Hstate)
        as (rb' & Hstep & F' & Hbuf & Hcnt' & _); [lia|].
      pose proof (transition_release p _ Hstep) as Hstep'.
      assert (Hready' : match recv_state_ p with
                        | READ_HEADER =>
                          protocol_header_length
                          <= buffered_bytes_ (recv_buffer_ p)
                        | READ_BODY =>
                          body_length little_endian (current_header_ p)
                          <= buffered_bytes_ (recv_buffer_ p)
                        end) by (rewrite Hstate; lia).
      rewrite (loop_advances true little_endian W header_handler_
                 body_handler_ fuel p _ Hok Hready' Hstep').
      rewrite (loop_advances false little_endian W header_handler_
                 body_handler_ fuel p _ Hok Hready' Hstep).
      match goal with
      | |- context [parse_loop true _ _ _ fuel ?p1] =>
        destruct (IH p1) as (q & new & Hr & Hokq & Hsz & Hcalls & Hd)
      end.
      * apply parser_ok_facts. cbn [recv_buffer_ current_header_].
        split; [exact F'|].
        rewrite size_DoBytesOrderConversion;
          rewrite size_firstn; rewrite ?size_contents; lia.
      * cbn [recv_buffer_ recv_state_]. lia.
      * cbn [recv_buffer_ calls] in Hsz, Hcalls.
        unfold awaits_empty_body in Hd.
        cbn [recv_state_ current_header_] in Hd.
        eexists q, (_ :: new). split; [exact Hr|]. split; [exact Hokq|].
        split; [rewrite Hsz, Hbuf; reflexivity|].
        split; [rewrite Hcalls, <- app_assoc; reflexivity|].
        cbn [orb existsb announces_empty_body]. exact Hd.
  - (* READ_BODY *)
    set (n := body_length little_endian (current_header_ p)) in *.
    pose proof (body_length_range little_endian (current_header_ p)) as Hn.
    fold n in Hn.
    assert (Hhdr0 : size (set_body_length little_endian (current_header_ p) 0)
                    = protocol_header_length).
    { rewrite size_set_body_length; lia. }
    destruct (Z.lt_ge_cases (buffered_bytes_ (recv_buffer_ p)) n)
      as [Hshort|Hready].
    + exists p, [].
      rewrite !loop_waits by (rewrite ?Hstate; assumption).
      rewrite app_nil_r.
      destruct (Z.eqb_spec n 0); [lia|]. repeat split; assumption.
    + assert (Hready' : match recv_state_ p with
                        | READ_HEADER =>
                          protocol_header_length
                          <= buffered_bytes_ (recv_buffer_ p)
                        | READ_BODY =>
                          body_length little_endian (current_header_ p)
                          <= buffered_bytes_ (recv_buffer_ p)
                        end) by (rewrite Hstate; fold n; lia).
      destruct (Z.eqb_spec n 0) as [Hzero|Hpos].
      * pose proof (body_step_empty true little_endian W header_handler_
                      body_handler_ p eq_refl Hok Hstate Hzero) as Hstep.
        rewrite (loop_advances true little_endian W header_handler_
                   body_handler_ fuel p _ Hok Hready' Hstep).
        rewrite (loop_aborts false little_endian W header_handler_
                   body_handler_ fuel p Hok eq_refl Hstate Hzero).
        match goal with
        | |- context [parse_loop true _ _ _ fuel ?p1] =>
          destruct (IH p1) as (q & new & Hr & Hokq & Hsz & Hcalls & _)
        end.
        -- apply parser_ok_facts. cbn [recv_buffer_ current_header_].
           split; assumption.
        -- cbn [recv_buffer_ recv_state_]. lia.
        -- cbn [recv_buffer_ calls] in Hsz, Hcalls.
           exists q, new. cbn [orb]. repeat split; assumption.
      * destruct (body_step false little_endian W header_handler_
                    body_handler_ p Hok Hstate)
          as (rb' & Hstep & F' & Hbuf & Hcase); [fold n; lia|].
        fold n in Hstep, Hcase.
        pose proof (transition_release p _ Hstep) as Hstep'.
        rewrite (loop_advances true little_endian W header_handler_
                   body_handler_ fuel p _ Hok Hready' Hstep').
        rewrite (loop_advances false little_endian W header_handler_
                   body_handler_ fuel p _ Hok Hready' Hstep).
        assert (Hle' : buffered_bytes_ rb' <= buffered_bytes_ (recv_buffer_ p)).
        { destruct (fst (body_handler_ _ n (world p)));
            [destruct Hcase as [-> _]; lia|rewrite Hcase; lia]. }
        pose proof (rf_count _ F') as Hcnt'.
        match goal with
        | |- context [parse_loop true _ _ _ fuel ?p1] =>
          destruct (IH p1) as (q & new & Hr & Hokq & Hsz & Hcalls & Hd)
        end.
        -- apply parser_ok_facts. cbn [recv_buffer_ current_header_].
           split; assumption.
        -- cbn [recv_buffer_ recv_state_]. lia.
        -- cbn [recv_buffer_ calls] in Hsz, Hcalls.
           unfold awaits_empty_body in Hd. cbn [recv_state_ orb] in Hd.
           eexists q, (_ :: new). split; [exact Hr|]. split; [exact Hokq|].
           split; [rewrite Hsz, Hbuf; reflexivity|].
           split; [rewrite Hcalls, <- app_assoc; reflexivity|].
           cbn [orb existsb announces_empty_body]. exact Hd.
Qed.

End Builds.

(** C5, as the code has it.  For a well-formed parser, a valid argument
    span and a sum [buffered + length] below 2^32, the internal write
    returns an error code, and
    - if the code is [ErrBufferOverflow], [HandleData] returns [false] and
      the parser, its ring buffer included, is what it was before;
    - otherwise the build without assertions returns [true], with a
      well-formed parser [q], and so does the build with assertions, with
      the same [q], unless the call meets a header whose body length is
      0: the parser stands in [READ_BODY] for such a header when the call
      starts, or the call completes one (one of the header calls it adds
      is for such a header).  Then, and only then, the assertion of state
      [READ_BODY] stops the call.
    So [false] is returned exactly on the overflow, and every other call
    returns [true] except those stopped in this way. *)
Theorem HandleData_false_iff_overflow (NDEBUG little_endian : bool)
    {PH : ProtoHeader} {W : Type}
    (header_handler_ : list byte -> W -> bool * W)
    (body_handler_ : list byte -> Z -> W -> bool * W)
    (p : StreamingParser W) (data : option (list byte)) (length : Z) :
  parser_ok p = true ->
  valid_span data length = true ->
  buffered_bytes_ (recv_buffer_ p) + length < 2 ^ 32 ->
  exists err rb1,
    write NDEBUG (recv_buffer_ p) data length = Returns (err, rb1)
    /\ ((err = ErrBufferOverflow
         /\ rb1 = recv_buffer_ p
         /\ HandleData NDEBUG little_endian header_handler_ body_handler_
              p data length = Returns (false, p))
        \/ (err <> ErrBufferOverflow
            /\ exists q new,
                 HandleData true little_endian header_handler_ body_handler_
                   p data length = Returns (true, q)
                 /\ parser_ok q = true
                 /\ calls q = calls p ++ new
                 /\ HandleData NDEBUG little_endian header_handler_
                      body_handler_ p data length
                    = if negb NDEBUG
                         && (awaits_empty_body little_endian p
                             || existsb (announces_empty_body little_endian)
                                  new)
                      then Aborts else Returns (true, q))).
Proof.
  intros Hok Hspan Hsum.
  pose proof Hok as Hok'. apply parser_ok_facts in Hok' as [F Hhdr].
  pose proof (rf_count _ F) as Hcnt.
  pose proof (valid_span_facts data length Hspan) as [Hlen Hsrc].
  assert (Hother : forall err rb1,
             write NDEBUG (recv_buffer_ p) data length = Returns (err, rb1) ->
             err <> ErrBufferOverflow ->
             ring_facts rb1 ->
             exists q new,
               HandleData true little_endian header_handler_ body_handler_
                 p data length = Returns (true, q)
               /\ parser_ok q = true
               /\ calls q = calls p ++ new
               /\ HandleData NDEBUG little_endian header_handler_
                    body_handler_ p data length
                  = if negb NDEBUG
                       && (awaits_empty_body little_endian p
                           || existsb (announces_empty_body little_endian)
                                new)
                    then Aborts else Returns (true, q)).
  { intros err rb1 Hw Hne F1.
    assert (Hwr : write true (recv_buffer_ p) data length = Returns (err, rb1))
      by (destruct NDEBUG; [exact Hw|apply write_release; exact Hw]).
    set (p1 := {| recv_state_ := recv_state_ p;
                  current_header_ := current_header_ p;
                  recv_buffer_ := rb1;
                  world := world p;
                  calls := calls p |}).
    assert (Hok1 : parser_ok p1 = true)
      by (apply parser_ok_facts; cbn [p1 recv_buffer_ current_header_];
          split; assumption).
    destruct (loop_builds little_endian W header_handler_ body_handler_
                (loop_budget rb1) p1 Hok1)
      as (q & new & Hr & Hokq & _ & Hcalls & Hd).
    { unfold loop_budget. cbn [p1 recv_buffer_ recv_state_].
      destruct (recv_state_ p); lia. }
    cbn [p1 calls] in Hcalls.
    change (awaits_empty_body little_endian p1)
      with (awaits_empty_body little_endian p) in Hd.
    assert (Herr : error_code_eqb err ErrBufferOverflow = false)
      by (destruct err; [reflexivity|contradiction|reflexivity]).
    exists q, new. split; [|split; [exact Hokq|split; [exact Hcalls|]]].
    - unfold HandleData. rewrite Hwr. cbn [bind]. rewrite Herr.
      fold p1. rewrite Hr. reflexivity.
    - unfold HandleData. rewrite Hw. cbn [bind]. rewrite Herr. fold p1.
      destruct NDEBUG; cbn [negb andb].
      + rewrite Hr. reflexivity.
      + rewrite Hd.
        destruct (awaits_empty_body little_endian p
                  || existsb (announces_empty_body little_endian) new);
          reflexivity. }
  destruct data as [src|].
  - destruct (Z.eq_dec length 0) as [Hz|Hnz].
    + exists ErrInvalidParameter, (recv_buffer_ p).
      assert (Hw : write NDEBUG (recv_buffer_ p) (Some src) length
                   = Returns (ErrInvalidParameter, recv_buffer_ p))
        by (apply write_invalid; right; exact Hz).
      split; [exact Hw|]. right. split; [discriminate|].
      apply (Hother _ _ Hw); [discriminate|exact F].
    + destruct (Z.le_gt_cases (buffered_bytes_ (recv_buffer_ p) + length)
                  (size (buffer_ (recv_buffer_ p)))) as [Hfit|Hover].
      * destruct (write_accepts NDEBUG (recv_buffer_ p) src length F)
          as (rb1 & Hw & F1 & _); [lia|lia|lia|].
        exists Success, rb1. split; [exact Hw|]. right.
        split; [discriminate|].
        apply (Hother _ _ Hw); [discriminate|exact F1].
      * assert (Hw : write NDEBUG (recv_buffer_ p) (Some src) length
                     = Returns (ErrBufferOverflow, recv_buffer_ p))
          by (apply write_rejects; try assumption; lia).
        exists ErrBufferOverflow, (recv_buffer_ p). split; [exact Hw|]. left.
        split; [reflexivity|]. split; [reflexivity|].
        apply HandleData_false_iff. exists (recv_buffer_ p).
        split; [exact Hw|]. symmetry. apply with_own_buffer.
  - exists ErrInvalidParameter, (recv_buffer_ p).
    assert (Hw : write NDEBUG (recv_buffer_ p) None length
                 = Returns (ErrInvalidParameter, recv_buffer_ p))
      by (apply write_invalid; left; reflexivity).
    split; [exact Hw|]. right. split; [discriminate|].
    apply (Hother _ _ Hw); [discriminate|exact F].
Qed.

(** C5 on a parser that holds twelve bytes and is given 2040 more. *)
Lemma HandleData_false_iff_overflow_witness :
  exists err rb1,
    write true (recv_buffer_ (parser_holding (wire_header 2040)))
      (Some (repeat xac 2040)) 2040 = Returns (err, rb1)
    /\ err = ErrBufferOverflow
    /\ test_HandleData true true true (parser_holding (wire_header 2040))
         (Some (repeat xac 2040)) 2040
       = Returns (false, parser_holding (wire_header 2040)).
Proof.
  destruct (HandleData_false_iff_overflow true true (PH := TestHeader)
              (header_says true) (body_says true)
              (parser_holding (wire_header 2040))
              (Some (repeat xac 2040)) 2040)
    as (err & rb1 & Hw & [(Herr & _ & Hrun)|(Hne & _)]).
  - reflexivity.
  - reflexivity.
  - reflexivity.
  - exists err, rb1. split; [exact Hw|]. split; [exact Herr|exact Hrun].
  - exfalso. apply Hne.
    assert (Hw' : write true (recv_buffer_ (parser_holding (wire_header 2040)))
                    (Some (repeat xac 2040)) 2040
                  = Returns (ErrBufferOverflow,
                             recv_buffer_ (parser_holding (wire_header 2040))))
      by (vm_compute; reflexivity).
    rewrite Hw' in Hw. injection Hw as <- _. reflexivity.
Defined.

(** ** C10: the capacity of the parser's ring buffer *)

(** C10, where it fails.  A fresh parser holds no byte.  A call with a
    null pointer and length 4096 has [length + buffered = 4096 > 2048],
    but [write] answers [ErrInvalidParameter], which [HandleData] does not
    take for a failure: it returns [true]. *)
Lemma HandleData_null_is_not_overflow :
  fresh_parser true = Returns (parser_holding [])
  /\ capacity (recv_buffer_ (parser_holding [])) = 2048
  /\ 2048 < 4096 + buffered_bytes_ (recv_buffer_ (parser_holding []))
  /\ test_HandleData true true true (parser_holding []) None 4096
     = Returns (true, parser_holding []).
Proof.
  split; [vm_compute; reflexivity|].
  split; [vm_compute; reflexivity|].
  split; [vm_compute; reflexivity|].
  vm_compute. reflexivity.
Qed.

(** C10, as the code has it.  The constructor gives the parser a
    well-formed empty ring buffer of capacity 2048, [HandleData] never
    changes the capacity, and a call with a non-null pointer whose length
    plus the buffered count exceeds 2048, the sum staying below 2^32,
    returns [false] and leaves the parser, its buffered bytes included, as
    it was. *)
Theorem default_capacity_2048 (NDEBUG little_endian : bool)
    {PH : ProtoHeader} {W : Type}
    (header_handler_ : list byte -> W -> bool * W)
    (body_handler_ : list byte -> Z -> W -> bool * W) :
  (forall (garbage : list byte) (w : W),
      size garbage = protocol_header_length ->
      exists p0,
        StreamingParser_new NDEBUG garbage w = Returns p0
        /\ parser_ok p0 = true
        /\ capacity (recv_buffer_ p0) = 2048
        /\ buffered_bytes_ (recv_buffer_ p0) = 0)
  /\ (forall (p p' : StreamingParser W) (data : option (list byte))
             (length : Z) (r : bool),
         parser_ok p = true ->
         valid_span data length = true ->
         buffered_bytes_ (recv_buffer_ p) + length < 2 ^ 32 ->
         HandleData NDEBUG little_endian header_handler_ body_handler_
           p data length = Returns (r, p') ->
         parser_ok p' = true
         /\ capacity (recv_buffer_ p') = capacity (recv_buffer_ p))
  /\ (forall (p : StreamingParser W) (src : list byte) (length : Z),
         parser_ok p = true ->
         capacity (recv_buffer_ p) = 2048 ->
         valid_span (Some src) length = true ->
         2048 < length + buffered_bytes_ (recv_buffer_ p) < 2 ^ 32 ->
         HandleData NDEBUG little_endian header_handler_ body_handler_
           p (Some src) length = Returns (false, p)).
Proof.
  split; [|split].
  - intros garbage w Hsize.
    assert (Hnew : RingBuffer_default NDEBUG
                   = Returns {| index_mask := 2047; buffer_ := repeat x00 2048;
                                read_index_ := 0; write_index_ := 0;
                                buffered_bytes_ := 0 |})
      by (destruct NDEBUG; vm_compute; reflexivity).
    unfold StreamingParser_new. rewrite Hnew. cbn [bind].
    eexists. split; [reflexivity|].
    split; [|split; reflexivity].
    unfold parser_ok. cbn [recv_buffer_ current_header_].
    apply andb_true_intro. split; [vm_compute; reflexivity|].
    apply Z.eqb_eq. exact Hsize.
  - intros p p' data length r Hok Hspan Hsum Hrun.
    pose proof Hok as Hok'. apply parser_ok_facts in Hok' as [F _].
    destruct (HandleData_total NDEBUG little_endian W header_handler_
                body_handler_ p data length Hok Hspan Hsum)
      as [(r1 & p1 & Hrun1 & Hok1 & Hsz)|[_ Habort]].
    + rewrite Hrun in Hrun1. injection Hrun1 as <- <-.
      split; [exact Hok1|].
      pose proof Hok1 as Hok2. apply parser_ok_facts in Hok2 as [F1 _].
      rewrite !capacity_size by assumption. exact Hsz.
    + rewrite Hrun in Habort. discriminate.
  - intros p src length Hok Hcap Hspan Hsum.
    pose proof Hok as Hok'. apply parser_ok_facts in Hok' as [F _].
    pose proof (rf_count _ F) as Hcnt.
    rewrite (capacity_size _ F) in Hcap.
    apply HandleData_false_iff. exists (recv_buffer_ p).
    split; [|symmetry; apply with_own_buffer].
    apply write_rejects; try assumption; lia.
Qed.

(** C10 on a parser that holds twelve bytes and is given 2040 more. *)
Lemma default_capacity_2048_witness :
  test_HandleData false true true (parser_holding (wire_header 2040))
    (Some (repeat xac 2040)) 2040
  = Returns (false, parser_holding (wire_header 2040)).
Proof.
  apply (default_capacity_2048 false true (PH := TestHeader)
           (header_says true) (body_says true)).
  - reflexivity.
  - reflexivity.
  - reflexivity.
  - vm_compute. split; reflexivity.
Defined.

(** ** C1: a body handler that declines *)

(** In general: when the body handler declines, the ring buffer is left
    alone, but the transition does not report "waiting", the state goes
    back to [READ_HEADER] and the pending length is set to 0. *)
Lemma declined_body_moves_on (NDEBUG little_endian : bool)
    {PH : ProtoHeader} {W : Type}
    (header_handler_ : list byte -> W -> bool * W)
    (body_handler_ : list byte -> Z -> W -> bool * W)
    (p : StreamingParser W) :
  parser_ok p = true ->
  recv_state_ p = READ_BODY ->
  let n := body_length little_endian (current_header_ p) in
  0 < n <= buffered_bytes_ (recv_buffer_ p) ->
  let view := firstn (Z.to_nat n) (contents (recv_buffer_ p)) in
  fst (body_handler_ view n (world p)) = false ->
  exists p',
    PerformStreamingParse NDEBUG little_endian header_handler_ body_handler_ p
    = Returns (false, p')
    /\ recv_state_ p' = READ_HEADER
    /\ body_length little_endian (current_header_ p') = 0
    /\ recv_buffer_ p' = recv_buffer_ p
    /\ calls p' = calls p ++ [BodyCall view n].
Proof.
  intros Hok Hstate n Hn view Hdecl.
  pose proof Hok as Hok'. apply parser_ok_facts in Hok' as [F Hhdr].
  pose proof header_shape as Hs.
  destruct (body_step NDEBUG little_endian W header_handler_ body_handler_
              p Hok Hstate) as (rb' & Hstep & _ & _ & Hcase); [exact Hn|].
  fold n in Hstep, Hcase. fold view in Hstep, Hcase.
  rewrite Hdecl in Hcase. subst rb'.
  eexists. split; [exact Hstep|].
  cbn [recv_state_ current_header_ recv_buffer_ calls].
  split; [reflexivity|]. split; [|split; reflexivity].
  rewrite body_length_set by lia. apply Z.mod_0_l.
  apply Z.pow_nonzero; lia.
Qed.

(** C1, at inputs where the code departs from the claim; the body handler
    of the parser returns [false].

    First input: a header announcing three bytes and the three bytes, in
    one call.  The body handler is shown the three bytes and declines.
    The ring buffer keeps them, as claimed, but the parser does not stay
    in [READ_BODY] with a pending length of 3: the call ends in state
    [READ_HEADER] with the length field set to 0.

    Second input: a header announcing twelve bytes and the twelve bytes.
    After the body handler has declined, the loop does not stop: the
    twelve declined bytes are read as the next header, the header handler
    is called on them, and they are gone from the ring buffer. *)
Theorem declined_body_is_not_retried (NDEBUG : bool) :
  (exists p1 p2,
      test_HandleData NDEBUG true false (parser_holding [])
        (Some (wire_header 3 ++ [x01; x02; x03])) 15 = Returns (true, p1)
      /\ calls p1 = [HeaderCall ([x55; xaa; x55; xbb] ++ [x03; x00; x00; x00]
                                   ++ [xff; xff; x00; x00]);
                     BodyCall [x01; x02; x03] 3]
      /\ contents (recv_buffer_ p1) = [x01; x02; x03]
      /\ recv_state_ p1 = READ_HEADER
      /\ body_length true (PH := TestHeader) (current_header_ p1) = 0
      /\ test_HandleData NDEBUG true false p1 (Some [x04]) 1 = Returns (true, p2)
      /\ calls p2 = calls p1
      /\ recv_state_ p2 = READ_HEADER)
  /\ (exists p1,
         test_HandleData NDEBUG true false (parser_holding [])
           (Some (wire_header 12 ++ repeat xac 12)) 24 = Returns (true, p1)
         /\ calls p1 = [HeaderCall ([x55; xaa; x55; xbb] ++ [x0c; x00; x00; x00]
                                      ++ [xff; xff; x00; x00]);
                        BodyCall (repeat xac 12) 12;
                        HeaderCall (repeat xac 12)]
         /\ contents (recv_buffer_ p1) = []
         /\ recv_state_ p1 = READ_BODY).
Proof.
  split.
  - destruct NDEBUG.
    + eexists. eexists. split; [vm_compute; reflexivity|].
      do 4 (split; [vm_compute; reflexivity|]).
      split; [vm_compute; reflexivity|].
      split; vm_compute; reflexivity.
    + eexists. eexists. split; [vm_compute; reflexivity|].
      do 4 (split; [vm_compute; reflexivity|]).
      split; [vm_compute; reflexivity|].
      split; vm_compute; reflexivity.
  - destruct NDEBUG.
    + eexists. split; [vm_compute; reflexivity|].
      split; [vm_compute; reflexivity|].
      split; vm_compute; reflexivity.
    + eexists. split; [vm_compute; reflexivity|].
      split; [vm_compute; reflexivity|].
      split; vm_compute; reflexivity.
Qed.

(** ** C9: a header that announces an empty body *)

(** C9, where it fails.  Without assertions, a header with body length 0
    followed by a frame with a one-byte body: both headers reach the
    header handler and the body reaches the body handler, so the parser
    went on after the empty frame.  With assertions, the call that
    completes the first header does not return at all. *)
Lemma empty_body_does_not_stall :
  (exists p',
      test_feed true true true (parser_holding [])
        [wire_header 0; wire_header 1 ++ [x07]] = Returns ([true; true], p')
      /\ calls p' = [HeaderCall ([x55; xaa; x55; xbb] ++ [x00; x00; x00; x00]
                                   ++ [xff; xff; x00; x00]);
                     HeaderCall ([x55; xaa; x55; xbb] ++ [x01; x00; x00; x00]
                                   ++ [xff; xff; x00; x00]);
                     BodyCall [x07] 1]
      /\ recv_state_ p' = READ_HEADER
      /\ contents (recv_buffer_ p') = [])
  /\ test_HandleData false true true (parser_holding [])
       (Some (wire_header 0)) 12 = Aborts.
Proof.
  split.
  - eexists. split; [vm_compute; reflexivity|].
    split; [vm_compute; reflexivity|].
    split; vm_compute; reflexivity.
  - vm_compute. reflexivity.
Qed.

(** C9, as the code has it.  The parser is in state [READ_HEADER] and a
    call of [HandleData] brings the last bytes of a header whose length
    field reads 0.  In a build with assertions the call is stopped by the
    assertion of state [READ_BODY], whatever follows the header in the
    chunk.  Without assertions, when nothing follows the header in the
    chunk, the call returns [true]: the header handler has been called
    once on the converted header, the body handler has not been called,
    the ring buffer is empty, and the parser is in state [READ_HEADER]
    again, ready for the next frame. *)
Theorem empty_body_aborts_or_is_skipped (NDEBUG little_endian : bool)
    {PH : ProtoHeader} {W : Type}
    (header_handler_ : list byte -> W -> bool * W)
    (body_handler_ : list byte -> Z -> W -> bool * W)
    (p : StreamingParser W) (chunk : list byte) :
  parser_ok p = true ->
  recv_state_ p = READ_HEADER ->
  let stream := contents (recv_buffer_ p) ++ chunk in
  let wire := firstn (Z.to_nat protocol_header_length) stream in
  protocol_header_length <= size stream <= capacity (recv_buffer_ p) ->
  decode_be (body_length_field wire) = 0 ->
  let header := DoBytesOrderConversion little_endian wire in
  (NDEBUG = false ->
   HandleData NDEBUG little_endian header_handler_ body_handler_
     p (Some chunk) (size chunk) = Aborts)
  /\ (NDEBUG = true ->
      size stream = protocol_header_length ->
      exists p',
        HandleData NDEBUG little_endian header_handler_ body_handler_
          p (Some chunk) (size chunk) = Returns (true, p')
        /\ recv_state_ p' = READ_HEADER
        /\ calls p' = calls p ++ [HeaderCall header]
        /\ world p' = snd (header_handler_ header (world p))
        /\ contents (recv_buffer_ p') = []
        /\ parser_ok p' = true).
Proof.
  intros Hok Hstate stream wire Hsize Hzero header.
  pose proof Hok as Hok'. apply parser_ok_facts in Hok' as [F Hhdr].
  pose proof (rf_count _ F) as Hcnt.
  pose proof header_shape as Hs.
  rewrite (capacity_size _ F) in Hsize.
  assert (Hb : size (contents (recv_buffer_ p)) = buffered_bytes_ (recv_buffer_ p))
    by (apply size_contents; lia).
  assert (Hstream : size stream
                    = buffered_bytes_ (recv_buffer_ p) + size chunk).
  { unfold stream. rewrite size_app, Hb. reflexivity. }
  destruct (HandleData_takes_chunk NDEBUG little_endian W header_handler_
              body_handler_ p chunk Hok)
    as (rb1 & F1 & Hsz1 & Hcnt1 & Hcont1 & Hrun); [lia|].
  fold stream in Hcont1.
  set (p1 := {| recv_state_ := recv_state_ p;
                current_header_ := current_header_ p;
                recv_buffer_ := rb1; world := world p; calls := calls p |}) in *.
  assert (Hok1 : parser_ok p1 = true).
  { apply parser_ok_facts. split; assumption. }
  (* the budget allows three iterations *)
  assert (Hfuel : exists fuel, loop_budget rb1 = S (S (S fuel))).
  { unfold loop_budget. exists (2 * Z.to_nat (buffered_bytes_ rb1) - 1)%nat. lia. }
  destruct Hfuel as [fuel Hfuel]. rewrite Hfuel in Hrun.
  (* first iteration: the header *)
  destruct (header_step NDEBUG little_endian W header_handler_ body_handler_ p1
              Hok1 Hstate) as (rb2 & Hstep & F2 & Hbuf2 & Hcnt2 & Hcont2).
  { cbn [p1 recv_buffer_]. lia. }
  cbn [p1 recv_buffer_ world calls] in Hstep, Hcnt2, Hcont2.
  rewrite Hcont1 in Hstep. fold wire in Hstep. fold header in Hstep.
  set (p2 := {| recv_state_ := READ_BODY;
                current_header_ := header;
                recv_buffer_ := rb2;
                world := snd (header_handler_ header (world p));
                calls := calls p ++ [HeaderCall header] |}) in *.
  assert (Hwire : size wire = protocol_header_length).
  { unfold wire. apply size_firstn. lia. }
  assert (Hheader : size header = protocol_header_length).
  { unfold header. rewrite size_DoBytesOrderConversion; lia. }
  assert (Hok2 : parser_ok p2 = true).
  { apply parser_ok_facts. split; assumption. }
  assert (Hlen2 : body_length little_endian (current_header_ p2) = 0).
  { cbn [p2 current_header_]. unfold header.
    rewrite body_length_converted by lia. exact Hzero. }
  rewrite (loop_advances NDEBUG little_endian W header_handler_ body_handler_
             (S (S fuel)) p1 p2 Hok1) in Hrun;
    [|cbn [p1 recv_state_ recv_buffer_]; rewrite Hstate; lia|exact Hstep].
  split.
  - (* with assertions *)
    intros Hdbg. rewrite Hrun.
    rewrite (loop_aborts NDEBUG little_endian W header_handler_ body_handler_
               (S fuel) p2 Hok2 Hdbg eq_refl Hlen2).
    reflexivity.
  - (* without *)
    intros Hrel Hexact.
    pose proof (body_step_empty NDEBUG little_endian W header_handler_
                  body_handler_ p2 Hrel Hok2 eq_refl Hlen2) as Hstep2.
    cbn [p2 current_header_ recv_buffer_ world calls] in Hstep2.
    set (p3 := {| recv_state_ := READ_HEADER;
                  current_header_ := set_body_length little_endian header 0;
                  recv_buffer_ := rb2;
                  world := snd (header_handler_ header (world p));
                  calls := calls p ++ [HeaderCall header] |}) in *.
    assert (Hok3 : parser_ok p3 = true).
    { apply parser_ok_facts. split; [exact F2|].
      cbn [p3 current_header_]. rewrite size_set_body_length; lia. }
    rewrite (loop_advances NDEBUG little_endian W header_handler_ body_handler_
               (S fuel) p2 p3 Hok2) in Hrun;
      [|cbn [p2 recv_state_]; rewrite Hlen2; pose proof (rf_count _ F2);
        cbn [p2 recv_buffer_]; lia|exact Hstep2].
    rewrite (loop_waits NDEBUG little_endian W header_handler_ body_handler_
               fuel p3 Hok3) in Hrun by (cbn [p3 recv_state_ recv_buffer_]; lia).
    cbn [bind] in Hrun.
    exists p3. split; [exact Hrun|]. split; [reflexivity|].
    split; [reflexivity|]. split; [reflexivity|]. split; [|exact Hok3].
    cbn [p3 recv_buffer_]. rewrite Hcont2, Hcont1.
    apply skipn_all2. unfold size in Hexact. lia.
Qed.

(** C9 in a build with assertions: three bytes of the header are
    buffered, the call brings the other nine. *)
Lemma empty_body_aborts_or_is_skipped_witness :
  test_HandleData false true true (parser_holding [x55; xaa; x55])
    (Some ([xbb] ++ [x00; x00; x00; x00] ++ [xff; xff; x00; x00])) 9 = Aborts.
Proof.
  apply (empty_body_aborts_or_is_skipped false true (PH := TestHeader)
           (header_says true) (body_says true)
           (parser_holding [x55; xaa; x55])
           ([xbb] ++ [x00; x00; x00; x00] ++ [xff; xff; x00; x00])).
  - reflexivity.
  - reflexivity.
  - vm_compute. split; discriminate.
  - reflexivity.
  - reflexivity.
Defined.

(** ** C2: delivery does not depend on how the stream is cut *)

Lemma split_at_header (seen rest wire body : list byte) (n : Z) :
  seen ++ rest = wire ++ body ->
  size wire = n -> n <= size seen ->
  firstn (Z.to_nat n) seen = wire
  /\ skipn (Z.to_nat n) seen ++ rest = body.
Proof.
  intros Heq Hw Hn. unfold size in *.
  assert (Hlen : Z.to_nat n = length wire) by lia.
  split.
  - assert (H : firstn (Z.to_nat n) (seen ++ rest)
                = firstn (Z.to_nat n) (wire ++ body)) by (rewrite Heq; reflexivity).
    rewrite !firstn_app in H.
    replace (Z.to_nat n - length seen)%nat with 0%nat in H by lia.
    replace (Z.to_nat n - length wire)%nat with 0%nat in H by lia.
    cbn [firstn] in H. rewrite !app_nil_r in H.
    rewrite H, Hlen. apply firstn_all.
  - assert (H : skipn (Z.to_nat n) (seen ++ rest)
                = skipn (Z.to_nat n) (wire ++ body)) by (rewrite Heq; reflexivity).
    rewrite !skipn_app in H.
    replace (Z.to_nat n - length seen)%nat with 0%nat in H by lia.
    replace (Z.to_nat n - length wire)%nat with 0%nat in H by lia.
    cbn [skipn] in H. rewrite H, Hlen, skipn_all. reflexivity.
Qed.

Section Fragmentation.

Variable NDEBUG : bool.
Variable little_endian : bool.
Context {PH : ProtoHeader}.
Variable W : Type.
Variable header_handler_ : list byte -> W -> bool * W.
Variable body_handler_ : list byte -> Z -> W -> bool * W.
Variables wire body : list byte.
Variable p0 : StreamingParser W.

Hypothesis body_accepted : forall data length w, fst (body_handler_ data length w) = true.
Hypothesis wire_size : size wire = protocol_header_length.
Hypothesis body_size : 0 < size body.
Hypothesis wire_length : decode_be (body_length_field wire) = size body.

Local Abbreviation header := (DoBytesOrderConversion little_endian wire).
Local Abbreviation stands :=
(pending little_endian header_handler_ body_handler_ wire body p0).
Local Abbreviation loop :=
(parse_loop NDEBUG little_endian header_handler_ body_handler_).

Lemma header_announces_body : body_length little_endian header = size body.
Proof.
pose proof header_shape.
rewrite body_length_converted by lia. exact wire_length.
Qed.

(** From any of the three stands the loop settles, within three
  iterations, in a stand where it has nothing to do. *)
Lemma loop_settles (seen rest : list byte) (p : StreamingParser W) (fuel : nat) :
parser_ok p = true ->
stands seen p ->
seen ++ rest = wire ++ body ->
(1 <= fuel)%nat ->
(0 < buffered_bytes_ (recv_buffer_ p) -> (3 <= fuel)%nat) ->
exists p',
  loop fuel p = Returns p'
  /\ parser_ok p' = true
  /\ buffer_ (recv_buffer_ p') = buffer_ (recv_buffer_ p)
  /\ stands seen p'
  /\ waits little_endian p'.
Proof.
intros Hok Hstand Hcut Hfuel1 Hfuel3.
pose proof header_shape as Hs.
pose proof Hok as Hok'. apply parser_ok_facts in Hok' as [F Hhdr].
pose proof (rf_count _ F) as Hcnt.
pose proof (size_contents (recv_buffer_ p) ltac:(lia)) as Hb.
assert (Hseen : size seen + size rest = protocol_header_length + size body).
{ rewrite <- size_app, Hcut, size_app. lia. }
pose proof (size_nonneg rest) as Hrest.
(* the last iteration: nothing to do *)
assert (Hdone : forall q f,
           parser_ok q = true -> stands seen q -> waits little_endian q ->
           buffer_ (recv_buffer_ q) = buffer_ (recv_buffer_ p) ->
           exists p', loop (S f) q = Returns p' /\ parser_ok p' = true
                      /\ buffer_ (recv_buffer_ p') = buffer_ (recv_buffer_ p)
                      /\ stands seen p' /\ waits little_endian p').
{ intros q f Hq Hsq Hwq Hbq. exists q.
  rewrite loop_waits by assumption. auto. }
(* from state READ_BODY with the header of the message *)
assert (Hbody : forall q f,
           parser_ok q = true ->
           recv_state_ q = READ_BODY ->
           stands seen q ->
           buffer_ (recv_buffer_ q) = buffer_ (recv_buffer_ p) ->
           exists p', loop (S (S f)) q = Returns p' /\ parser_ok p' = true
                      /\ buffer_ (recv_buffer_ p') = buffer_ (recv_buffer_ p)
                      /\ stands seen p' /\ waits little_endian p').
{ intros q f Hq Hstate Hsq Hbq.
  destruct Hsq as [Hst|Hst Hcur Hlen Hcont Hcalls Hworld|Hst]; try congruence.
  pose proof Hq as Hq'. apply parser_ok_facts in Hq' as [Fq Hhq].
  pose proof (rf_count _ Fq) as Hcq.
  pose proof (size_contents (recv_buffer_ q) ltac:(lia)) as Hbq'.
  destruct (split_at_header seen rest wire body protocol_header_length
              Hcut wire_size Hlen) as [Hfront Hback].
  assert (Hn : body_length little_endian (current_header_ q) = size body).
  { rewrite Hcur. apply header_announces_body. }
  assert (Hsk : size (skipn (Z.to_nat protocol_header_length) seen)
                = size seen - protocol_header_length)
    by (apply size_skipn; lia).
  rewrite Hcont, Hsk in Hbq'.
  destruct (Z.lt_ge_cases (buffered_bytes_ (recv_buffer_ q)) (size body))
    as [Hshort|Hready].
  - apply Hdone; try assumption.
    + apply pending_body; assumption.
    + unfold waits. rewrite Hstate, Hn. exact Hshort.
  - assert (Hrest0 : rest = []).
    { destruct rest; [reflexivity|]. unfold size in *. simpl in *. lia. }
    rewrite Hrest0, app_nil_r in Hback.
    destruct (body_step NDEBUG little_endian W header_handler_ body_handler_
                q Hq Hstate) as (rb' & Hstep & F' & Hbuf & Hcase);
      [rewrite Hn; lia|].
    rewrite Hn, Hcont, Hback in Hstep, Hcase.
    rewrite firstn_all2 in Hstep, Hcase by (unfold size; lia).
    rewrite body_accepted in Hcase. destruct Hcase as [Hcnt' Hcont'].
    rewrite (loop_advances NDEBUG little_endian W header_handler_
               body_handler_ (S f) q _ Hq)
      by (rewrite ?Hstate, ?Hn; try eassumption; lia).
    apply Hdone.
    + apply parser_ok_facts. cbn [recv_buffer_ current_header_].
      split; [exact F'|]. rewrite size_set_body_length; lia.
    + apply pending_done; cbn [recv_state_ recv_buffer_ calls world].
      * reflexivity.
      * rewrite Hrest0 in Hseen. change (size []) with 0 in Hseen. lia.
      * rewrite Hcont'. apply skipn_all2. unfold size. lia.
      * rewrite Hcalls, <- app_assoc. reflexivity.
      * rewrite Hworld. reflexivity.
    + unfold waits. cbn [recv_state_ recv_buffer_]. lia.
    + cbn [recv_buffer_]. congruence. }
destruct Hstand as [Hst Hcont Hcalls Hworld|Hst Hcur Hlen Hcont Hcalls Hworld
                    |Hst Hlen Hcont Hcalls Hworld].
- (* nothing parsed yet *)
  rewrite Hcont in Hb.
  destruct (Z.lt_ge_cases (buffered_bytes_ (recv_buffer_ p))
              protocol_header_length) as [Hshort|Hready].
  + destruct fuel as [|f]; [lia|].
    apply Hdone; try assumption; try reflexivity.
    * apply pending_header; assumption.
    * unfold waits. rewrite Hst. exact Hshort.
  + destruct fuel as [|[|[|f]]]; try lia.
    destruct (split_at_header seen rest wire body protocol_header_length
                Hcut wire_size) as [Hfront Hback]; [lia|].
    destruct (header_step NDEBUG little_endian W header_handler_ body_handler_
                p Hok Hst Hready) as (rb' & Hstep & F' & Hbuf & Hcnt' & Hcont').
    rewrite Hcont, Hfront in Hstep.
    rewrite (loop_advances NDEBUG little_endian W header_handler_
               body_handler_ (S (S f)) p _ Hok)
      by (rewrite ?Hst; eassumption).
    apply Hbody.
    * apply parser_ok_facts. cbn [recv_buffer_ current_header_].
      split; [exact F'|]. rewrite size_DoBytesOrderConversion; lia.
    * reflexivity.
    * apply pending_body; cbn [recv_state_ current_header_ recv_buffer_ calls world];
        try reflexivity; try lia.
      -- rewrite Hcont', Hcont. reflexivity.
      -- rewrite Hcalls. reflexivity.
      -- rewrite Hworld. reflexivity.
    * cbn [recv_buffer_]. exact Hbuf.
- (* the header parsed *)
  assert (Hsk : size (skipn (Z.to_nat protocol_header_length) seen)
                = size seen - protocol_header_length)
    by (apply size_skipn; lia).
  rewrite Hcont, Hsk in Hb.
  destruct (Z.eq_dec (buffered_bytes_ (recv_buffer_ p)) 0) as [Hempty|Hsome].
  + destruct fuel as [|f]; [lia|].
    apply Hdone; try assumption; try reflexivity.
    * apply pending_body; assumption.
    * unfold waits. rewrite Hst, Hcur, header_announces_body. lia.
  + destruct fuel as [|[|f]]; try lia.
    apply Hbody; try assumption; try reflexivity.
    apply pending_body; assumption.
- (* the frame delivered *)
  destruct fuel as [|f]; [lia|].
  rewrite Hcont in Hb. change (size []) with 0 in Hb.
  apply Hdone; try assumption; try reflexivity.
  + apply pending_done; assumption.
  + unfold waits. rewrite Hst. lia.
Qed.

(** Chunk after chunk, [HandleData] returns [true] and the parser comes
  to rest in the stand that belongs to the bytes delivered so far. *)
Lemma feed_delivers (chunks : list (list byte)) :
forall (seen : list byte) (p : StreamingParser W),
  parser_ok p = true ->
  protocol_header_length + size body <= size (buffer_ (recv_buffer_ p)) ->
  stands seen p ->
  waits little_endian p ->
  seen ++ concat chunks = wire ++ body ->
  exists rs p',
    feed NDEBUG little_endian header_handler_ body_handler_ p chunks
    = Returns (rs, p')
    /\ length rs = length chunks
    /\ Forall (fun r => r = true) rs
    /\ parser_ok p' = true
    /\ stands (wire ++ body) p'
    /\ waits little_endian p'.
Proof.
induction chunks as [|chunk more IH]; intros seen p Hok Hcap Hstand Hwait Hcut.
- cbn [feed concat] in *. rewrite app_nil_r in Hcut. subst seen.
  exists [], p. repeat split; try assumption. constructor.
- cbn [feed concat] in *.
  pose proof header_shape as Hs.
  pose proof Hok as Hok'. apply parser_ok_facts in Hok' as [F Hhdr].
  pose proof (rf_count _ F) as Hcnt.
  pose proof (size_contents (recv_buffer_ p) ltac:(lia)) as Hb.
  pose proof (size_nonneg chunk) as Hchunk.
  pose proof (size_nonneg (concat more)) as Hmore.
  pose proof (size_nonneg seen) as Hseen0.
  assert (Hsizes : size seen + size chunk + size (concat more)
                   = protocol_header_length + size body).
  { rewrite <- !size_app, <- app_assoc, Hcut, size_app. lia. }
  assert (Hheld : buffered_bytes_ (recv_buffer_ p) <= size seen).
  { destruct Hstand as [_ Hcont _ _|_ _ Hlen Hcont _ _|_ _ Hcont _ _];
      rewrite Hcont in Hb.
    - lia.
    - rewrite size_skipn in Hb by lia. lia.
    - change (size []) with 0 in Hb. lia. }
  destruct (HandleData_takes_chunk NDEBUG little_endian W header_handler_
              body_handler_ p chunk Hok)
    as (rb1 & F1 & Hsz1 & Hcnt1 & Hcont1 & Hrun); [lia|].
  set (p1 := {| recv_state_ := recv_state_ p;
                current_header_ := current_header_ p;
                recv_buffer_ := rb1; world := world p; calls := calls p |}) in *.
  assert (Hok1 : parser_ok p1 = true).
  { apply parser_ok_facts. split; assumption. }
  assert (Hstand1 : stands (seen ++ chunk) p1).
  { destruct Hstand as [Hst Hcont Hcalls Hworld
                       |Hst Hcur Hlen Hcont Hcalls Hworld
                       |Hst Hlen Hcont Hcalls Hworld].
    - apply pending_header; cbn [p1 recv_state_ recv_buffer_ calls world];
        try assumption. rewrite Hcont1, Hcont. reflexivity.
    - apply pending_body;
        cbn [p1 recv_state_ current_header_ recv_buffer_ calls world];
        try assumption.
      + rewrite size_app. lia.
      + rewrite Hcont1, Hcont, skipn_app.
        replace (Z.to_nat protocol_header_length - length seen)%nat
          with 0%nat by (unfold size in Hlen; lia).
        reflexivity.
    - assert (chunk = []) as ->.
      { destruct chunk; [reflexivity|]. unfold size in *. simpl in *. lia. }
      apply pending_done; cbn [p1 recv_state_ recv_buffer_ calls world];
        try assumption.
      + rewrite app_nil_r. exact Hlen.
      + rewrite Hcont1, Hcont. reflexivity. }
  destruct (loop_settles (seen ++ chunk) (concat more) p1 (loop_budget rb1)
              Hok1 Hstand1)
    as (p2 & Hloop & Hok2 & Hbuf2 & Hstand2 & Hwait2).
  { rewrite <- app_assoc. exact Hcut. }
  { unfold loop_budget. lia. }
  { cbn [p1 recv_buffer_]. unfold loop_budget. lia. }
  rewrite Hrun, Hloop. cbn [bind].
  destruct (IH (seen ++ chunk) p2 Hok2) as (rs & p' & Hfeed & Hlen' & Hall & Hrest);
    try assumption.
  { rewrite Hbuf2. cbn [p1 recv_buffer_]. rewrite Hsz1. exact Hcap. }
  { rewrite <- app_assoc. exact Hcut. }
  rewrite Hfeed. cbn [bind].
  exists (true :: rs), p'. split; [reflexivity|].
  split; [cbn [length]; lia|]. split; [constructor; auto|exact Hrest].
Qed.

End Fragmentation.

(** C2, where it fails.  The message is a header announcing 2037 bytes
    and the 2037 bytes, 2049 bytes in all, one more than the ring buffer
    of the parser holds.  Delivered in one call it is refused: the call
    returns [false] and no handler is called.  Delivered as the header
    and then the body, both handlers are called. *)
Lemma delivery_depends_on_chunks_beyond_capacity :
  test_feed true true true (parser_holding [])
    [wire_header 2037 ++ repeat xac 2037]
  = Returns ([false], parser_holding [])
  /\ calls (parser_holding []) = []
  /\ exists p',
       test_feed true true true (parser_holding [])
         [wire_header 2037; repeat xac 2037] = Returns ([true; true], p')
       /\ calls p' = [HeaderCall ([x55; xaa; x55; xbb] ++ [xf5; x07; x00; x00]
                                    ++ [xff; xff; x00; x00]);
                      BodyCall (repeat xac 2037) 2037].
Proof.
  split; [vm_compute; reflexivity|]. split; [reflexivity|].
  eexists. split; vm_compute; reflexivity.
Qed.

(** C2, as the code has it.  A parser in state [READ_HEADER] with an
    empty, well-formed ring buffer is given a message: a header whose length field
    reads, in network order, the size of a non-empty body, and that body,
    the two together no longer than the capacity of the ring buffer.  The
    body handler accepts whatever it is shown; what the header handler
    returns plays no role.  However the message is cut into chunks, empty
    ones included, every [HandleData] call returns [true], and after the
    last one the handlers have been called exactly twice: the header
    handler on the converted header, whose length field now reads the size
    of the body, and then the body handler on the body.  The parser is
    back in [READ_HEADER] with an empty buffer.  Nothing in the outcome
    depends on the cut, the cut into a single chunk included. *)
Theorem delivery_independent_of_chunks (NDEBUG little_endian : bool)
    {PH : ProtoHeader} {W : Type}
    (header_handler_ : list byte -> W -> bool * W)
    (body_handler_ : list byte -> Z -> W -> bool * W)
    (p0 : StreamingParser W) (wire body : list byte)
    (chunks : list (list byte)) :
  parser_ok p0 = true ->
  recv_state_ p0 = READ_HEADER ->
  buffered_bytes_ (recv_buffer_ p0) = 0 ->
  (forall data length w, fst (body_handler_ data length w) = true) ->
  size wire = protocol_header_length ->
  0 < size body ->
  decode_be (body_length_field wire) = size body ->
  size wire + size body <= capacity (recv_buffer_ p0) ->
  concat chunks = wire ++ body ->
  let header := DoBytesOrderConversion little_endian wire in
  exists rs p',
    feed NDEBUG little_endian header_handler_ body_handler_ p0 chunks
    = Returns (rs, p')
    /\ length rs = length chunks
    /\ Forall (fun r => r = true) rs
    /\ calls p' = calls p0 ++ [HeaderCall header; BodyCall body (size body)]
    /\ body_length little_endian header = size body
    /\ world p'
       = snd (body_handler_ body (size body)
                (snd (header_handler_ header (world p0))))
    /\ recv_state_ p' = READ_HEADER
    /\ buffered_bytes_ (recv_buffer_ p') = 0.
Proof.
  intros Hok Hstate Hempty Haccept Hwire Hbody Hfield Hcap Hcut header.
  pose proof header_shape as Hs.
  pose proof Hok as Hok'. apply parser_ok_facts in Hok' as [F Hhdr].
  rewrite (capacity_size _ F) in Hcap.
  assert (Hnil : contents (recv_buffer_ p0) = []).
  { unfold contents. rewrite Hempty. reflexivity. }
  destruct (feed_delivers NDEBUG little_endian W header_handler_ body_handler_
              wire body p0 Haccept Hwire Hbody Hfield chunks [] p0 Hok)
    as (rs & p' & Hfeed & Hlen & Hall & Hok1 & Hstand & Hwait).
  - lia.
  - apply pending_header; try reflexivity; assumption.
  - unfold waits. rewrite Hstate. lia.
  - exact Hcut.
  - exists rs, p'. split; [exact Hfeed|]. split; [exact Hlen|].
    split; [exact Hall|].
    pose proof Hok1 as Hok2. apply parser_ok_facts in Hok2 as [F1 _].
    pose proof (rf_count _ F1) as Hcnt1.
    pose proof (size_contents (recv_buffer_ p') ltac:(lia)) as Hb.
    assert (Hann : body_length little_endian header = size body).
    { unfold header. rewrite body_length_converted by lia. exact Hfield. }
    unfold waits in Hwait.
    destruct Hstand as [Hst Hcont Hcalls Hworld
                       |Hst Hcur Hlen' Hcont Hcalls Hworld
                       |Hst Hlen' Hcont Hcalls Hworld].
    + exfalso. rewrite Hst in Hwait. rewrite Hcont, size_app in Hb. lia.
    + exfalso. rewrite Hst, Hcur in Hwait. fold header in Hwait.
      rewrite Hann in Hwait.
      rewrite Hcont, size_skipn, size_app in Hb by (rewrite ?size_app; lia).
      lia.
    + rewrite Hcont in Hb. change (size []) with 0 in Hb.
      split; [exact Hcalls|]. split; [exact Hann|].
      split; [exact Hworld|]. split; [exact Hst|]. lia.
Qed.

(** C2 on the message of [parser_read_fuzzing], a header and 100 bytes,
    cut after byte 3 of the header and after byte 57 of the body. *)
Lemma delivery_independent_of_chunks_witness :
  exists rs p',
    test_feed false true true (parser_holding [])
      [firstn 3 (wire_header 100); skipn 3 (wire_header 100);
       repeat xac 57; repeat xac 43] = Returns (rs, p')
    /\ calls p' = [HeaderCall (DoBytesOrderConversion true (PH := TestHeader)
                                 (wire_header 100));
                   BodyCall (repeat xac 100) 100].
Proof.
  destruct (delivery_independent_of_chunks false true (PH := TestHeader)
              (header_says true) (body_says true) (parser_holding [])
              (wire_header 100) (repeat xac 100)
              [firstn 3 (wire_header 100); skipn 3 (wire_header 100);
               repeat xac 57; repeat xac 43])
    as (rs & p' & Hfeed & _ & _ & Hcalls & _).
  - reflexivity.
  - reflexivity.
  - reflexivity.
  - intros data length w. reflexivity.
  - reflexivity.
  - reflexivity.
  - reflexivity.
  - vm_compute. discriminate.
  - reflexivity.
  - exists rs, p'. split; [exact Hfeed|exact Hcalls].
Defined.

(** * Further properties of the code *)

(** ** The constructor and its macro *)

Lemma power_of_two_passes (k : Z) :
  0 <= k < 32 -> IS_POWER_OF_TWO (2 ^ k) = true.
Proof.
  intros Hk.
  assert (Hpos : 0 < 2 ^ k) by (apply Z.pow_pos_nonneg; lia).
  assert (Hmax : 2 ^ k < 2 ^ 32) by (apply Z.pow_lt_mono_r; lia).
  unfold IS_POWER_OF_TWO. apply andb_true_intro. split.
  - apply negb_true_iff, Z.eqb_neq. lia.
  - rewrite to_uint32_small by lia. apply Z.eqb_eq.
    replace (2 ^ k - 1) with (Z.ones k) by (rewrite Z.ones_equiv; lia).
    rewrite Z.land_ones by lia. apply Z.mod_same. lia.
Qed.

(** X1.  On [uint32_t] values the macro [IS_POWER_OF_TWO] holds exactly of
    the 32 powers of two: of 1, 2, 4, ..., 2^31, and not of 0. *)
Theorem IS_POWER_OF_TWO_iff (x : Z) :
  0 <= x < 2 ^ 32 ->
  (IS_POWER_OF_TWO x = true <-> exists k, 0 <= k < 32 /\ x = 2 ^ k).
Proof.
  intros Hx. split.
  - intros H.
    assert (Hpos : 0 < x).
    { unfold IS_POWER_OF_TWO in H. apply andb_prop in H as [H _].
      apply negb_true_iff, Z.eqb_neq in H. lia. }
    exists (Z.log2 x). split.
    + split; [apply Z.log2_nonneg|]. apply Z.log2_lt_pow2; lia.
    + apply power_of_two_log2; [lia|exact H].
  - intros (k & Hk & ->). apply power_of_two_passes. exact Hk.
Qed.

(** X1 at 2048, the default capacity. *)
Lemma IS_POWER_OF_TWO_iff_witness :
  0 <= 2048 < 2 ^ 32
  /\ (IS_POWER_OF_TWO 2048 = true <-> exists k, 0 <= k < 32 /\ 2048 = 2 ^ k).
Proof.
  split; [lia|]. apply (IS_POWER_OF_TWO_iff 2048). lia.
Defined.

(** X2.  The constructor on a [uint32_t] size.  With assertions it stops
    the process for 0 and for every size that is not a power of two;
    without them it returns a ring buffer that is not well formed.  For a
    power of two below 2^31 it returns, in either build, a well-formed
    empty ring buffer of that capacity over zeroed storage. *)
Theorem constructor_requires_power_of_two (NDEBUG : bool) (n : Z) :
  0 <= n < 2 ^ 32 ->
  (IS_POWER_OF_TWO n = false ->
   RingBuffer_new false n = Aborts
   /\ exists rb, RingBuffer_new true n = Returns rb /\ well_formed rb = false)
  /\ (IS_POWER_OF_TWO n = true -> n < 2 ^ 31 ->
      exists rb,
        RingBuffer_new NDEBUG n = Returns rb
        /\ well_formed rb = true
        /\ capacity rb = n
        /\ index_mask rb = n - 1
        /\ buffer_ rb = repeat x00 (Z.to_nat n)
        /\ contents rb = []
        /\ empty rb = true).
Proof.
  intros Hn. split.
  - intros Hbad. split.
    + unfold RingBuffer_new, assert_. cbn [orb].
      destruct (0 <? n); cbn [bind]; [|reflexivity].
      rewrite Hbad. reflexivity.
    + unfold RingBuffer_new, assert_. cbn [orb bind].
      eexists. split; [reflexivity|].
      unfold well_formed. cbn [buffer_].
      rewrite size_repeat by lia. rewrite Hbad. reflexivity.
  - intros Hpow Hsmall.
    assert (Hpos : 0 < n).
    { unfold IS_POWER_OF_TWO in Hpow. apply andb_prop in Hpow as [H _].
      apply negb_true_iff, Z.eqb_neq in H. lia. }
    destruct (RingBuffer_new_well_formed NDEBUG n) as (rb & Hnew & Hwf & Hcap & Hcnt);
      [lia|exact Hpow|].
    exists rb. split; [exact Hnew|]. split; [exact Hwf|]. split; [exact Hcap|].
    unfold RingBuffer_new, assert_ in Hnew.
    destruct (Z.ltb_spec 0 n); [|lia].
    rewrite Hpow, !orb_true_r in Hnew. cbn [bind] in Hnew.
    injection Hnew as <-. cbn [index_mask buffer_].
    split; [apply to_uint32_small; lia|]. split; [reflexivity|].
    split; reflexivity.
Qed.

(** X2 at the sizes 3 and 16 of [buffer_init]. *)
Lemma constructor_requires_power_of_two_witness :
  RingBuffer_new false 3 = Aborts
  /\ exists rb, RingBuffer_new false 16 = Returns rb /\ capacity rb = 16.
Proof.
  split.
  - apply (constructor_requires_power_of_two false 3); [lia|reflexivity].
  - destruct (constructor_requires_power_of_two false 16) as [_ H]; [lia|].
    destruct H as (rb & Hnew & _ & Hcap & _); [reflexivity|lia|].
    exists rb. split; assumption.
Defined.

(** ** [RingBuffer::write] on every length *)

Lemma memcpy_beyond_target (dst : list byte) (doff : Z) (src : list byte)
    (soff n : Z) :
  size dst < doff + n -> memcpy dst doff src soff n = OutOfRange.
Proof.
  intros Hlong. unfold memcpy, load.
  destruct ((0 <=? soff) && (0 <=? n) && (soff + n <=? size src)) eqn:Hc;
    [|reflexivity].
  apply andb_prop in Hc as [Hc H3]. apply andb_prop in Hc as [H1 H2].
  cbn [bind]. unfold store.
  rewrite size_slice by lia.
  destruct (0 <=? doff); cbn [andb]; [|reflexivity].
  destruct (Z.leb_spec (doff + n) (size dst)); [lia|reflexivity].
Qed.

Lemma capacity_at_most_2_30 (rb : RingBuffer) :
  ring_facts rb -> size (buffer_ rb) <= 2 ^ 30.
Proof.
  intros F. pose proof (rf_cap_pos rb F). pose proof (rf_cap_max rb F).
  pose proof (power_of_two_log2 (size (buffer_ rb)) ltac:(lia) (rf_pow2 rb F)) as Hc.
  assert (Z.log2 (size (buffer_ rb)) < 31) by (apply Z.log2_lt_pow2; lia).
  rewrite Hc. apply Z.pow_le_mono_r; lia.
Qed.

(** When the 32-bit sum of the count and the length wraps, the bounds
    check passes and the copy runs off the end of the storage. *)
Lemma write_wraps (NDEBUG : bool) (rb : RingBuffer) (src : list byte)
    (length : Z) :
  ring_facts rb -> 0 < length < 2 ^ 32 ->
  2 ^ 32 <= buffered_bytes_ rb + length ->
  write NDEBUG rb (Some src) length = OutOfRange.
Proof.
  intros F Hlen Hwrap.
  pose proof (rf_count rb F) as Hcnt. pose proof (rf_cap_max rb F) as Hmax.
  pose proof (capacity_at_most_2_30 rb F) as H30.
  pose proof (masked_range rb (write_index_ rb) F) as Ht.
  unfold write.
  destruct (Z.eqb_spec length 0); [lia|].
  rewrite (buffered_bytes_returns NDEBUG rb F). cbn [bind].
  rewrite (capacity_size rb F).
  assert (Hsum : to_uint32 (buffered_bytes_ rb + length)
                 = buffered_bytes_ rb + length - 2 ^ 32).
  { unfold to_uint32. apply mod_wrap. lia. }
  rewrite Hsum.
  destruct (Z.gtb_spec (buffered_bytes_ rb + length - 2 ^ 32) (size (buffer_ rb)));
    [lia|].
  set (t := Z.land (write_index_ rb) (index_mask rb)) in *.
  destruct (Z.lt_ge_cases (t + length) (2 ^ 32)) as [Hlow|Hhigh].
  - rewrite (to_uint32_small (t + length)) by lia.
    destruct (Z.gtb_spec (t + length) (size (buffer_ rb))); [|lia].
    rewrite (to_uint32_small (size (buffer_ rb) - t)) by lia.
    rewrite (to_size_t_small (size (buffer_ rb) - t)) by lia.
    rewrite (to_size_t_small (length - (size (buffer_ rb) - t))) by lia.
    destruct (memcpy (buffer_ rb) t src 0 (size (buffer_ rb) - t)) as [b1| | |] eqn:H1;
      cbn [bind]; try reflexivity.
    + assert (Hb1 : size b1 = size (buffer_ rb)).
      { unfold memcpy, load in H1.
        destruct ((0 <=? 0) && (0 <=? size (buffer_ rb) - t)
                  && (0 + (size (buffer_ rb) - t) <=? size src)) eqn:Hc;
          cbn [bind] in H1; [|discriminate].
        apply andb_prop in Hc as [_ Hc]. apply Z.leb_le in Hc.
        unfold store in H1. rewrite size_slice in H1 by lia.
        destruct ((0 <=? t) && (t + (size (buffer_ rb) - t) <=? size (buffer_ rb)));
          [|discriminate].
        injection H1 as <-. apply size_patched; [lia|].
        rewrite size_firstn by lia. lia. }
      rewrite memcpy_beyond_target by lia. reflexivity.
    + unfold memcpy, load in H1.
      destruct ((0 <=? 0) && (0 <=? size (buffer_ rb) - t)
                && (0 + (size (buffer_ rb) - t) <=? size src));
        cbn [bind] in H1; [|discriminate].
      unfold store in H1.
      destruct ((0 <=? t) && _) in H1; discriminate.
    + unfold memcpy, load in H1.
      destruct ((0 <=? 0) && (0 <=? size (buffer_ rb) - t)
                && (0 + (size (buffer_ rb) - t) <=? size src));
        cbn [bind] in H1; [|discriminate].
      unfold store in H1.
      destruct ((0 <=? t) && _) in H1; discriminate.
  - assert (Hs : to_uint32 (t + length) = t + length - 2 ^ 32).
    { unfold to_uint32. apply mod_wrap. lia. }
    rewrite Hs.
    destruct (Z.gtb_spec (t + length - 2 ^ 32) (size (buffer_ rb))); [lia|].
    rewrite memcpy_beyond_target by lia. reflexivity.
Qed.

(** X3.  What [write] answers on a well-formed ring buffer, for every
    32-bit length.  A null pointer or length 0 is an invalid parameter;
    a length within the free space is copied in whole, behind the bytes
    already buffered; a longer one is refused with the buffer unchanged as
    long as count plus length stays below 2^32; from there on the call
    writes outside the storage. *)
Theorem write_outcomes (NDEBUG : bool) (rb : RingBuffer)
    (data : option (list byte)) (length : Z) :
  well_formed rb = true -> valid_span data length = true ->
  match data with
  | None => write NDEBUG rb data length = Returns (ErrInvalidParameter, rb)
  | Some src =>
    if length =? 0
    then write NDEBUG rb data length = Returns (ErrInvalidParameter, rb)
    else if length <=? capacity rb - buffered_bytes_ rb
    then exists rb',
           write NDEBUG rb data length = Returns (Success, rb')
           /\ well_formed rb' = true
           /\ capacity rb' = capacity rb
           /\ buffered_bytes_ rb' = buffered_bytes_ rb + length
           /\ contents rb' = contents rb ++ firstn (Z.to_nat length) src
    else if buffered_bytes_ rb + length <? 2 ^ 32
    then write NDEBUG rb data length = Returns (ErrBufferOverflow, rb)
    else write NDEBUG rb data length = OutOfRange
  end.
Proof.
  intros Hwf Hspan. apply well_formed_facts in Hwf as F.
  apply valid_span_facts in Hspan as [Hlen Hsrc].
  destruct data as [src|]; [|apply write_invalid; left; reflexivity].
  destruct (Z.eqb_spec length 0) as [->|Hnz];
    [apply write_invalid; right; reflexivity|].
  rewrite (capacity_size rb F).
  destruct (Z.leb_spec length (size (buffer_ rb) - buffered_bytes_ rb)).
  - destruct (write_accepts NDEBUG rb src length F) as (rb' & Hw & F' & Hsz & Hcnt & Hcont);
      try lia.
    exists rb'. split; [exact Hw|]. split; [apply well_formed_facts; exact F'|].
    split; [|split; assumption].
    rewrite (capacity_size rb' F'). exact Hsz.
  - destruct (Z.ltb_spec (buffered_bytes_ rb + length) (2 ^ 32)).
    + apply write_rejects; [exact F|lia..].
    + apply write_wraps; [exact F|lia..].
Qed.

(** X3 on the 16-byte buffer that holds one byte: 15 bytes fit, 16 are
    refused, and 2^32 - 1 run off the storage. *)
Lemma write_outcomes_witness :
  (exists rb', write false ring16_one (Some (repeat x5a 16)) 15
               = Returns (Success, rb')
               /\ contents rb' = x5a :: repeat x5a 15)
  /\ write false ring16_one (Some (repeat x5a 16)) 16
     = Returns (ErrBufferOverflow, ring16_one).
Proof.
  split.
  - destruct (write_outcomes false ring16_one (Some (repeat x5a 16)) 15)
      as (rb' & Hw & _ & _ & _ & Hc); [reflexivity|reflexivity|].
    exists rb'. split; [exact Hw|exact Hc].
  - apply (write_outcomes false ring16_one (Some (repeat x5a 16)) 16);
      reflexivity.
Defined.

(** ** Taking bytes out: [read], [read] with a callback, [drain], [clear] *)

(** X4.  [read] into a target hands out the oldest buffered bytes, as
    many as asked for or as many as there are, returns their number,
    leaves the rest of the target as it was and the later bytes in the
    buffer; the storage itself is not written.  With a null target it
    returns 0 and changes nothing. *)
Theorem read_takes_oldest (NDEBUG : bool) (rb : RingBuffer)
    (data : option (list byte)) (length : Z) :
  well_formed rb = true -> valid_span data length = true ->
  match data with
  | None => read NDEBUG rb data length = Returns (0, None, rb)
  | Some dst =>
    let n := Z.min length (buffered_bytes_ rb) in
    exists rb',
      read NDEBUG rb data length
      = Returns (n, Some (firstn (Z.to_nat n) (contents rb)
                            ++ skipn (Z.to_nat n) dst), rb')
      /\ well_formed rb' = true
      /\ capacity rb' = capacity rb
      /\ buffer_ rb' = buffer_ rb
      /\ contents rb' = skipn (Z.to_nat n) (contents rb)
  end.
Proof.
  intros Hwf Hspan. apply well_formed_facts in Hwf as F.
  apply valid_span_facts in Hspan as [Hlen Hdst].
  destruct data as [dst|]; [|reflexivity].
  intros n.
  destruct (read_returns NDEBUG rb dst length F Hlen Hdst)
    as (rb' & Hr & F' & Hbuf & Hcnt & Hc).
  exists rb'. split; [exact Hr|]. split; [apply well_formed_facts; exact F'|].
  split; [|split; assumption].
  rewrite (capacity_size rb' F'), (capacity_size rb F), Hbuf. reflexivity.
Qed.

(** X4 on the eight-byte buffer whose four bytes lie across the end of the
    storage: a read of three returns 1, 2, 3 and leaves 4. *)
Lemma read_takes_oldest_witness :
  exists rb',
    read false ring8_wrapped (Some [xff; xff; xff; xff]) 3
    = Returns (3, Some [x01; x02; x03; xff], rb')
    /\ contents rb' = [x04].
Proof.
  destruct (read_takes_oldest false ring8_wrapped (Some [xff; xff; xff; xff]) 3)
    as (rb' & Hr & _ & _ & _ & Hc); [reflexivity|reflexivity|].
  exists rb'. split; [exact Hr|exact Hc].
Defined.

(** X5.  On a well-formed ring buffer, a callback that accepts what it
    is shown and leaves the ring buffer as it is while it runs sees the
    bytes that [read] with the same length copies out, and the two calls
    return the same number and leave the ring buffer in the same state. *)
Theorem read_cb_agrees_with_read {W : Type} (NDEBUG : bool) (rb : RingBuffer)
    (dst : list byte) (length : Z)
    (recv_cb : list byte -> Z -> W -> RingBuffer
               -> outcome (bool * W * RingBuffer)) (w w' : W) :
  well_formed rb = true -> 0 <= length < 2 ^ 32 -> length <= size dst ->
  let n := Z.min length (buffered_bytes_ rb) in
  let view := firstn (Z.to_nat n) (contents rb) in
  (0 < n -> recv_cb view n w rb = Returns (true, w', rb)) ->
  exists rb',
    read NDEBUG rb (Some dst) length
    = Returns (n, Some (view ++ skipn (Z.to_nat n) dst), rb')
    /\ read_cb NDEBUG rb length recv_cb w
       = Returns (n, rb', if n =? 0 then w else w').
Proof.
  intros Hwf Hlen Hdst n view Hacc. apply well_formed_facts in Hwf as F.
  pose proof F as [Hcpos Hcmax Hpow Hmask Hrd Hwr Hcnt Hring].
  pose proof (masked_range rb (read_index_ rb) F) as Ht.
  destruct (Z.eq_dec n 0) as [Hn0|Hn0].
  - exists rb. split.
    + unfold read.
      destruct (Z.eqb_spec length 0);
        [|destruct (Z.eqb_spec (buffered_bytes_ rb) 0); [|unfold n in Hn0; lia]];
        unfold view; rewrite Hn0; reflexivity.
    + rewrite store_read_cb_nothing by (unfold n in Hn0; lia).
      rewrite Hn0. reflexivity.
  - assert (Hpos : 0 < length /\ 0 < buffered_bytes_ rb) by (unfold n in Hn0; lia).
    specialize (Hacc ltac:(unfold n in *; lia)).
    unfold read, read_cb.
    destruct (Z.eqb_spec length 0); [lia|].
    destruct (Z.eqb_spec (buffered_bytes_ rb) 0); [lia|].
    rewrite (buffered_bytes_returns NDEBUG rb F). cbn [bind]. fold n.
    pose proof (read_copy rb dst n F) as Hcopy. cbv zeta in Hcopy.
    rewrite Hcopy by (unfold n; lia).
    pose proof (read_view rb n F) as Hview. cbv zeta in Hview.
    rewrite Hview by (unfold n; lia). cbn [bind]. fold view.
    rewrite Hacc. cbn [bind buffered_bytes_].
    rewrite (to_uint32_small (buffered_bytes_ rb)) by lia.
    rewrite (to_uint32_small (buffered_bytes_ rb - n)) by (unfold n; lia).
    rewrite (to_int32_small (buffered_bytes_ rb - n)) by (unfold n; lia).
    rewrite (assert_holds NDEBUG) by (unfold n; lia). cbn [bind].
    destruct (Z.eqb_spec n 0); [contradiction|].
    eexists. split; reflexivity.
Qed.

(** X5 on the wrapped eight-byte buffer, for a callback that accepts and
    stays out of the ring buffer. *)
Lemma read_cb_agrees_with_read_witness :
  exists rb',
    read false ring8_wrapped (Some (repeat x00 4)) 4
    = Returns (4, Some [x01; x02; x03; x04], rb')
    /\ read_cb false ring8_wrapped 4
         (no_reentry (fun _ _ (w : unit) => (true, w))) tt
       = Returns (4, rb', tt).
Proof.
  destruct (read_cb_agrees_with_read false ring8_wrapped (repeat x00 4) 4
              (no_reentry (fun _ _ (w : unit) => (true, w))) tt tt)
    as (rb' & Hr & Hcb);
    [reflexivity|lia|vm_compute; discriminate|intros _; reflexivity|].
  exists rb'. split; [exact Hr|exact Hcb].
Defined.

(** X6.  [drain] discards the oldest bytes, as many as asked for or as
    many as there are, without touching the storage or the write index,
    and leaves the read index below the capacity. *)
Theorem drain_discards_oldest (NDEBUG : bool) (rb : RingBuffer) (length : Z) :
  well_formed rb = true -> 0 <= length < 2 ^ 32 ->
  let n := Z.min length (buffered_bytes_ rb) in
  exists rb',
    drain NDEBUG rb length = Returns rb'
    /\ well_formed rb' = true
    /\ buffer_ rb' = buffer_ rb
    /\ write_index_ rb' = write_index_ rb
    /\ 0 <= read_index_ rb' < capacity rb
    /\ buffered_bytes_ rb' = buffered_bytes_ rb - n
    /\ contents rb' = skipn (Z.to_nat n) (contents rb).
Proof.
  intros Hwf Hlen n. apply well_formed_facts in Hwf as F.
  destruct (drain_returns NDEBUG rb length F Hlen)
    as (rb' & Hd & F' & Hbuf & Hcnt & Hc).
  exists rb'. split; [exact Hd|]. split; [apply well_formed_facts; exact F'|].
  split; [exact Hbuf|].
  assert (Hidx : write_index_ rb' = write_index_ rb
                 /\ 0 <= read_index_ rb' < capacity rb).
  { unfold drain in Hd. rewrite (buffered_bytes_returns NDEBUG rb F) in Hd.
    cbn [bind] in Hd.
    destruct (assert_ NDEBUG _) in Hd; cbn [bind] in Hd; try discriminate.
    injection Hd as <-. cbn [write_index_ read_index_].
    split; [reflexivity|]. rewrite (capacity_size rb F).
    apply masked_range. exact F. }
  destruct Hidx as [Hw Hr].
  split; [exact Hw|]. split; [exact Hr|]. split; assumption.
Qed.

(** X6 on the wrapped eight-byte buffer: three bytes go, 4 stays. *)
Lemma drain_discards_oldest_witness :
  exists rb',
    drain false ring8_wrapped 3 = Returns rb'
    /\ read_index_ rb' = 1
    /\ contents rb' = [x04].
Proof.
  destruct (drain_discards_oldest false ring8_wrapped 3)
    as (rb' & Hd & _ & _ & _ & _ & _ & Hc); [reflexivity|lia|].
  exists rb'. split; [exact Hd|]. split; [|exact Hc].
  vm_compute in Hd. injection Hd as <-. reflexivity.
Defined.

Lemma clear_facts (rb : RingBuffer) : ring_facts rb -> ring_facts (clear rb).
Proof.
  intros [Hcpos Hcmax Hpow Hmask Hrd Hwr Hcnt Hring].
  constructor; cbn [clear buffer_ index_mask read_index_ write_index_
                    buffered_bytes_]; try assumption; try lia.
  reflexivity.
Qed.

(** X7.  [clear] empties a ring buffer: what was buffered is gone, the
    storage and the capacity stay, and a write of any length up to the
    capacity is accepted afterwards and is then all the buffer holds. *)
Theorem clear_empties (NDEBUG : bool) (rb : RingBuffer) :
  well_formed rb = true ->
  well_formed (clear rb) = true
  /\ buffer_ (clear rb) = buffer_ rb
  /\ capacity (clear rb) = capacity rb
  /\ contents (clear rb) = []
  /\ forall (src : list byte) (length : Z),
       0 < length <= capacity rb -> length <= size src ->
       exists rb',
         write NDEBUG (clear rb) (Some src) length = Returns (Success, rb')
         /\ contents rb' = firstn (Z.to_nat length) src.
Proof.
  intros Hwf. apply well_formed_facts in Hwf as F.
  pose proof (clear_facts rb F) as Fc.
  split; [apply well_formed_facts; exact Fc|].
  split; [reflexivity|]. split; [reflexivity|]. split; [reflexivity|].
  intros src length Hlen Hsrc. rewrite (capacity_size rb F) in Hlen.
  destruct (write_accepts NDEBUG (clear rb) src length Fc)
    as (rb' & Hw & _ & _ & _ & Hc); cbn [clear buffer_ buffered_bytes_]; try lia.
  exists rb'. split; [exact Hw|]. rewrite Hc. reflexivity.
Qed.

(** X7 on the wrapped eight-byte buffer. *)
Lemma clear_empties_witness :
  contents (clear ring8_wrapped) = []
  /\ exists rb',
       write false (clear ring8_wrapped) (Some (repeat x5a 8)) 8
       = Returns (Success, rb')
       /\ contents rb' = repeat x5a 8.
Proof.
  destruct (clear_empties false ring8_wrapped) as (_ & _ & _ & Hc & Hw);
    [reflexivity|].
  split; [exact Hc|].
  destruct (Hw (repeat x5a 8) 8) as (rb' & Hwr & Hcont);
    [vm_compute; split; [reflexivity|discriminate]|vm_compute; discriminate|].
  exists rb'. split; [exact Hwr|exact Hcont].
Defined.

(** X8.  [empty] and [full] on a well-formed ring buffer: [empty] holds
    exactly when nothing is buffered and a one-byte read returns 0;
    [full] holds exactly when as many bytes as the capacity are buffered
    and a one-byte write is refused; never both. *)
Theorem empty_full_meaning (NDEBUG : bool) (rb : RingBuffer) (b : byte) :
  well_formed rb = true ->
  (empty rb = true <-> contents rb = [])
  /\ (empty rb = true <->
      read NDEBUG rb (Some [b]) 1 = Returns (0, Some [b], rb))
  /\ (full rb = true <-> size (contents rb) = capacity rb)
  /\ (full rb = true <->
      write NDEBUG rb (Some [b]) 1 = Returns (ErrBufferOverflow, rb))
  /\ (empty rb && full rb = false).
Proof.
  intros Hwf. apply well_formed_facts in Hwf as F.
  pose proof F as [Hcpos Hcmax Hpow Hmask Hrd Hwr Hcnt Hring].
  pose proof (size_contents rb ltac:(lia)) as Hsz.
  assert (Hfull : full rb = true <-> buffered_bytes_ rb = size (buffer_ rb)).
  { unfold full. rewrite to_int32_small by lia. apply Z.eqb_eq. }
  assert (Hempty : empty rb = true <-> buffered_bytes_ rb = 0).
  { unfold empty. apply Z.eqb_eq. }
  split; [|split; [|split; [|split]]].
  - rewrite Hempty. split.
    + intros H0. unfold contents. rewrite H0. reflexivity.
    + intros Hc. rewrite Hc in Hsz. cbn in Hsz. lia.
  - rewrite Hempty. split.
    + intros H0. unfold read. cbn [Z.eqb]. rewrite H0. reflexivity.
    + intros Hr.
      destruct (read_returns NDEBUG rb [b] 1 F) as (rb' & Hr' & _);
        [lia|cbn; lia|].
      rewrite Hr in Hr'. injection Hr' as Hn _ _. lia.
  - rewrite Hfull, Hsz, (capacity_size rb F). reflexivity.
  - rewrite Hfull. split.
    + intros Hb. apply write_rejects; [exact F|lia..].
    + intros Hw.
      destruct (Z.eq_dec (buffered_bytes_ rb) (size (buffer_ rb))) as [|Hne];
        [assumption|].
      destruct (write_accepts NDEBUG rb [b] 1 F) as (rb' & Hw' & _);
        [lia|cbn; lia|lia|].
      rewrite Hw in Hw'. discriminate.
  - apply andb_false_iff.
    destruct (Z.eq_dec (buffered_bytes_ rb) 0) as [H0|H0].
    + right. apply not_true_is_false. rewrite Hfull. lia.
    + left. apply not_true_is_false. rewrite Hempty. exact H0.
Qed.

(** X8 on the 16-byte buffer that holds one byte: neither empty nor
    full. *)
Lemma empty_full_meaning_witness :
  empty ring16_one = false /\ full ring16_one = false
  /\ contents ring16_one <> [].
Proof.
  destruct (empty_full_meaning false ring16_one x00) as (He & _ & _ & _ & _);
    [reflexivity|].
  split; [reflexivity|]. split; [reflexivity|].
  intros Hc. apply He in Hc. discriminate.
Defined.

(** ** The ring buffer as a queue *)

Lemma skipn_at_most (length : Z) (q : list byte) :
  skipn (Z.to_nat (Z.min length (size q))) q = skipn (Z.to_nat length) q.
Proof.
  destruct (Z.le_gt_cases length (size q)) as [Hle|Hgt].
  - rewrite Z.min_l by lia. reflexivity.
  - rewrite Z.min_r by lia. unfold size in *.
    rewrite !skipn_all2 by lia. reflexivity.
Qed.

Lemma step_fifo (NDEBUG : bool) (rb : RingBuffer) (o : op) :
  ring_facts rb -> in_range o = true ->
  exists rb' e,
    step NDEBUG rb o = Returns (rb', e)
    /\ ring_facts rb'
    /\ size (buffer_ rb') = size (buffer_ rb)
    /\ contents rb' = fifo_step (size (buffer_ rb)) (contents rb) o.
Proof.
  intros F Hin.
  pose proof (rf_count rb F) as Hcnt. pose proof (rf_cap_max rb F) as Hmax.
  pose proof (size_contents rb ltac:(lia)) as Hsz.
  destruct o as [data length|data length|length recv_cb|length];
    cbn [step in_range fifo_step] in *.
  - (* write *)
    apply andb_prop in Hin as [Hspan H31]. apply Z.ltb_lt in H31.
    apply valid_span_facts in Hspan as [Hlen Hsrc].
    destruct data as [src|].
    2:{ rewrite write_invalid by (left; reflexivity). cbn [bind].
        eexists _, _. split; [reflexivity|]. split; [exact F|].
        split; reflexivity. }
    destruct (Z.eqb_spec length 0) as [->|Hnz]; cbn [orb].
    { rewrite write_invalid by (right; reflexivity). cbn [bind].
      eexists _, _. split; [reflexivity|]. split; [exact F|].
      split; reflexivity. }
    rewrite Hsz.
    destruct (Z.ltb_spec (size (buffer_ rb) - buffered_bytes_ rb) length).
    + rewrite write_rejects by (try exact F; lia). cbn [bind].
      eexists _, _. split; [reflexivity|]. split; [exact F|].
      split; reflexivity.
    + destruct (write_accepts NDEBUG rb src length F)
        as (rb' & Hw & F' & Hsize & _ & Hc); try lia.
      rewrite Hw. cbn [bind].
      eexists _, _. split; [reflexivity|]. split; [exact F'|].
      split; assumption.
  - (* read *)
    apply valid_span_facts in Hin as [Hlen Hdst].
    destruct data as [dst|].
    2:{ cbn [read bind]. eexists _, _. split; [reflexivity|].
        split; [exact F|]. split; reflexivity. }
    destruct (read_returns NDEBUG rb dst length F Hlen Hdst)
      as (rb' & Hr & F' & Hbuf & _ & Hc).
    rewrite Hr. cbn [bind].
    eexists _, _. split; [reflexivity|]. split; [exact F'|].
    split; [rewrite Hbuf; reflexivity|].
    rewrite Hc, <- Hsz. apply skipn_at_most.
  - (* read with a callback *)
    apply valid_span_facts in Hin as [Hlen _].
    rewrite Hsz.
    set (n := Z.min length (buffered_bytes_ rb)).
    destruct (Z.eqb_spec n 0) as [Hn0|Hn0].
    { rewrite read_cb_nothing by (unfold n in Hn0; lia). cbn [bind].
      eexists _, _. split; [reflexivity|]. split; [exact F|].
      split; reflexivity. }
    destruct (recv_cb (firstn (Z.to_nat n) (contents rb)) n) eqn:Hcb.
    + destruct (read_cb_accepted NDEBUG rb length
                  (fun d l (w : unit) => (recv_cb d l, w)) tt tt F)
        as (rb' & Hr & F' & Hbuf & _ & Hc);
        [unfold n in Hn0; lia|unfold n in Hn0; lia|fold n; rewrite Hcb; reflexivity|].
      rewrite Hr. cbn [bind].
      eexists _, _. split; [reflexivity|]. split; [exact F'|].
      split; [rewrite Hbuf; reflexivity|exact Hc].
    + rewrite (read_cb_declined NDEBUG rb length
                 (fun d l (w : unit) => (recv_cb d l, w)) tt tt F)
        by (try (fold n; rewrite Hcb; reflexivity); unfold n in Hn0; lia).
      cbn [bind].
      eexists _, _. split; [reflexivity|]. split; [exact F|].
      split; reflexivity.
  - (* drain *)
    apply valid_span_facts in Hin as [Hlen _].
    rewrite (buffered_bytes_returns NDEBUG rb F). cbn [bind].
    destruct (drain_returns NDEBUG rb length F Hlen)
      as (rb' & Hd & F' & Hbuf & _ & Hc).
    rewrite Hd. cbn [bind].
    eexists _, _. split; [reflexivity|]. split; [exact F'|].
    split; [rewrite Hbuf; reflexivity|].
    rewrite Hc, <- Hsz. apply skipn_at_most.
Qed.

(** X9.  A well-formed ring buffer behaves as a first-in first-out queue
    bounded by its capacity: over every sequence of [write], [read],
    [read] with a callback that does not call into the ring buffer, and
    [drain], with arguments in range, every call returns, the ring buffer
    stays well formed, and the bytes it holds after each call are those
    of the queue after the same operation. *)
Theorem ring_buffer_is_fifo (NDEBUG : bool) (ops : list op) :
  forall (rb : RingBuffer) (acc rem : Z),
    well_formed rb = true ->
    forallb in_range ops = true ->
    exists trace,
      run NDEBUG rb acc rem ops = Returns trace
      /\ map (fun x => contents (fst (fst x))) trace
         = fifo_run (capacity rb) (contents rb) ops
      /\ Forall (fun x => well_formed (fst (fst x)) = true
                          /\ capacity (fst (fst x)) = capacity rb) trace.
Proof.
  induction ops as [|o rest IH]; intros rb acc rem Hwf Hin.
  - exists []. split; [reflexivity|]. split; [reflexivity|constructor].
  - apply well_formed_facts in Hwf as F.
    cbn [forallb] in Hin. apply andb_prop in Hin as [Ho Hrest].
    destruct (step_fifo NDEBUG rb o F Ho) as (rb' & e & Hstep & F' & Hsize & Hc).
    assert (Hwf' : well_formed rb' = true) by (apply well_formed_facts; exact F').
    assert (Hcap : capacity rb' = capacity rb).
    { rewrite (capacity_size rb' F'), (capacity_size rb F). exact Hsize. }
    destruct (IH rb' (acc + accepted e) (rem + removed e) Hwf' Hrest)
      as (trace & Hrun & Hmap & Hall).
    cbn [run]. rewrite Hstep. cbn [bind]. rewrite Hrun. cbn [bind].
    eexists. split; [reflexivity|]. split.
    + cbn [map fst fifo_run]. rewrite (capacity_size rb F), <- Hc.
      f_equal. rewrite Hmap, Hcap, (capacity_size rb F). reflexivity.
    + constructor; [split; assumption|].
      eapply Forall_impl; [|exact Hall].
      cbv beta. intros x [H1 H2]. split; [exact H1|]. rewrite H2. exact Hcap.
Qed.

(** X9 on the operations of [buffer_write_drain_test], started where the
    bytes written wrap around the end of the storage. *)
Lemma ring_buffer_is_fifo_witness :
  exists trace,
    run false ring16_at14 0 0 ops_demo = Returns trace
    /\ map (fun x => contents (fst (fst x))) trace
       = fifo_run 16 [] ops_demo.
Proof.
  destruct (ring_buffer_is_fifo false ops_demo ring16_at14 0 0)
    as (trace & Hrun & Hmap & _); [reflexivity|reflexivity|].
  exists trace. split; [exact Hrun|exact Hmap].
Defined.

(** ** [RingBuffer::getHexString] *)

Lemma hex_loop_dumps (rb : RingBuffer) (F : ring_facts rb) (count : nat) :
  forall i : nat,
    Z.of_nat i + Z.of_nat count <= buffered_bytes_ rb ->
    hex_loop rb (read_index_ rb) (Z.of_nat i) count
    = Returns (hex_dump
                 (map (fun k => byte_at (buffer_ rb)
                                  ((read_index_ rb + Z.of_nat k)
                                     mod size (buffer_ rb)))
                      (seq i count))).
Proof.
  pose proof F as [Hcpos Hcmax Hpow Hmask Hrd Hwr Hcnt Hring].
  induction count as [|count IH]; intros i Hi; [reflexivity|].
  cbn [hex_loop seq map].
  rewrite (to_size_t_small (Z.of_nat i + read_index_ rb)) by lia.
  rewrite (to_size_t_small (Z.of_nat i + 1)) by lia.
  rewrite (masked_index rb _ F).
  pose proof (Z.mod_pos_bound (Z.of_nat i + read_index_ rb)
                (size (buffer_ rb)) Hcpos) as Hidx.
  unfold element.
  destruct (Z.leb_spec 0 ((Z.of_nat i + read_index_ rb) mod size (buffer_ rb)));
    [|lia].
  destruct (Z.ltb_spec ((Z.of_nat i + read_index_ rb) mod size (buffer_ rb))
              (size (buffer_ rb))); [|lia].
  cbn [andb bind].
  replace (Z.of_nat i + 1) with (Z.of_nat (S i)) by lia.
  rewrite IH by lia. cbn [bind].
  unfold hex_dump. cbn [map concat].
  rewrite (Z.add_comm (Z.of_nat i) (read_index_ rb)).
  rewrite <- !app_assoc. reflexivity.
Qed.

(** X10.  [getHexString] of a well-formed ring buffer returns the
    buffered bytes, oldest first, each as one or two lower-case
    hexadecimal digits followed by a space; it reads no byte outside the
    storage and shows nothing of the storage that is not buffered. *)
Theorem getHexString_dumps_contents (rb : RingBuffer) :
  well_formed rb = true ->
  getHexString rb = Returns (hex_dump (contents rb)).
Proof.
  intros Hwf. apply well_formed_facts in Hwf as F.
  pose proof (rf_count rb F) as Hcnt. pose proof (rf_cap_max rb F) as Hmax.
  unfold getHexString.
  rewrite (to_size_t_small (buffered_bytes_ rb)) by lia.
  apply (hex_loop_dumps rb F (Z.to_nat (buffered_bytes_ rb)) 0%nat). lia.
Qed.

(** X10 on the wrapped eight-byte buffer, and on bytes of two digits. *)
Lemma getHexString_dumps_contents_witness :
  getHexString ring8_wrapped
  = Returns [x31; x20; x32; x20; x33; x20; x34; x20]
  /\ hex_dump [x00; x0a; x5a; xff]
     = [x30; x20; x61; x20; x35; x61; x20; x66; x66; x20].
Proof.
  split; [|reflexivity].
  rewrite (getHexString_dumps_contents ring8_wrapped); reflexivity.
Defined.

(** ** [DoBytesOrderConversion] on the bytes of the header *)

Lemma encode_host_decode_be (le : bool) (field : list byte) :
  encode_host le (length field) (decode_be field)
  = if le then rev field else field.
Proof.
  unfold encode_host, encode_be, decode_be. destruct le.
  - rewrite <- (length_rev field). apply encode_decode_le.
  - rewrite <- (length_rev field), encode_decode_le. apply rev_involutive.
Qed.

Lemma reversed_twice (le : bool) (field : list byte) :
  (if le then rev (if le then rev field else field)
   else if le then rev field else field) = field.
Proof. destruct le; [apply rev_involutive|reflexivity]. Qed.

Section ConversionFacts.

Variable little_endian : bool.
Context {PH : ProtoHeader}.

Lemma set_body_length_around (header : list byte) (v : Z) :
  body_length_offset + body_length_size <= size header ->
  firstn (Z.to_nat body_length_offset) (set_body_length little_endian header v)
  = firstn (Z.to_nat body_length_offset) header
  /\ skipn (Z.to_nat (body_length_offset + body_length_size))
       (set_body_length little_endian header v)
     = skipn (Z.to_nat (body_length_offset + body_length_size)) header.
Proof.
  intros H. pose proof header_shape as Hs. unfold set_body_length.
  assert (Hfront : length (firstn (Z.to_nat body_length_offset) header)
                   = Z.to_nat body_length_offset).
  { rewrite length_firstn. unfold size in H. lia. }
  split.
  - rewrite firstn_app, Hfront, Nat.sub_diag. cbn [firstn].
    rewrite app_nil_r. apply firstn_all2. lia.
  - rewrite skipn_app, Hfront.
    rewrite (skipn_all2 (firstn _ header)) by lia. cbn [app].
    rewrite skipn_app, length_encode_host.
    rewrite (skipn_all2 (encode_host _ _ _))
      by (rewrite length_encode_host; lia).
    cbn [app].
    replace (Z.to_nat (body_length_offset + body_length_size)
             - Z.to_nat body_length_offset - Z.to_nat body_length_size)%nat
      with 0%nat by lia.
    reflexivity.
Qed.

Lemma header_in_three (header : list byte) :
  firstn (Z.to_nat body_length_offset) header
    ++ body_length_field header
    ++ skipn (Z.to_nat (body_length_offset + body_length_size)) header
  = header.
Proof.
  pose proof header_shape as Hs. unfold body_length_field.
  replace (Z.to_nat (body_length_offset + body_length_size))
    with (Z.to_nat body_length_size + Z.to_nat body_length_offset)%nat by lia.
  rewrite <- skipn_skipn, firstn_skipn. apply firstn_skipn.
Qed.

Lemma conversion_bytes (header : list byte) :
  body_length_offset + body_length_size <= size header ->
  DoBytesOrderConversion little_endian header
  = firstn (Z.to_nat body_length_offset) header
      ++ (if little_endian then rev (body_length_field header)
          else body_length_field header)
      ++ skipn (Z.to_nat (body_length_offset + body_length_size)) header.
Proof.
  intros H. pose proof header_shape as Hs.
  rewrite (DoBytesOrderConversion_spec little_endian header H).
  unfold set_body_length.
  pose proof (size_body_length_field header H) as Hf. unfold size in Hf.
  replace (Z.to_nat body_length_size) with (length (body_length_field header))
    by lia.
  rewrite encode_host_decode_be. reflexivity.
Qed.

Lemma conversion_involutive (header : list byte) :
  body_length_offset + body_length_size <= size header ->
  DoBytesOrderConversion little_endian
    (DoBytesOrderConversion little_endian header) = header.
Proof.
  intros H. pose proof header_shape as Hs.
  pose proof (size_DoBytesOrderConversion little_endian header H) as Hsize.
  rewrite (conversion_bytes (DoBytesOrderConversion little_endian header))
    by lia.
  rewrite (DoBytesOrderConversion_spec little_endian header H).
  destruct (set_body_length_around header
              (decode_be (body_length_field header)) H) as [-> ->].
  rewrite (body_length_field_set little_endian header _ H).
  pose proof (size_body_length_field header H) as Hf. unfold size in Hf.
  replace (Z.to_nat body_length_size) with (length (body_length_field header))
    by lia.
  rewrite encode_host_decode_be.
  rewrite reversed_twice. apply header_in_three.
Qed.

End ConversionFacts.

(** X11.  [DoBytesOrderConversion] touches the bytes of the field
    [body_length] only: on a little-endian host it reverses them, on a
    big-endian host it leaves them; the header keeps its size, and
    converting twice gives the header back. *)
Theorem conversion_reverses_field (little_endian : bool) {PH : ProtoHeader}
    (header : list byte) :
  body_length_offset + body_length_size <= size header ->
  DoBytesOrderConversion little_endian header
  = firstn (Z.to_nat body_length_offset) header
      ++ (if little_endian then rev (body_length_field header)
          else body_length_field header)
      ++ skipn (Z.to_nat (body_length_offset + body_length_size)) header
  /\ size (DoBytesOrderConversion little_endian header) = size header
  /\ DoBytesOrderConversion little_endian
       (DoBytesOrderConversion little_endian header) = header.
Proof.
  intros H. split; [apply conversion_bytes; exact H|].
  split; [apply size_DoBytesOrderConversion; exact H|].
  apply conversion_involutive. exact H.
Qed.

(** X11 on the header of the test that announces 3 body bytes. *)
Lemma conversion_reverses_field_witness :
  DoBytesOrderConversion true (PH := TestHeader) (wire_header 3)
  = [x55; xaa; x55; xbb; x03; x00; x00; x00; xff; xff; x00; x00]
  /\ DoBytesOrderConversion false (PH := TestHeader) (wire_header 3)
     = wire_header 3.
Proof.
  split.
  - destruct (conversion_reverses_field true (PH := TestHeader) (wire_header 3))
      as [H _]; [vm_compute; discriminate|].
    rewrite H. reflexivity.
  - destruct (conversion_reverses_field false (PH := TestHeader) (wire_header 3))
      as [H _]; [vm_compute; discriminate|].
    rewrite H. reflexivity.
Defined.

(** ** What the parser does with the handlers' results *)

Section HeaderVerdict.

Variable NDEBUG : bool.
Variable little_endian : bool.
Context {PH : ProtoHeader}.
Variable W : Type.
Variables h1 h2 : list byte -> W -> bool * W.
Variable body_handler_ : list byte -> Z -> W -> bool * W.
Hypothesis same_effect : forall header w, snd (h1 header w) = snd (h2 header w).

Lemma transition_same (p : StreamingParser W) :
  PerformStreamingParse NDEBUG little_endian h1 body_handler_ p
  = PerformStreamingParse NDEBUG little_endian h2 body_handler_ p.
Proof.
  unfold PerformStreamingParse.
  destruct (recv_state_ p); [|reflexivity].
  destruct (buffered_bytes NDEBUG (recv_buffer_ p)) as [bb| | |];
    cbn [bind]; try reflexivity.
  destruct (bb >=? protocol_header_length); [|reflexivity].
  destruct (read NDEBUG (recv_buffer_ p) (Some (current_header_ p))
              protocol_header_length) as [[[n target] rb]| | |];
    cbn [bind]; try reflexivity.
  match goal with
  | |- context [h1 ?h (world p)] => pose proof (same_effect h (world p)) as He
  end.
  destruct (h1 _ (world p)) as [ok1 w1], (h2 _ (world p)) as [ok2 w2].
  cbn [snd] in He. subst w2. reflexivity.
Qed.

Lemma parse_loop_same (fuel : nat) :
  forall p : StreamingParser W,
    parse_loop NDEBUG little_endian h1 body_handler_ fuel p
    = parse_loop NDEBUG little_endian h2 body_handler_ fuel p.
Proof.
  induction fuel as [|fuel IH]; intros p; [reflexivity|].
  cbn [parse_loop].
  destruct (loop_condition NDEBUG little_endian p) as [go| | |];
    cbn [bind]; try reflexivity.
  destruct go; [|reflexivity].
  rewrite transition_same.
  destruct (PerformStreamingParse NDEBUG little_endian h2 body_handler_ p)
    as [[waiting p']| | |]; cbn [bind]; try reflexivity.
  destruct waiting; [reflexivity|apply IH].
Qed.

End HeaderVerdict.

(** X12.  The parser never looks at what [header_handler_] returns: two
    header handlers that differ in their results only make [HandleData]
    return the same and leave the same parser, in every state and for
    every argument. *)
Theorem header_verdict_is_ignored (NDEBUG little_endian : bool)
    {PH : ProtoHeader} {W : Type}
    (h1 h2 : list byte -> W -> bool * W)
    (body_handler_ : list byte -> Z -> W -> bool * W) :
  (forall header w, snd (h1 header w) = snd (h2 header w)) ->
  forall (p : StreamingParser W) (data : option (list byte)) (length : Z),
    HandleData NDEBUG little_endian h1 body_handler_ p data length
    = HandleData NDEBUG little_endian h2 body_handler_ p data length.
Proof.
  intros Hsame p data length. unfold HandleData.
  destruct (write NDEBUG (recv_buffer_ p) data length) as [[err rb]| | |];
    cbn [bind]; try reflexivity.
  destruct (error_code_eqb err ErrBufferOverflow); [reflexivity|].
  rewrite (parse_loop_same NDEBUG little_endian W h1 h2 body_handler_ Hsame).
  reflexivity.
Qed.

(** X12 for the handlers of the test, one returning [true] and one
    [false], on a frame with three body bytes. *)
Lemma header_verdict_is_ignored_witness :
  test_HandleData false true true (parser_holding [])
    (Some (wire_header 3 ++ [x01; x02; x03])) 15
  = test_HandleData false false true (parser_holding [])
      (Some (wire_header 3 ++ [x01; x02; x03])) 15.
Proof.
  unfold test_HandleData.
  apply (header_verdict_is_ignored false true (PH := TestHeader)
           (header_says true) (header_says false) (body_says true)).
  intros header w. reflexivity.
Defined.

(** ** Transitions and the loop, in every state *)

(** Whatever [write] returns on a well-formed ring buffer is well formed
    and has the same storage size. *)
Lemma write_keeps_facts (NDEBUG : bool) (rb rb' : RingBuffer)
    (data : option (list byte)) (length : Z) (err : error_code) :
  ring_facts rb -> valid_span data length = true ->
  write NDEBUG rb data length = Returns (err, rb') ->
  ring_facts rb' /\ size (buffer_ rb') = size (buffer_ rb)
  /\ (err <> Success -> rb' = rb).
Proof.
  intros F Hspan Hw. pose proof (rf_count rb F) as Hcnt.
  apply valid_span_facts in Hspan as [Hlen Hsrc].
  destruct data as [src|].
  2:{ rewrite write_invalid in Hw by (left; reflexivity).
      injection Hw as <- <-. auto. }
  destruct (Z.eq_dec length 0) as [Hz|Hnz].
  { rewrite write_invalid in Hw by (right; exact Hz).
    injection Hw as <- <-. auto. }
  destruct (Z.le_gt_cases (buffered_bytes_ rb + length) (size (buffer_ rb))).
  - destruct (write_accepts NDEBUG rb src length F)
      as (rb1 & Hw1 & F1 & Hsz & _); try lia.
    rewrite Hw1 in Hw. injection Hw as <- <-.
    split; [exact F1|]. split; [exact Hsz|]. intros Hne. contradiction.
  - destruct (Z.lt_ge_cases (buffered_bytes_ rb + length) (2 ^ 32)).
    + rewrite write_rejects in Hw by (try exact F; lia).
      injection Hw as <- <-. auto.
    + rewrite write_wraps in Hw by (try exact F; lia). discriminate.
Qed.

Section ParserSteps.

Variable NDEBUG : bool.
Variable little_endian : bool.
Context {PH : ProtoHeader}.
Variable W : Type.
Variable header_handler_ : list byte -> W -> bool * W.
Variable body_handler_ : list byte -> Z -> W -> bool * W.

Local Abbreviation transition :=
  (PerformStreamingParse NDEBUG little_endian header_handler_ body_handler_).
Local Abbreviation loop :=
  (parse_loop NDEBUG little_endian header_handler_ body_handler_).
Local Abbreviation handle :=
  (HandleData NDEBUG little_endian header_handler_ body_handler_).

(** The condition of the [while] loop holds. *)
Local Abbreviation ready p :=
  (match recv_state_ p with
   | READ_HEADER => protocol_header_length <= buffered_bytes_ (recv_buffer_ p)
   | READ_BODY => body_length little_endian (current_header_ p)
                  <= buffered_bytes_ (recv_buffer_ p)
   end).

(** A bound on the transitions the loop can still make. *)
Local Abbreviation rounds p :=
  (2 * Z.to_nat (buffered_bytes_ (recv_buffer_ p))
   + match recv_state_ p with READ_HEADER => 0 | READ_BODY => 1 end)%nat.

Lemma waits_or_ready (p : StreamingParser W) :
  waits little_endian p \/ ready p.
Proof. unfold waits. destruct (recv_state_ p); lia. Qed.

Lemma transition_waits (p : StreamingParser W) :
  parser_ok p = true -> waits little_endian p ->
  transition p = Returns (true, p).
Proof.
  intros Hok Hw. apply parser_ok_facts in Hok as [F Hhdr].
  pose proof (rf_count _ F) as Hcnt.
  unfold waits in Hw. unfold PerformStreamingParse.
  destruct (recv_state_ p).
  - rewrite (buffered_bytes_returns NDEBUG _ F). cbn [bind].
    destruct (Z.geb_spec (buffered_bytes_ (recv_buffer_ p))
                protocol_header_length); [lia|reflexivity].
  - rewrite (assert_holds NDEBUG) by lia. cbn [bind].
    rewrite (buffered_bytes_returns NDEBUG _ F). cbn [bind].
    destruct (Z.geb_spec (buffered_bytes_ (recv_buffer_ p))
                (body_length little_endian (current_header_ p)));
      [lia|reflexivity].
Qed.

(** One call of [PerformStreamingParse] on a well-formed parser: it is
    waiting and changes nothing, or it is stopped by the assertion, or it
    moves to the other state over the same storage. *)
Lemma transition_cases (p : StreamingParser W) :
  parser_ok p = true ->
  (waits little_endian p /\ transition p = Returns (true, p))
  \/ (ready p /\ NDEBUG = false /\ recv_state_ p = READ_BODY
      /\ body_length little_endian (current_header_ p) = 0
      /\ transition p = Aborts)
  \/ (ready p
      /\ exists p',
           transition p = Returns (false, p')
           /\ parser_ok p' = true
           /\ buffer_ (recv_buffer_ p') = buffer_ (recv_buffer_ p)
           /\ recv_state_ p' <> recv_state_ p
           /\ (rounds p' < rounds p)%nat).
Proof.
  intros Hok. pose proof Hok as Hok'.
  apply parser_ok_facts in Hok' as [F Hhdr].
  pose proof (rf_count _ F) as Hcnt. pose proof header_shape as Hs.
  destruct (waits_or_ready p) as [Hw|Hr];
    [left; split; [exact Hw|apply transition_waits; assumption]|].
  right. destruct (recv_state_ p) eqn:Hstate.
  - right. split; [exact Hr|].
    destruct (header_step NDEBUG little_endian W header_handler_ body_handler_
                p Hok Hstate Hr) as (rb' & Hstep & F' & Hbuf & Hcnt' & _).
    eexists. split; [exact Hstep|].
    cbn [recv_buffer_ recv_state_ current_header_].
    split; [|split; [exact Hbuf|split; [discriminate|lia]]].
    apply parser_ok_facts. cbn [recv_buffer_ current_header_].
    split; [exact F'|].
    rewrite size_DoBytesOrderConversion;
      rewrite size_firstn; rewrite ?size_contents; lia.
  - set (n := body_length little_endian (current_header_ p)) in *.
    pose proof (body_length_range little_endian (current_header_ p)) as Hn.
    fold n in Hn.
    assert (Hhdr0 : size (set_body_length little_endian (current_header_ p) 0)
                    = protocol_header_length).
    { rewrite size_set_body_length; lia. }
    destruct (Z.eq_dec n 0) as [Hzero|Hpos].
    + destruct (bool_dec NDEBUG true) as [Hbuild|Hbuild].
      * right. split; [exact Hr|].
        pose proof (body_step_empty NDEBUG little_endian W header_handler_
                      body_handler_ p Hbuild Hok Hstate Hzero) as Hstep.
        eexists. split; [exact Hstep|].
        cbn [recv_buffer_ recv_state_ current_header_].
        split; [|split; [reflexivity|split; [discriminate|lia]]].
        apply parser_ok_facts. cbn [recv_buffer_ current_header_].
        split; assumption.
      * apply not_true_is_false in Hbuild. left.
        split; [exact Hr|]. split; [exact Hbuild|]. split; [reflexivity|].
        split; [exact Hzero|].
        apply body_step_asserts; assumption.
    + right. split; [exact Hr|].
      destruct (body_step NDEBUG little_endian W header_handler_ body_handler_
                  p Hok Hstate) as (rb' & Hstep & F' & Hbuf & Hcase);
        [fold n; lia|]. fold n in Hstep, Hcase.
      assert (Hle' : buffered_bytes_ rb' <= buffered_bytes_ (recv_buffer_ p)).
      { destruct (fst (body_handler_ _ n (world p)));
          [destruct Hcase as [-> _]; lia|rewrite Hcase; lia]. }
      pose proof (rf_count _ F') as Hcnt'.
      eexists. split; [exact Hstep|].
      cbn [recv_buffer_ recv_state_ current_header_].
      split; [|split; [exact Hbuf|split; [discriminate|lia]]].
      apply parser_ok_facts. cbn [recv_buffer_ current_header_].
      split; assumption.
Qed.

(** Where the loop stops, its condition is false. *)
Lemma loop_settled (fuel : nat) :
  forall p p' : StreamingParser W,
    parser_ok p = true -> loop fuel p = Returns p' ->
    parser_ok p' = true /\ waits little_endian p'
    /\ buffer_ (recv_buffer_ p') = buffer_ (recv_buffer_ p).
Proof.
  induction fuel as [|fuel IH]; intros p p' Hok Hrun; [discriminate|].
  destruct (transition_cases p Hok)
    as [[Hw Hstep]|[(Hr & Hdbg & Hstate & Hzero & Hstep)
                   |(Hr & p1 & Hstep & Hok1 & Hbuf & _)]].
  - rewrite (loop_waits NDEBUG little_endian W header_handler_ body_handler_
               fuel p Hok Hw) in Hrun.
    injection Hrun as <-. auto.
  - rewrite (loop_aborts NDEBUG little_endian W header_handler_ body_handler_
               fuel p Hok Hdbg Hstate Hzero) in Hrun.
    discriminate.
  - rewrite (loop_advances NDEBUG little_endian W header_handler_ body_handler_
               fuel p p1 Hok Hr Hstep) in Hrun.
    destruct (IH p1 p' Hok1 Hrun) as (Hok' & Hw' & Hbuf').
    split; [exact Hok'|]. split; [exact Hw'|]. rewrite Hbuf'. exact Hbuf.
Qed.

(** Beyond the bound, more iterations change nothing. *)
Lemma loop_fuel (fuel1 : nat) :
  forall (fuel2 : nat) (p : StreamingParser W),
    parser_ok p = true ->
    (rounds p < fuel1)%nat -> (rounds p < fuel2)%nat ->
    loop fuel1 p = loop fuel2 p.
Proof.
  induction fuel1 as [|fuel1 IH]; intros fuel2 p Hok H1 H2; [lia|].
  destruct fuel2 as [|fuel2]; [lia|].
  destruct (transition_cases p Hok)
    as [[Hw Hstep]|[(Hr & Hdbg & Hstate & Hzero & Hstep)
                   |(Hr & p1 & Hstep & Hok1 & Hbuf & _ & Hless)]].
  - rewrite !(loop_waits NDEBUG little_endian W header_handler_ body_handler_
                _ p Hok Hw). reflexivity.
  - rewrite !(loop_aborts NDEBUG little_endian W header_handler_ body_handler_
                _ p Hok Hdbg Hstate Hzero). reflexivity.
  - rewrite !(loop_advances NDEBUG little_endian W header_handler_
                body_handler_ _ p p1 Hok Hr Hstep).
    apply IH; [exact Hok1|lia|lia].
Qed.

End ParserSteps.

(** X13.  [PerformStreamingParse] on a well-formed parser returns [true]
    exactly when the condition of the loop in [HandleData] is false, and
    then it has changed nothing: inside that loop it never returns [true],
    so the [break] is never taken.  When it returns [false] it has moved
    to the other state, over the same storage. *)
Theorem PerformStreamingParse_true_iff_waiting (NDEBUG little_endian : bool)
    {PH : ProtoHeader} {W : Type}
    (header_handler_ : list byte -> W -> bool * W)
    (body_handler_ : list byte -> Z -> W -> bool * W)
    (p p' : StreamingParser W) (r : bool) :
  parser_ok p = true ->
  PerformStreamingParse NDEBUG little_endian header_handler_ body_handler_ p
  = Returns (r, p') ->
  (r = true <-> loop_condition NDEBUG little_endian p = Returns false)
  /\ (r = true -> p' = p)
  /\ (r = false ->
      recv_state_ p' <> recv_state_ p
      /\ parser_ok p' = true
      /\ buffer_ (recv_buffer_ p') = buffer_ (recv_buffer_ p)).
Proof.
  intros Hok Hstep.
  rewrite (loop_condition_returns NDEBUG little_endian W p Hok).
  destruct (transition_cases NDEBUG little_endian W header_handler_
              body_handler_ p Hok)
    as [[Hw Hstep']|[(Hr & Hdbg & Hstate & Hzero & Hstep')
                    |(Hr & p1 & Hstep' & Hok1 & Hbuf & Hflip & _)]];
    rewrite Hstep' in Hstep; try discriminate;
    injection Hstep as <- <-.
  - split; [|split; [reflexivity|discriminate]].
    split; [|reflexivity]. intros _. f_equal.
    unfold waits in Hw. destruct (recv_state_ p);
      match goal with |- (?a >=? ?b) = false =>
        destruct (Z.geb_spec a b); [lia|reflexivity] end.
  - split; [|split; [discriminate|auto]].
    split; [discriminate|]. intros Hc. exfalso.
    injection Hc as Hc. destruct (recv_state_ p);
      match type of Hc with (?a >=? ?b) = false =>
        destruct (Z.geb_spec a b); [discriminate|lia] end.
Qed.

(** X13 on a fresh parser of the test: nothing is buffered, the call
    returns [true], so the loop condition is false. *)
Lemma PerformStreamingParse_true_iff_waiting_witness :
  loop_condition false true (PH := TestHeader) (parser_holding [])
  = Returns false.
Proof.
  apply (PerformStreamingParse_true_iff_waiting false true (PH := TestHeader)
           (header_says true) (body_says true)
           (parser_holding []) (parser_holding []) true);
    reflexivity.
Defined.

(** X14.  When [HandleData] returns [true], nothing complete is left
    behind: the parser is in [READ_HEADER] with less than a header
    buffered, or in [READ_BODY] with less than the announced body; it is
    well formed and its storage is that of before but for the bytes
    written. *)
Theorem HandleData_leaves_parser_waiting (NDEBUG little_endian : bool)
    {PH : ProtoHeader} {W : Type}
    (header_handler_ : list byte -> W -> bool * W)
    (body_handler_ : list byte -> Z -> W -> bool * W)
    (p p' : StreamingParser W) (data : option (list byte)) (length : Z) :
  parser_ok p = true ->
  valid_span data length = true ->
  HandleData NDEBUG little_endian header_handler_ body_handler_ p data length
  = Returns (true, p') ->
  parser_ok p' = true
  /\ capacity (recv_buffer_ p') = capacity (recv_buffer_ p)
  /\ match recv_state_ p' with
     | READ_HEADER =>
       buffered_bytes_ (recv_buffer_ p') < protocol_header_length
     | READ_BODY =>
       buffered_bytes_ (recv_buffer_ p')
       < body_length little_endian (current_header_ p')
     end.
Proof.
  intros Hok Hspan Hrun. pose proof Hok as Hok'.
  apply parser_ok_facts in Hok' as [F Hhdr].
  unfold HandleData in Hrun.
  destruct (write NDEBUG (recv_buffer_ p) data length) as [[err rb]| | |] eqn:Hw;
    cbn [bind] in Hrun; try discriminate.
  destruct (write_keeps_facts NDEBUG _ _ _ _ _ F Hspan Hw) as (F1 & Hsz & _).
  destruct (error_code_eqb err ErrBufferOverflow); [discriminate|].
  match type of Hrun with
  | context [parse_loop _ _ _ _ ?f ?q] =>
    destruct (parse_loop NDEBUG little_endian header_handler_ body_handler_ f q)
      as [p2| | |] eqn:Hloop; cbn [bind] in Hrun; try discriminate;
    assert (Hq : parser_ok q = true)
      by (apply parser_ok_facts; cbn [recv_buffer_ current_header_];
          split; assumption);
    destruct (loop_settled NDEBUG little_endian W header_handler_
                body_handler_ f q p2 Hq Hloop) as (Hok2 & Hw2 & Hbuf2)
  end.
  injection Hrun as <-. cbn [recv_buffer_] in Hbuf2.
  split; [exact Hok2|]. split; [|exact Hw2].
  apply parser_ok_facts in Hok2 as [F2 _].
  rewrite (capacity_size _ F2), (capacity_size _ F), Hbuf2. exact Hsz.
Qed.

(** X14 on the test's parser, given a header and two of three body
    bytes: it stops in [READ_BODY] with two bytes buffered. *)
Lemma HandleData_leaves_parser_waiting_witness :
  exists p',
    test_HandleData true true true (parser_holding [])
      (Some (wire_header 3 ++ [x01; x02])) 14 = Returns (true, p')
    /\ recv_state_ p' = READ_BODY
    /\ buffered_bytes_ (recv_buffer_ p') < 3.
Proof.
  destruct (test_HandleData true true true (parser_holding [])
              (Some (wire_header 3 ++ [x01; x02])) 14)
    as [[[|] p']| | |] eqn:Hrun; try (vm_compute in Hrun; discriminate).
  exists p'. split; [reflexivity|].
  destruct (HandleData_leaves_parser_waiting true true (PH := TestHeader)
              (header_says true) (body_says true)
              (parser_holding []) p' (Some (wire_header 3 ++ [x01; x02])) 14)
    as (_ & _ & Hw); [reflexivity|reflexivity|exact Hrun|].
  assert (Hstate : recv_state_ p' = READ_BODY /\
                   body_length true (PH := TestHeader) (current_header_ p') = 3).
  { vm_compute in Hrun. injection Hrun as <-. split; reflexivity. }
  destruct Hstate as [Hs Hb]. rewrite Hs, Hb in Hw.
  split; [exact Hs|exact Hw].
Defined.

(** ** Chunk boundaries *)

Lemma firstn_within (n : Z) (a b : list byte) :
  0 <= n <= size a ->
  firstn (Z.to_nat n) (a ++ b) = firstn (Z.to_nat n) a.
Proof.
  unfold size. intros H. rewrite firstn_app.
  replace (Z.to_nat n - length a)%nat with 0%nat by lia.
  cbn [firstn]. apply app_nil_r.
Qed.

Lemma skipn_within (n : Z) (a b : list byte) :
  0 <= n <= size a ->
  skipn (Z.to_nat n) (a ++ b) = skipn (Z.to_nat n) a ++ b.
Proof.
  unfold size. intros H. rewrite skipn_app.
  replace (Z.to_nat n - length a)%nat with 0%nat by lia.
  reflexivity.
Qed.

Section Chunks.

Variable NDEBUG : bool.
Variable little_endian : bool.
Context {PH : ProtoHeader}.
Variable W : Type.
Variable header_handler_ : list byte -> W -> bool * W.
Variable body_handler_ : list byte -> Z -> W -> bool * W.

Local Abbreviation transition :=
  (PerformStreamingParse NDEBUG little_endian header_handler_ body_handler_).
Local Abbreviation loop :=
  (parse_loop NDEBUG little_endian header_handler_ body_handler_).
Local Abbreviation handle :=
  (HandleData NDEBUG little_endian header_handler_ body_handler_).
Local Abbreviation ready p :=
  (match recv_state_ p with
   | READ_HEADER => protocol_header_length <= buffered_bytes_ (recv_buffer_ p)
   | READ_BODY => body_length little_endian (current_header_ p)
                  <= buffered_bytes_ (recv_buffer_ p)
   end).
Local Abbreviation rounds p :=
  (2 * Z.to_nat (buffered_bytes_ (recv_buffer_ p))
   + match recv_state_ p with READ_HEADER => 0 | READ_BODY => 1 end)%nat.
Local Abbreviation with_buffer p rb :=
  {| recv_state_ := recv_state_ p;
     current_header_ := current_header_ p;
     recv_buffer_ := rb;
     world := world p;
     calls := calls p |}.

(** [q] is [p] with the bytes [c] buffered behind those of [p]. *)
Local Abbreviation extends c p q :=
  (observable q
   = (recv_state_ p, current_header_ p, contents (recv_buffer_ p) ++ c,
      world p, calls p)).

(** Two outcomes of the loop that cannot be told apart. *)
Local Abbreviation alike o1 o2 :=
  (match o1, o2 with
   | Returns a, Returns b => observable a = observable b
   | Aborts, Aborts => True
   | _, _ => False
   end).

Lemma extends_count (c : list byte) (p q : StreamingParser W) :
  parser_ok p = true -> parser_ok q = true -> extends c p q ->
  buffered_bytes_ (recv_buffer_ q)
  = buffered_bytes_ (recv_buffer_ p) + size c.
Proof.
  intros Hp Hq He.
  apply parser_ok_facts in Hp as [Fp _]. apply parser_ok_facts in Hq as [Fq _].
  pose proof (rf_count _ Fp). pose proof (rf_count _ Fq).
  unfold observable in He. injection He as _ _ Hc _ _.
  rewrite <- (size_contents (recv_buffer_ q)) by lia.
  rewrite Hc, size_app, size_contents by lia. reflexivity.
Qed.

(** A transition that [p] can make is made in the same way when more
    bytes are buffered behind. *)
Lemma transition_append (c : list byte) (p q : StreamingParser W) :
  parser_ok p = true -> parser_ok q = true -> extends c p q -> ready p ->
  match transition p with
  | Returns (false, p1) =>
    exists q1, transition q = Returns (false, q1) /\ extends c p1 q1
  | Aborts => transition q = Aborts
  | _ => False
  end.
Proof.
  intros Hp Hq He Hr.
  pose proof (extends_count c p q Hp Hq He) as Hcount.
  pose proof (size_nonneg c) as Hc0.
  pose proof Hp as Hp'. apply parser_ok_facts in Hp' as [Fp Hhp].
  pose proof Hq as Hq'. apply parser_ok_facts in Hq' as [Fq Hhq].
  pose proof (rf_count _ Fp) as Hcp. pose proof (rf_count _ Fq) as Hcq.
  pose proof (size_contents (recv_buffer_ p) ltac:(lia)) as Hsp.
  pose proof header_shape as Hs.
  unfold observable in He. injection He as Hst Hhd Hcont Hwd Hcl.
  destruct (recv_state_ p) eqn:Hstate.
  - destruct (header_step NDEBUG little_endian W header_handler_ body_handler_
                p Hp Hstate Hr) as (rb1 & Hstep & _ & _ & _ & Hc1).
    destruct (header_step NDEBUG little_endian W header_handler_ body_handler_
                q Hq Hst) as (rb2 & Hstep2 & _ & _ & _ & Hc2); [lia|].
    rewrite Hstep. eexists. split; [exact Hstep2|].
    unfold observable.
    cbn [recv_state_ current_header_ recv_buffer_ world calls].
    rewrite Hc2, Hc1, Hcont, Hwd, Hcl.
    rewrite firstn_within, skipn_within by lia. reflexivity.
  - set (n := body_length little_endian (current_header_ p)) in *.
    pose proof (body_length_range little_endian (current_header_ p)) as Hn.
    fold n in Hn.
    assert (Hnq : body_length little_endian (current_header_ q) = n)
      by (rewrite Hhd; reflexivity).
    destruct (Z.eq_dec n 0) as [Hzero|Hpos].
    + destruct (bool_dec NDEBUG true) as [Hbuild|Hbuild].
      * rewrite (body_step_empty NDEBUG little_endian W header_handler_
                   body_handler_ p Hbuild Hp Hstate Hzero).
        eexists. split.
        { apply body_step_empty; [exact Hbuild|exact Hq|exact Hst|].
          rewrite Hnq. exact Hzero. }
        unfold observable.
        cbn [recv_state_ current_header_ recv_buffer_ world calls].
        rewrite Hhd, Hcont, Hwd, Hcl. reflexivity.
      * apply not_true_is_false in Hbuild.
        rewrite (body_step_asserts NDEBUG little_endian W header_handler_
                   body_handler_ p Hbuild Hstate Hzero).
        apply body_step_asserts; [exact Hbuild|exact Hst|].
        rewrite Hnq. exact Hzero.
    + destruct (body_step NDEBUG little_endian W header_handler_ body_handler_
                  p Hp Hstate) as (rb1 & Hstep & _ & _ & Hcase1);
        [fold n; lia|]. fold n in Hstep, Hcase1.
      destruct (body_step NDEBUG little_endian W header_handler_ body_handler_
                  q Hq Hst) as (rb2 & Hstep2 & _ & _ & Hcase2);
        [rewrite Hnq; lia|]. rewrite Hnq in Hstep2, Hcase2.
      rewrite Hcont, Hwd in Hstep2, Hcase2.
      rewrite firstn_within in Hstep2, Hcase2 by lia.
      rewrite Hstep. eexists. split; [exact Hstep2|].
      unfold observable.
      cbn [recv_state_ current_header_ recv_buffer_ world calls].
      rewrite Hhd, Hcl.
      destruct (fst (body_handler_ _ n (world p))).
      * destruct Hcase1 as [_ ->]. destruct Hcase2 as [_ ->].
        rewrite skipn_within by lia. reflexivity.
      * rewrite Hcase1, Hcase2, Hcont. reflexivity.
Qed.

Lemma alike_refl_waits (a b : StreamingParser W) (fa fb : nat) :
  parser_ok a = true -> parser_ok b = true ->
  observable a = observable b ->
  waits little_endian a ->
  alike (loop (S fa) a) (loop (S fb) b).
Proof.
  intros Ha Hb Hab Hw.
  assert (He : extends [] a b) by (rewrite <- Hab, app_nil_r; reflexivity).
  pose proof (extends_count [] a b Ha Hb He) as Hcount.
  pose proof Hab as Hab'.
  unfold observable in Hab'. injection Hab' as Hst Hhd _ _ _.
  assert (Hwb : waits little_endian b).
  { unfold waits in *. rewrite <- Hst, <- Hhd, Hcount.
    change (size []) with 0. rewrite Z.add_0_r. exact Hw. }
  rewrite (loop_waits NDEBUG little_endian W header_handler_ body_handler_
             fa a Ha Hw).
  rewrite (loop_waits NDEBUG little_endian W header_handler_ body_handler_
             fb b Hb Hwb).
  exact Hab.
Qed.

(** The loop on two parsers that cannot be told apart. *)
Lemma loop_alike (fa : nat) :
  forall (fb : nat) (a b : StreamingParser W),
    parser_ok a = true -> parser_ok b = true ->
    observable a = observable b ->
    (rounds a < fa)%nat -> (rounds b < fb)%nat ->
    alike (loop fa a) (loop fb b).
Proof.
  induction fa as [|fa IH]; intros fb a b Ha Hb Hab Hfa Hfb; [lia|].
  destruct fb as [|fb]; [lia|].
  assert (He : extends [] a b) by (rewrite <- Hab, app_nil_r; reflexivity).
  pose proof (extends_count [] a b Ha Hb He) as Hcount.
  change (size []) with 0 in Hcount. rewrite Z.add_0_r in Hcount.
  destruct (transition_cases NDEBUG little_endian W header_handler_
              body_handler_ a Ha)
    as [[Hw Hstep]|[(Hr & Hdbg & Hstate & Hzero & Hstep)
                   |(Hr & a1 & Hstep & Ha1 & _ & _ & Hless)]].
  - apply alike_refl_waits; assumption.
  - pose proof (transition_append [] a b Ha Hb He Hr) as Happ.
    rewrite Hstep in Happ.
    unfold observable in Hab. injection Hab as Hst Hhd _ _ _.
    rewrite (loop_aborts NDEBUG little_endian W header_handler_ body_handler_
               fa a Ha Hdbg Hstate Hzero).
    rewrite (loop_aborts NDEBUG little_endian W header_handler_ body_handler_
               fb b Hb Hdbg); [exact I|congruence|rewrite <- Hhd; exact Hzero].
  - pose proof (transition_append [] a b Ha Hb He Hr) as Happ.
    rewrite Hstep in Happ. destruct Happ as (b1 & Hstepb & He1).
    assert (Hrb : ready b).
    { unfold observable in Hab. injection Hab as Hst Hhd _ _ _.
      rewrite <- Hst, <- Hhd, Hcount. exact Hr. }
    destruct (transition_cases NDEBUG little_endian W header_handler_
                body_handler_ b Hb)
      as [[_ Hsb]|[(_ & _ & _ & _ & Hsb)
                  |(_ & b1' & Hsb & Hb1 & _ & _ & Hlessb)]];
      rewrite Hstepb in Hsb; try discriminate.
    injection Hsb as <-.
    rewrite (loop_advances NDEBUG little_endian W header_handler_ body_handler_
               fa a a1 Ha Hr Hstep).
    rewrite (loop_advances NDEBUG little_endian W header_handler_ body_handler_
               fb b b1 Hb Hrb Hstepb).
    apply IH; try assumption; try lia.
    rewrite He1, app_nil_r. reflexivity.
Qed.

(** The loop on [q], which has [c] buffered behind the bytes of [p],
    ends as the loop on [p] followed by the loop on the result with [c]
    buffered behind. *)
Lemma loop_append (c : list byte) (f1 : nat) :
  forall (f2 : nat) (p q : StreamingParser W),
    parser_ok p = true -> parser_ok q = true -> extends c p q ->
    (rounds p < f1)%nat -> (rounds q < f2)%nat ->
    match loop f1 p with
    | Returns p' =>
      forall (q' : StreamingParser W) (f3 : nat),
        parser_ok q' = true -> extends c p' q' -> (rounds q' < f3)%nat ->
        alike (loop f2 q) (loop f3 q')
    | Aborts => loop f2 q = Aborts
    | _ => False
    end.
Proof.
  induction f1 as [|f1 IH]; intros f2 p q Hp Hq He Hf1 Hf2; [lia|].
  destruct f2 as [|f2]; [lia|].
  pose proof (extends_count c p q Hp Hq He) as Hcount.
  pose proof (size_nonneg c) as Hc0.
  destruct (transition_cases NDEBUG little_endian W header_handler_
              body_handler_ p Hp)
    as [[Hw Hstep]|[(Hr & Hdbg & Hstate & Hzero & Hstep)
                   |(Hr & p1 & Hstep & Hp1 & _ & _ & Hless)]].
  - rewrite (loop_waits NDEBUG little_endian W header_handler_ body_handler_
               f1 p Hp Hw).
    intros q' f3 Hq' He' Hf3.
    apply loop_alike; try assumption. rewrite He, He'. reflexivity.
  - pose proof (transition_append c p q Hp Hq He Hr) as Happ.
    rewrite Hstep in Happ.
    unfold observable in He. injection He as Hst Hhd _ _ _.
    rewrite (loop_aborts NDEBUG little_endian W header_handler_ body_handler_
               f1 p Hp Hdbg Hstate Hzero).
    apply loop_aborts; [exact Hq|exact Hdbg|congruence|].
    rewrite Hhd. exact Hzero.
  - pose proof (transition_append c p q Hp Hq He Hr) as Happ.
    rewrite Hstep in Happ. destruct Happ as (q1 & Hstepq & He1).
    assert (Hrq : ready q).
    { unfold observable in He. injection He as Hst Hhd _ _ _.
      rewrite Hst, Hhd, Hcount. destruct (recv_state_ p); lia. }
    destruct (transition_cases NDEBUG little_endian W header_handler_
                body_handler_ q Hq)
      as [[_ Hsq]|[(_ & _ & _ & _ & Hsq)
                  |(_ & q1' & Hsq & Hq1 & _ & _ & Hlessq)]];
      rewrite Hstepq in Hsq; try discriminate.
    injection Hsq as <-.
    rewrite (loop_advances NDEBUG little_endian W header_handler_ body_handler_
               f1 p p1 Hp Hr Hstep).
    rewrite (loop_advances NDEBUG little_endian W header_handler_ body_handler_
               f2 q q1 Hq Hrq Hstepq).
    apply IH; try assumption; lia.
Qed.

(** One call with [c ++ x] against a call with [c] and then one with
    [x]. *)
Lemma handle_append (p : StreamingParser W) (c x : list byte) :
  parser_ok p = true ->
  buffered_bytes_ (recv_buffer_ p) + size c + size x
    <= size (buffer_ (recv_buffer_ p)) ->
  match handle p (Some (c ++ x)) (size (c ++ x)) with
  | Returns (r, qa) =>
    r = true
    /\ exists p1,
         handle p (Some c) (size c) = Returns (true, p1)
         /\ parser_ok p1 = true
         /\ size (buffer_ (recv_buffer_ p1)) = size (buffer_ (recv_buffer_ p))
         /\ buffered_bytes_ (recv_buffer_ p1)
            <= buffered_bytes_ (recv_buffer_ p) + size c
         /\ exists qb,
              handle p1 (Some x) (size x) = Returns (true, qb)
              /\ observable qb = observable qa
  | Aborts =>
    handle p (Some c) (size c) = Aborts
    \/ exists p1,
         handle p (Some c) (size c) = Returns (true, p1)
         /\ parser_ok p1 = true
         /\ size (buffer_ (recv_buffer_ p1)) = size (buffer_ (recv_buffer_ p))
         /\ buffered_bytes_ (recv_buffer_ p1)
            <= buffered_bytes_ (recv_buffer_ p) + size c
         /\ handle p1 (Some x) (size x) = Aborts
  | _ => False
  end.
Proof.
  intros Hp Hfit.
  pose proof (size_nonneg c) as Hc0. pose proof (size_nonneg x) as Hx0.
  pose proof Hp as Hp'. apply parser_ok_facts in Hp' as [Fp Hhp].
  destruct (HandleData_takes_chunk NDEBUG little_endian W header_handler_
              body_handler_ p (c ++ x) Hp)
    as (rbA & FA & HszA & HcntA & HcA & HrunA); [rewrite size_app; lia|].
  destruct (HandleData_takes_chunk NDEBUG little_endian W header_handler_
              body_handler_ p c Hp)
    as (rb1 & F1 & Hsz1 & Hcnt1 & Hc1 & Hrun1); [lia|].
  rewrite HrunA, Hrun1.
  assert (HokA : parser_ok (with_buffer p rbA) = true)
    by (apply parser_ok_facts; cbn [recv_buffer_ current_header_];
        split; assumption).
  assert (Hok1 : parser_ok (with_buffer p rb1) = true)
    by (apply parser_ok_facts; cbn [recv_buffer_ current_header_];
        split; assumption).
  assert (He : extends x (with_buffer p rb1) (with_buffer p rbA)).
  { unfold observable.
    cbn [recv_state_ current_header_ recv_buffer_ world calls].
    rewrite HcA, Hc1, app_assoc. reflexivity. }
  pose proof (loop_append x (loop_budget rb1) (loop_budget rbA)
                (with_buffer p rb1) (with_buffer p rbA) Hok1 HokA He) as Happ.
  pose proof (loop_total NDEBUG little_endian W header_handler_ body_handler_
                (loop_budget rb1) (with_buffer p rb1) Hok1) as Htot.
  unfold loop_budget in Happ, Htot at 1.
  cbn [recv_buffer_ recv_state_] in Happ, Htot.
  specialize (Happ ltac:(destruct (recv_state_ p); lia)
                   ltac:(destruct (recv_state_ p); lia)).
  specialize (Htot ltac:(destruct (recv_state_ p); lia)).
  fold (loop_budget rb1) in Happ. fold (loop_budget rbA) in Happ.
  destruct (loop (loop_budget rb1) (with_buffer p rb1)) as [p1| | |] eqn:Hl1;
    try contradiction.
  - destruct Htot as [(p1' & Heq & Hokp1 & Hszp1 & Hlep1)|[_ Habs]];
      [|discriminate].
    injection Heq as <-. cbn [recv_buffer_] in Hszp1, Hlep1.
    pose proof Hokp1 as Hokp1'. apply parser_ok_facts in Hokp1' as [Fp1 Hhp1].
    destruct (HandleData_takes_chunk NDEBUG little_endian W header_handler_
                body_handler_ p1 x Hokp1)
      as (rb2 & F2 & Hsz2 & Hcnt2 & Hc2 & Hrun2); [lia|].
    assert (Hok2 : parser_ok (with_buffer p1 rb2) = true)
      by (apply parser_ok_facts; cbn [recv_buffer_ current_header_];
          split; assumption).
    specialize (Happ (with_buffer p1 rb2) (loop_budget rb2) Hok2).
    unfold observable at 1 in Happ.
    cbn [recv_state_ current_header_ recv_buffer_ world calls] in Happ.
    rewrite Hc2 in Happ.
    assert (Hb2 : (2 * Z.to_nat (buffered_bytes_ rb2)
                   + match recv_state_ p1 with
                     | READ_HEADER => 0
                     | READ_BODY => 1
                     end < loop_budget rb2)%nat)
      by (unfold loop_budget; destruct (recv_state_ p1); lia).
    specialize (Happ eq_refl Hb2).
    revert Happ.
    destruct (loop (loop_budget rbA) (with_buffer p rbA)) as [qa| | |];
      destruct (loop (loop_budget rb2) (with_buffer p1 rb2)) as [qb| | |] eqn:Hl2;
      intros Happ; cbn [bind]; try contradiction.
    + split; [reflexivity|]. exists p1. split; [reflexivity|].
      split; [exact Hokp1|]. split; [lia|]. split; [lia|].
      exists qb. split; [rewrite Hrun2; reflexivity|].
      symmetry. exact Happ.
    + right. exists p1. split; [reflexivity|].
      split; [exact Hokp1|]. split; [lia|]. split; [lia|].
      rewrite Hrun2. reflexivity.
  - rewrite Happ. cbn [bind]. left. reflexivity.
Qed.

End Chunks.

(** X15.  Chunk boundaries cannot be told.  For every parser state,
    both handlers arbitrary, and every stream cut into chunks that fit
    the free space together: the [HandleData] calls on the chunks all
    return [true] and leave the state, the header object, the buffered
    bytes, the handlers' world and the handler calls that one
    [HandleData] call on the whole stream leaves; and where that call is
    stopped by the assertion, so is one of the calls on the chunks. *)
Theorem chunking_is_invisible (NDEBUG little_endian : bool)
    {PH : ProtoHeader} {W : Type}
    (header_handler_ : list byte -> W -> bool * W)
    (body_handler_ : list byte -> Z -> W -> bool * W)
    (rest : list (list byte)) :
  forall (p : StreamingParser W) (c : list byte),
    parser_ok p = true ->
    buffered_bytes_ (recv_buffer_ p) + size (concat (c :: rest))
      <= capacity (recv_buffer_ p) ->
    match HandleData NDEBUG little_endian header_handler_ body_handler_ p
            (Some (concat (c :: rest))) (size (concat (c :: rest))) with
    | Returns (r, q) =>
      r = true
      /\ exists rs q',
           feed NDEBUG little_endian header_handler_ body_handler_ p
             (c :: rest) = Returns (rs, q')
           /\ Forall (fun r' => r' = true) rs
           /\ observable q' = observable q
    | Aborts =>
      feed NDEBUG little_endian header_handler_ body_handler_ p (c :: rest)
      = Aborts
    | _ => False
    end.
Proof.
  induction rest as [|c2 rest IH]; intros p c Hp Hfit;
    pose proof Hp as Hp'; apply parser_ok_facts in Hp' as [Fp Hhp];
    rewrite (capacity_size _ Fp) in Hfit.
  - cbn [concat] in *. rewrite app_nil_r in *. cbn [feed].
    destruct (HandleData_takes_chunk NDEBUG little_endian W header_handler_
                body_handler_ p c Hp Hfit)
      as (rb1 & F1 & Hsz1 & Hcnt1 & Hc1 & Hrun1).
    assert (Hok1 : parser_ok {| recv_state_ := recv_state_ p;
                                current_header_ := current_header_ p;
                                recv_buffer_ := rb1;
                                world := world p;
                                calls := calls p |} = true)
      by (apply parser_ok_facts; cbn [recv_buffer_ current_header_];
          split; assumption).
    destruct (loop_total NDEBUG little_endian W header_handler_ body_handler_
                (loop_budget rb1) _ Hok1) as [(p1 & Hl & _)|[_ Hl]];
      [unfold loop_budget; cbn [recv_buffer_ recv_state_];
       destruct (recv_state_ p); lia| |];
      rewrite Hrun1, Hl; cbn [bind]; [|reflexivity].
    split; [reflexivity|]. eexists _, _. split; [reflexivity|].
    split; [repeat constructor|reflexivity].
  - change (concat (c :: c2 :: rest)) with (c ++ concat (c2 :: rest)) in *.
    set (x := concat (c2 :: rest)) in *.
    rewrite size_app in Hfit.
    pose proof (handle_append NDEBUG little_endian W header_handler_
                  body_handler_ p c x Hp ltac:(lia)) as Happ.
    change (feed NDEBUG little_endian header_handler_ body_handler_ p
              (c :: c2 :: rest))
      with ('(r, p1) <- HandleData NDEBUG little_endian header_handler_
                          body_handler_ p (Some c) (size c) ;;
            '(rs, p2) <- feed NDEBUG little_endian header_handler_
                           body_handler_ p1 (c2 :: rest) ;;
            Returns (r :: rs, p2)).
    destruct (HandleData NDEBUG little_endian header_handler_ body_handler_ p
                (Some (c ++ x)) (size (c ++ x))) as [[r qa]| | |];
      try contradiction.
    + destruct Happ as (-> & p1 & Hrun1 & Hok1 & Hsz1 & Hle1 & qb & Hrun2 & Hobs).
      split; [reflexivity|].
      pose proof Hok1 as Hok1'. apply parser_ok_facts in Hok1' as [F1 _].
      specialize (IH p1 c2 Hok1).
      rewrite (capacity_size _ F1) in IH. fold x in IH.
      specialize (IH ltac:(lia)). rewrite Hrun2 in IH.
      destruct IH as (_ & rs & q' & Hfeed & Hall & Hobs').
      rewrite Hrun1. cbn [bind]. rewrite Hfeed. cbn [bind].
      eexists _, _. split; [reflexivity|].
      split; [constructor; [reflexivity|exact Hall]|].
      rewrite Hobs'. exact Hobs.
    + destruct Happ as [Hrun1|(p1 & Hrun1 & Hok1 & Hsz1 & Hle1 & Hrun2)].
      * rewrite Hrun1. reflexivity.
      * pose proof Hok1 as Hok1'. apply parser_ok_facts in Hok1' as [F1 _].
        specialize (IH p1 c2 Hok1).
        rewrite (capacity_size _ F1) in IH. fold x in IH.
        specialize (IH ltac:(lia)). rewrite Hrun2 in IH.
        rewrite Hrun1. cbn [bind]. rewrite IH. reflexivity.
Qed.

(** X15 on two frames of the test run together and cut inside the first
    header, the first body and the second header. *)
Lemma chunking_is_invisible_witness :
  match HandleData false true (PH := TestHeader)
          (header_says true) (body_says true) (parser_holding [])
          (Some (concat [firstn 5 (wire_header 3);
                         skipn 5 (wire_header 3) ++ [x01; x02];
                         [x03] ++ firstn 7 (wire_header 2);
                         skipn 7 (wire_header 2) ++ [x04; x05]]))
          (size (concat [firstn 5 (wire_header 3);
                         skipn 5 (wire_header 3) ++ [x01; x02];
                         [x03] ++ firstn 7 (wire_header 2);
                         skipn 7 (wire_header 2) ++ [x04; x05]])) with
  | Returns (r, q) =>
    r = true
    /\ exists rs q',
         feed false true (PH := TestHeader)
           (header_says true) (body_says true) (parser_holding [])
           [firstn 5 (wire_header 3);
            skipn 5 (wire_header 3) ++ [x01; x02];
            [x03] ++ firstn 7 (wire_header 2);
            skipn 7 (wire_header 2) ++ [x04; x05]]
         = Returns (rs, q')
         /\ Forall (fun r' => r' = true) rs
         /\ observable q' = observable q
  | Aborts =>
    feed false true (PH := TestHeader)
      (header_says true) (body_says true) (parser_holding [])
      [firstn 5 (wire_header 3);
       skipn 5 (wire_header 3) ++ [x01; x02];
       [x03] ++ firstn 7 (wire_header 2);
       skipn 7 (wire_header 2) ++ [x04; x05]]
    = Aborts
  | _ => False
  end.
Proof.
  apply (chunking_is_invisible false true (PH := TestHeader)
           (header_says true) (body_says true)
           [skipn 5 (wire_header 3) ++ [x01; x02];
            [x03] ++ firstn 7 (wire_header 2);
            skipn 7 (wire_header 2) ++ [x04; x05]]
           (parser_holding []) (firstn 5 (wire_header 3))).
  - reflexivity.
  - vm_compute. discriminate.
Defined.

(** ** The handler calls of a parse *)

Section HandlerCalls.

Variable NDEBUG : bool.
Variable little_endian : bool.
Context {PH : ProtoHeader}.
Variable W : Type.
Variable header_handler_ : list byte -> W -> bool * W.
Variable body_handler_ : list byte -> Z -> W -> bool * W.

Local Abbreviation transition :=
  (PerformStreamingParse NDEBUG little_endian header_handler_ body_handler_).
Local Abbreviation loop :=
  (parse_loop NDEBUG little_endian header_handler_ body_handler_).
Local Abbreviation handle :=
  (HandleData NDEBUG little_endian header_handler_ body_handler_).
Local Abbreviation in_order :=
  (calls_in_order little_endian).
Local Abbreviation taken cs :=
  (concat (map (stream_bytes little_endian) cs)).
Local Abbreviation accepting :=
  (forall data length w, fst (body_handler_ data length w) = true).

Lemma in_order_after_empty_body (header header' : list byte)
    (cs : list handler_call) :
  body_length little_endian header = 0 ->
  in_order READ_HEADER header' cs = true ->
  in_order READ_BODY header cs = true.
Proof.
  intros Hzero H. destruct cs as [|[h|data length] rest];
    cbn [calls_in_order andb] in *; [reflexivity| |discriminate].
  rewrite Hzero. exact H.
Qed.

(** The calls that the loop adds, and the bytes it takes. *)
Lemma loop_calls (fuel : nat) :
  forall p p' : StreamingParser W,
    parser_ok p = true -> loop fuel p = Returns p' ->
    exists new,
      calls p' = calls p ++ new
      /\ in_order (recv_state_ p) (current_header_ p) new = true
      /\ (accepting ->
          taken new ++ contents (recv_buffer_ p') = contents (recv_buffer_ p)).
Proof.
  induction fuel as [|fuel IH]; intros p p' Hok Hrun; [discriminate|].
  pose proof Hok as Hok'. apply parser_ok_facts in Hok' as [F Hhdr].
  pose proof (rf_count _ F) as Hcnt.
  pose proof (size_contents (recv_buffer_ p) ltac:(lia)) as Hsz.
  pose proof header_shape as Hs.
  destruct (transition_cases NDEBUG little_endian W header_handler_
              body_handler_ p Hok)
    as [[Hw Hstep]|[(Hr & Hdbg & Hstate & Hzero & Hstep)
                   |(Hr & p1 & Hstep & Hok1 & _)]].
  - rewrite (loop_waits NDEBUG little_endian W header_handler_ body_handler_
               fuel p Hok Hw) in Hrun.
    injection Hrun as <-. exists [].
    split; [rewrite app_nil_r; reflexivity|]. split; reflexivity.
  - rewrite (loop_aborts NDEBUG little_endian W header_handler_ body_handler_
               fuel p Hok Hdbg Hstate Hzero) in Hrun.
    discriminate.
  - rewrite (loop_advances NDEBUG little_endian W header_handler_ body_handler_
               fuel p p1 Hok Hr Hstep) in Hrun.
    destruct (IH p1 p' Hok1 Hrun) as (new1 & Hcalls & Hord & Htaken).
    destruct (recv_state_ p) eqn:Hstate.
    + destruct (header_step NDEBUG little_endian W header_handler_
                  body_handler_ p Hok Hstate Hr)
        as (rb' & Hstep' & _ & _ & _ & Hcont).
      rewrite Hstep' in Hstep. injection Hstep as <-.
      cbn [calls recv_state_ current_header_ recv_buffer_] in *.
      eexists (_ :: new1).
      split; [rewrite Hcalls, <- app_assoc; reflexivity|].
      split; [exact Hord|].
      intros Hacc. specialize (Htaken Hacc).
      cbn [map concat stream_bytes].
      rewrite conversion_involutive
        by (rewrite size_firstn; rewrite ?size_contents; lia).
      rewrite <- app_assoc, Htaken, Hcont. apply firstn_skipn.
    + set (n := body_length little_endian (current_header_ p)) in *.
      pose proof (body_length_range little_endian (current_header_ p)) as Hn.
      fold n in Hn.
      destruct (Z.eq_dec n 0) as [Hzero|Hpos].
      * assert (Hbuild : NDEBUG = true).
        { destruct (bool_dec NDEBUG true) as [|Hb]; [assumption|].
          apply not_true_is_false in Hb.
          rewrite (body_step_asserts NDEBUG little_endian W header_handler_
                     body_handler_ p Hb Hstate Hzero) in Hstep.
          discriminate. }
        rewrite (body_step_empty NDEBUG little_endian W header_handler_
                   body_handler_ p Hbuild Hok Hstate Hzero) in Hstep.
        injection Hstep as <-.
        cbn [calls recv_state_ current_header_ recv_buffer_] in *.
        exists new1. split; [exact Hcalls|].
        split; [|exact Htaken].
        eapply in_order_after_empty_body; [exact Hzero|exact Hord].
      * destruct (body_step NDEBUG little_endian W header_handler_
                    body_handler_ p Hok Hstate)
          as (rb' & Hstep' & _ & _ & Hcase); [fold n; lia|].
        fold n in Hstep', Hcase.
        rewrite Hstep' in Hstep. injection Hstep as <-.
        cbn [calls recv_state_ current_header_ recv_buffer_] in *.
        eexists (_ :: new1).
        split; [rewrite Hcalls, <- app_assoc; reflexivity|].
        split.
        { cbn [calls_in_order]. fold n. rewrite Hord, Z.eqb_refl.
          rewrite size_firstn by lia. rewrite Z.eqb_refl.
          destruct (Z.ltb_spec 0 n); [reflexivity|lia]. }
        intros Hacc. specialize (Htaken Hacc).
        rewrite Hacc in Hcase. destruct Hcase as [_ Hcont].
        cbn [map concat stream_bytes].
        rewrite <- app_assoc, Htaken, Hcont. apply firstn_skipn.
Qed.

End HandlerCalls.

(** X16.  The order of the handler calls.  Whatever the handlers
    answer, the calls that a [HandleData] call adds follow the protocol:
    [body_handler_] is called only for a header object that announces a
    body, with exactly the announced number of bytes, which is positive,
    and next comes [header_handler_] if anything; two header calls in a
    row happen only when the first header announced an empty body.  The
    earlier calls stay as they are. *)
Theorem handler_calls_in_order (NDEBUG little_endian : bool)
    {PH : ProtoHeader} {W : Type}
    (header_handler_ : list byte -> W -> bool * W)
    (body_handler_ : list byte -> Z -> W -> bool * W)
    (p p' : StreamingParser W) (data : option (list byte)) (length : Z)
    (r : bool) :
  parser_ok p = true ->
  valid_span data length = true ->
  HandleData NDEBUG little_endian header_handler_ body_handler_ p data length
  = Returns (r, p') ->
  exists new,
    calls p' = calls p ++ new
    /\ calls_in_order little_endian (recv_state_ p) (current_header_ p) new
       = true.
Proof.
  intros Hok Hspan Hrun. pose proof Hok as Hok'.
  apply parser_ok_facts in Hok' as [F Hhdr].
  unfold HandleData in Hrun.
  destruct (write NDEBUG (recv_buffer_ p) data length) as [[err rb]| | |] eqn:Hw;
    cbn [bind] in Hrun; try discriminate.
  destruct (write_keeps_facts NDEBUG _ _ _ _ _ F Hspan Hw) as (F1 & Hsz & _).
  destruct (error_code_eqb err ErrBufferOverflow).
  { injection Hrun as <- <-. exists []. cbn [calls].
    split; [rewrite app_nil_r; reflexivity|reflexivity]. }
  match type of Hrun with
  | context [parse_loop _ _ _ _ ?f ?q] =>
    destruct (parse_loop NDEBUG little_endian header_handler_ body_handler_ f q)
      as [p2| | |] eqn:Hloop; cbn [bind] in Hrun; try discriminate;
    assert (Hq : parser_ok q = true)
      by (apply parser_ok_facts; cbn [recv_buffer_ current_header_];
          split; assumption);
    destruct (loop_calls NDEBUG little_endian W header_handler_
                body_handler_ f q p2 Hq Hloop) as (new & Hcalls & Hord & _)
  end.
  injection Hrun as <- <-. exists new. split; [exact Hcalls|exact Hord].
Qed.

(** X16 on a header with an empty body followed by a frame of three
    bytes, in a build without assertions: two header calls, then the
    body. *)
Lemma handler_calls_in_order_witness :
  exists p' new,
    test_HandleData true true true (parser_holding [])
      (Some (wire_header 0 ++ wire_header 3 ++ [x01; x02; x03])) 27
    = Returns (true, p')
    /\ calls p' = new
    /\ length new = 3%nat
    /\ calls_in_order true (PH := TestHeader) READ_HEADER (repeat x00 12) new
       = true.
Proof.
  destruct (test_HandleData true true true (parser_holding [])
              (Some (wire_header 0 ++ wire_header 3 ++ [x01; x02; x03])) 27)
    as [[r p']| | |] eqn:Hrun; try (vm_compute in Hrun; discriminate).
  destruct (handler_calls_in_order true true (PH := TestHeader)
              (header_says true) (body_says true) (parser_holding []) p'
              (Some (wire_header 0 ++ wire_header 3 ++ [x01; x02; x03])) 27 r)
    as (new & Hcalls & Hord); [reflexivity|reflexivity|exact Hrun|].
  cbn [parser_holding calls app] in Hcalls.
  assert (Hr : r = true /\ length (calls p') = 3%nat).
  { vm_compute in Hrun. injection Hrun as <- <-. split; reflexivity. }
  destruct Hr as [-> Hlen].
  exists p', new. split; [reflexivity|]. split; [exact Hcalls|].
  split; [rewrite <- Hcalls; exact Hlen|exact Hord].
Defined.

(** X17.  No byte is lost, repeated or moved.  With a body handler that
    accepts what it is shown, the bytes for which [HandleData] calls the
    handlers, in the order of the calls, followed by the bytes still
    buffered afterwards, are the bytes that were buffered before followed
    by the chunk. *)
Theorem stream_is_conserved (NDEBUG little_endian : bool)
    {PH : ProtoHeader} {W : Type}
    (header_handler_ : list byte -> W -> bool * W)
    (body_handler_ : list byte -> Z -> W -> bool * W)
    (p p' : StreamingParser W) (chunk : list byte) (r : bool) :
  (forall data length w, fst (body_handler_ data length w) = true) ->
  parser_ok p = true ->
  buffered_bytes_ (recv_buffer_ p) + size chunk <= capacity (recv_buffer_ p) ->
  HandleData NDEBUG little_endian header_handler_ body_handler_ p
    (Some chunk) (size chunk) = Returns (r, p') ->
  exists new,
    calls p' = calls p ++ new
    /\ concat (map (stream_bytes little_endian) new)
         ++ contents (recv_buffer_ p')
       = contents (recv_buffer_ p) ++ chunk.
Proof.
  intros Hacc Hok Hfit Hrun. pose proof Hok as Hok'.
  apply parser_ok_facts in Hok' as [F Hhdr].
  rewrite (capacity_size _ F) in Hfit.
  destruct (HandleData_takes_chunk NDEBUG little_endian W header_handler_
              body_handler_ p chunk Hok Hfit)
    as (rb1 & F1 & Hsz1 & Hcnt1 & Hc1 & Hrun1).
  rewrite Hrun1 in Hrun.
  match type of Hrun with
  | context [parse_loop _ _ _ _ ?f ?q] =>
    destruct (parse_loop NDEBUG little_endian header_handler_ body_handler_ f q)
      as [p2| | |] eqn:Hloop; cbn [bind] in Hrun; try discriminate;
    assert (Hq : parser_ok q = true)
      by (apply parser_ok_facts; cbn [recv_buffer_ current_header_];
          split; assumption);
    destruct (loop_calls NDEBUG little_endian W header_handler_
                body_handler_ f q p2 Hq Hloop) as (new & Hcalls & _ & Htaken)
  end.
  injection Hrun as <- <-. exists new. split; [exact Hcalls|].
  cbn [recv_buffer_] in Htaken. rewrite (Htaken Hacc). exact Hc1.
Qed.

(** X17 on a frame of the test and the first five bytes of the next:
    header and body go to the handlers, the five bytes stay buffered. *)
Lemma stream_is_conserved_witness :
  exists p',
    test_HandleData false true true (parser_holding [])
      (Some (wire_header 3 ++ [x01; x02; x03] ++ firstn 5 (wire_header 2)))
      (size (wire_header 3 ++ [x01; x02; x03] ++ firstn 5 (wire_header 2)))
    = Returns (true, p')
    /\ concat (map (stream_bytes true (PH := TestHeader)) (calls p'))
       = wire_header 3 ++ [x01; x02; x03]
    /\ contents (recv_buffer_ p') = firstn 5 (wire_header 2).
Proof.
  destruct (test_HandleData false true true (parser_holding [])
              (Some (wire_header 3 ++ [x01; x02; x03] ++ firstn 5 (wire_header 2)))
              (size (wire_header 3 ++ [x01; x02; x03] ++ firstn 5 (wire_header 2))))
    as [[r p']| | |] eqn:Hrun; try (vm_compute in Hrun; discriminate).
  destruct (stream_is_conserved false true (PH := TestHeader)
              (header_says true) (body_says true) (parser_holding []) p'
              (wire_header 3 ++ [x01; x02; x03] ++ firstn 5 (wire_header 2)) r)
    as (new & Hcalls & Hcons);
    [reflexivity|reflexivity|vm_compute; discriminate|exact Hrun|].
  cbn [parser_holding calls app] in Hcalls.
  assert (Hr : r = true
               /\ contents (recv_buffer_ p') = firstn 5 (wire_header 2)).
  { vm_compute in Hrun. injection Hrun as <- <-. split; reflexivity. }
  destruct Hr as [-> Hleft].
  exists p'. split; [reflexivity|]. split; [|exact Hleft].
  rewrite Hcalls. rewrite Hleft in Hcons.
  change (contents (recv_buffer_ (parser_holding []))
          ++ wire_header 3 ++ [x01; x02; x03] ++ firstn 5 (wire_header 2))
    with ((wire_header 3 ++ [x01; x02; x03]) ++ firstn 5 (wire_header 2))
    in Hcons.
  apply app_inv_tail in Hcons. exact Hcons.
Defined.

(** ** The parser between calls *)

(** [write] returns whenever the sum of count and length stays within 32
    bits. *)
Lemma write_returns (NDEBUG : bool) (rb : RingBuffer)
    (data : option (list byte)) (length : Z) :
  ring_facts rb -> valid_span data length = true ->
  buffered_bytes_ rb + length < 2 ^ 32 ->
  exists err rb',
    write NDEBUG rb data length = Returns (err, rb')
    /\ ring_facts rb' /\ size (buffer_ rb') = size (buffer_ rb).
Proof.
  intros F Hspan Hsum. pose proof (rf_count rb F) as Hcnt.
  pose proof Hspan as Hspan'.
  apply valid_span_facts in Hspan' as [Hlen Hsrc].
  assert (Hret : exists err rb', write NDEBUG rb data length = Returns (err, rb')).
  { destruct data as [src|];
      [|eexists _, _; apply write_invalid; left; reflexivity].
    destruct (Z.eq_dec length 0) as [Hz|Hnz];
      [eexists _, _; apply write_invalid; right; exact Hz|].
    destruct (Z.le_gt_cases (buffered_bytes_ rb + length) (size (buffer_ rb))).
    - destruct (write_accepts NDEBUG rb src length F) as (rb1 & Hw1 & _);
        try lia.
      eexists _, _. exact Hw1.
    - eexists _, _. apply write_rejects; [exact F|lia..]. }
  destruct Hret as (err & rb' & Hw). exists err, rb'.
  split; [exact Hw|].
  destruct (write_keeps_facts NDEBUG _ _ _ _ _ F Hspan Hw) as (F' & Hsz & _).
  split; assumption.
Qed.

(** The state in which [read] leaves the ring buffer does not depend on
    the target. *)
Lemma read_target_irrelevant (NDEBUG : bool) (rb : RingBuffer)
    (d1 d2 : list byte) (length : Z) :
  ring_facts rb -> 0 <= length < 2 ^ 32 ->
  length <= size d1 -> length <= size d2 ->
  let n := Z.min length (buffered_bytes_ rb) in
  exists rb',
    read NDEBUG rb (Some d1) length
    = Returns (n, Some (firstn (Z.to_nat n) (contents rb)
                          ++ skipn (Z.to_nat n) d1), rb')
    /\ read NDEBUG rb (Some d2) length
       = Returns (n, Some (firstn (Z.to_nat n) (contents rb)
                             ++ skipn (Z.to_nat n) d2), rb').
Proof.
  intros F Hlen H1 H2 n.
  pose proof F as [Hcpos Hcmax Hpow Hmask Hrd Hwr Hcnt Hring].
  destruct (Z.eq_dec n 0) as [Hn0|Hn0].
  - exists rb. unfold read.
    destruct (Z.eqb_spec length 0);
      [|destruct (Z.eqb_spec (buffered_bytes_ rb) 0); [|unfold n in Hn0; lia]];
      rewrite Hn0; split; reflexivity.
  - assert (Hpos : 0 < length /\ 0 < buffered_bytes_ rb)
      by (unfold n in Hn0; lia).
    unfold read.
    destruct (Z.eqb_spec length 0); [lia|].
    destruct (Z.eqb_spec (buffered_bytes_ rb) 0); [lia|].
    rewrite (buffered_bytes_returns NDEBUG rb F). cbn [bind]. fold n.
    pose proof (read_copy rb d1 n F) as Hc1. cbv zeta in Hc1.
    pose proof (read_copy rb d2 n F) as Hc2. cbv zeta in Hc2.
    rewrite Hc1, Hc2 by (unfold n; lia). cbn [bind buffered_bytes_].
    rewrite (to_uint32_small (buffered_bytes_ rb)) by lia.
    rewrite (to_uint32_small (buffered_bytes_ rb - n)) by (unfold n; lia).
    rewrite (to_int32_small (buffered_bytes_ rb - n)) by (unfold n; lia).
    rewrite (assert_holds NDEBUG) by (unfold n; lia). cbn [bind].
    eexists. split; reflexivity.
Qed.

Section BetweenCalls.

Variable NDEBUG : bool.
Variable little_endian : bool.
Context {PH : ProtoHeader}.
Variable W : Type.
Variable header_handler_ : list byte -> W -> bool * W.
Variable body_handler_ : list byte -> Z -> W -> bool * W.

Local Abbreviation transition :=
  (PerformStreamingParse NDEBUG little_endian header_handler_ body_handler_).
Local Abbreviation loop :=
  (parse_loop NDEBUG little_endian header_handler_ body_handler_).
Local Abbreviation handle :=
  (HandleData NDEBUG little_endian header_handler_ body_handler_).
Local Abbreviation with_buffer p rb :=
  {| recv_state_ := recv_state_ p;
     current_header_ := current_header_ p;
     recv_buffer_ := rb;
     world := world p;
     calls := calls p |}.
Local Abbreviation with_header p h :=
  {| recv_state_ := recv_state_ p;
     current_header_ := h;
     recv_buffer_ := recv_buffer_ p;
     world := world p;
     calls := calls p |}.

(** In state [READ_HEADER] with a header buffered, the loop does not
    depend on what the header object holds. *)
Lemma loop_header_irrelevant (fuel : nat) (p : StreamingParser W)
    (g : list byte) :
  parser_ok p = true -> recv_state_ p = READ_HEADER ->
  size g = protocol_header_length ->
  protocol_header_length <= buffered_bytes_ (recv_buffer_ p) ->
  loop fuel (with_header p g) = loop fuel p.
Proof.
  intros Hok Hstate Hg Hready. destruct fuel as [|fuel]; [reflexivity|].
  pose proof Hok as Hok'. apply parser_ok_facts in Hok' as [F Hhdr].
  pose proof header_shape as Hs.
  assert (Hokg : parser_ok (with_header p g) = true)
    by (apply parser_ok_facts; cbn [recv_buffer_ current_header_];
        split; assumption).
  assert (Hsame : transition (with_header p g) = transition p).
  { unfold PerformStreamingParse.
    cbn [recv_state_ recv_buffer_ current_header_ world calls].
    rewrite Hstate.
    rewrite (buffered_bytes_returns NDEBUG _ F). cbn [bind].
    destruct (Z.geb_spec (buffered_bytes_ (recv_buffer_ p))
                protocol_header_length); [|lia].
    destruct (read_target_irrelevant NDEBUG (recv_buffer_ p)
                g (current_header_ p) protocol_header_length F)
      as (rb' & Hr1 & Hr2); [lia|lia|lia|].
    rewrite Z.min_l in Hr1, Hr2 by lia.
    rewrite skipn_all2, app_nil_r in Hr1 by (unfold size in Hg; lia).
    rewrite skipn_all2, app_nil_r in Hr2 by (unfold size in Hhdr; lia).
    rewrite Hr1, Hr2. reflexivity. }
  cbn [parse_loop]. rewrite Hsame.
  rewrite (loop_condition_returns NDEBUG little_endian W _ Hokg).
  rewrite (loop_condition_returns NDEBUG little_endian W _ Hok).
  cbn [recv_state_ recv_buffer_]. rewrite Hstate.
  destruct (Z.geb_spec (buffered_bytes_ (recv_buffer_ p))
              protocol_header_length); [reflexivity|lia].
Qed.

(** One call on a parser at rest in [READ_BODY] whose header announces
    more than the capacity. *)
Lemma handle_blocked (p : StreamingParser W) (chunk : list byte) :
  parser_ok p = true -> recv_state_ p = READ_BODY ->
  capacity (recv_buffer_ p) < body_length little_endian (current_header_ p) ->
  size chunk < 2 ^ 31 ->
  exists r rb,
    handle p (Some chunk) (size chunk) = Returns (r, with_buffer p rb)
    /\ parser_ok (with_buffer p rb) = true
    /\ capacity rb = capacity (recv_buffer_ p).
Proof.
  intros Hok Hstate Hbig Hsize.
  pose proof Hok as Hok'. apply parser_ok_facts in Hok' as [F Hhdr].
  pose proof (rf_count _ F) as Hcnt. pose proof (rf_cap_max _ F) as Hmax.
  pose proof (size_nonneg chunk) as Hc0.
  rewrite (capacity_size _ F) in Hbig.
  destruct (write_returns NDEBUG (recv_buffer_ p) (Some chunk) (size chunk) F)
    as (err & rb & Hw & F1 & Hsz); [|lia|].
  { unfold valid_span.
    destruct (Z.leb_spec 0 (size chunk)); [|lia].
    destruct (Z.ltb_spec (size chunk) (2 ^ 32)); [|lia].
    destruct (Z.leb_spec (size chunk) (size chunk)); [reflexivity|lia]. }
  assert (Hok1 : parser_ok (with_buffer p rb) = true)
    by (apply parser_ok_facts; cbn [recv_buffer_ current_header_];
        split; assumption).
  pose proof (rf_count _ F1) as Hcnt1.
  unfold HandleData. rewrite Hw. cbn [bind].
  exists (negb (error_code_eqb err ErrBufferOverflow)), rb.
  split; [|split; [exact Hok1|]].
  - destruct (error_code_eqb err ErrBufferOverflow); [reflexivity|].
    unfold loop_budget.
    rewrite (loop_waits NDEBUG little_endian W header_handler_ body_handler_
               _ _ Hok1)
      by (cbn [recv_state_ recv_buffer_ current_header_]; rewrite Hstate; lia).
    reflexivity.
  - rewrite (capacity_size _ F1), (capacity_size _ F). exact Hsz.
Qed.

(** A call at rest keeps the parser well formed and at rest. *)
Lemma handle_keeps_rest (p p' : StreamingParser W) (chunk : list byte)
    (r : bool) :
  parser_ok p = true -> waits little_endian p ->
  size chunk < 2 ^ 32 ->
  handle p (Some chunk) (size chunk) = Returns (r, p') ->
  parser_ok p' = true /\ waits little_endian p'
  /\ size (buffer_ (recv_buffer_ p')) = size (buffer_ (recv_buffer_ p)).
Proof.
  intros Hok Hrest Hsize Hrun.
  pose proof Hok as Hok'. apply parser_ok_facts in Hok' as [F Hhdr].
  pose proof (size_nonneg chunk) as Hc0.
  assert (Hspan : valid_span (Some chunk) (size chunk) = true).
  { unfold valid_span.
    destruct (Z.leb_spec 0 (size chunk)); [|lia].
    destruct (Z.ltb_spec (size chunk) (2 ^ 32)); [|lia].
    destruct (Z.leb_spec (size chunk) (size chunk)); [reflexivity|lia]. }
  unfold HandleData in Hrun.
  destruct (write NDEBUG (recv_buffer_ p) (Some chunk) (size chunk))
    as [[err rb]| | |] eqn:Hw; cbn [bind] in Hrun; try discriminate.
  destruct (write_keeps_facts NDEBUG _ _ _ _ _ F Hspan Hw) as (F1 & Hsz & Hsame).
  destruct err; cbn [error_code_eqb] in Hrun.
  2:{ injection Hrun as <- <-. rewrite Hsame by discriminate.
      destruct p as [st hd rb0 w0 cs].
      cbn [recv_state_ current_header_ recv_buffer_ world calls] in *.
      auto. }
  all: match type of Hrun with
       | context [parse_loop _ _ _ _ ?f ?q] =>
         destruct (parse_loop NDEBUG little_endian header_handler_
                     body_handler_ f q) as [p2| | |] eqn:Hloop;
         cbn [bind] in Hrun; try discriminate;
         assert (Hq : parser_ok q = true)
           by (apply parser_ok_facts; cbn [recv_buffer_ current_header_];
               split; assumption);
         destruct (loop_settled NDEBUG little_endian W header_handler_
                     body_handler_ f q p2 Hq Hloop) as (Hok2 & Hw2 & Hbuf2)
       end;
    injection Hrun as <- <-; cbn [recv_buffer_] in Hbuf2;
    (split; [exact Hok2|]); (split; [exact Hw2|]);
    rewrite Hbuf2; exact Hsz.
Qed.

End BetweenCalls.

(** X18.  The header object, which the constructor leaves
    uninitialised, is never read before a header has been copied into it:
    for a parser in [READ_HEADER], [HandleData] returns the same, makes
    the same handler calls and leaves the same ring buffer whatever the
    header object holds, and the header object itself comes out the same
    unless no header was read, in which case it is left alone. *)
Theorem uninitialised_header_is_never_read (NDEBUG little_endian : bool)
    {PH : ProtoHeader} {W : Type}
    (header_handler_ : list byte -> W -> bool * W)
    (body_handler_ : list byte -> Z -> W -> bool * W)
    (p : StreamingParser W) (g : list byte)
    (data : option (list byte)) (length : Z) :
  parser_ok p = true -> recv_state_ p = READ_HEADER ->
  size g = protocol_header_length ->
  valid_span data length = true ->
  match
    HandleData NDEBUG little_endian header_handler_ body_handler_ p
      data length,
    HandleData NDEBUG little_endian header_handler_ body_handler_
      {| recv_state_ := recv_state_ p;
         current_header_ := g;
         recv_buffer_ := recv_buffer_ p;
         world := world p;
         calls := calls p |} data length
  with
  | Returns (r, q), Returns (r', q') =>
    r = r' /\ recv_state_ q = recv_state_ q'
    /\ recv_buffer_ q = recv_buffer_ q'
    /\ world q = world q' /\ calls q = calls q'
    /\ (current_header_ q = current_header_ q'
        \/ (calls q = calls p
            /\ current_header_ q = current_header_ p
            /\ current_header_ q' = g))
  | Aborts, Aborts => True
  | OutOfRange, OutOfRange => True
  | NoFuel, NoFuel => True
  | _, _ => False
  end.
Proof.
  intros Hok Hstate Hg Hspan.
  pose proof Hok as Hok'. apply parser_ok_facts in Hok' as [F Hhdr].
  unfold HandleData. cbn [recv_state_ current_header_ recv_buffer_ world calls].
  destruct (write NDEBUG (recv_buffer_ p) data length) as [[err rb]| | |] eqn:Hw;
    cbn [bind]; try exact I.
  destruct (write_keeps_facts NDEBUG _ _ _ _ _ F Hspan Hw) as (F1 & Hsz & _).
  destruct (error_code_eqb err ErrBufferOverflow).
  { cbn [recv_state_ current_header_ recv_buffer_ world calls].
    repeat (split; [reflexivity|]). right. repeat split. }
  set (p1 := {| recv_state_ := recv_state_ p;
                current_header_ := current_header_ p;
                recv_buffer_ := rb;
                world := world p;
                calls := calls p |}).
  assert (Hok1 : parser_ok p1 = true)
    by (apply parser_ok_facts; cbn [p1 recv_buffer_ current_header_];
        split; assumption).
  destruct (Z.lt_ge_cases (buffered_bytes_ rb) protocol_header_length)
    as [Hshort|Hready].
  - unfold loop_budget.
    rewrite (loop_waits NDEBUG little_endian W header_handler_ body_handler_
               _ p1 Hok1)
      by (cbn [p1 recv_state_ recv_buffer_]; rewrite Hstate; exact Hshort).
    rewrite (loop_waits NDEBUG little_endian W header_handler_ body_handler_)
      by (try (apply parser_ok_facts; cbn [recv_buffer_ current_header_];
               split; assumption);
          cbn [recv_state_ recv_buffer_]; rewrite Hstate; exact Hshort).
    cbn [bind p1 recv_state_ current_header_ recv_buffer_ world calls].
    repeat (split; [reflexivity|]). right. repeat split.
  - pose proof (loop_header_irrelevant NDEBUG little_endian W header_handler_
                  body_handler_ (loop_budget rb) p1 g Hok1) as Hloop.
    cbn [p1 recv_state_ current_header_ recv_buffer_ world calls] in Hloop.
    rewrite Hloop by assumption. fold p1.
    destruct (parse_loop NDEBUG little_endian header_handler_ body_handler_
                (loop_budget rb) p1) as [q| | |]; cbn [bind]; try exact I.
    repeat (split; [reflexivity|]). left. reflexivity.
Qed.

(** X18 on two parsers of the test whose header objects differ, given a
    whole frame. *)
Lemma uninitialised_header_is_never_read_witness :
  match
    HandleData false true (PH := TestHeader)
      (header_says true) (body_says true) (parser_holding [])
      (Some (wire_header 3 ++ [x01; x02; x03])) 15,
    HandleData false true (PH := TestHeader)
      (header_says true) (body_says true)
      {| recv_state_ := recv_state_ (parser_holding []);
         current_header_ := repeat xff 12;
         recv_buffer_ := recv_buffer_ (parser_holding []);
         world := world (parser_holding []);
         calls := calls (parser_holding []) |}
      (Some (wire_header 3 ++ [x01; x02; x03])) 15
  with
  | Returns (r, q), Returns (r', q') =>
    r = r' /\ recv_state_ q = recv_state_ q'
    /\ recv_buffer_ q = recv_buffer_ q'
    /\ world q = world q' /\ calls q = calls q'
    /\ (current_header_ q = current_header_ q'
        \/ (calls q = calls (parser_holding [])
            /\ current_header_ q = current_header_ (parser_holding [])
            /\ current_header_ q' = repeat xff 12))
  | Aborts, Aborts => True
  | OutOfRange, OutOfRange => True
  | NoFuel, NoFuel => True
  | _, _ => False
  end.
Proof.
  apply (uninitialised_header_is_never_read false true (PH := TestHeader)
           (header_says true) (body_says true) (parser_holding [])
           (repeat xff 12) (Some (wire_header 3 ++ [x01; x02; x03])) 15);
    reflexivity.
Defined.

(** X19.  A header that announces a body longer than the capacity of
    the ring buffer blocks the parser for good: whatever chunks follow,
    every [HandleData] call returns, no handler is called any more, and
    the parser stays in [READ_BODY] with that header. *)
Theorem oversized_body_blocks_parser (NDEBUG little_endian : bool)
    {PH : ProtoHeader} {W : Type}
    (header_handler_ : list byte -> W -> bool * W)
    (body_handler_ : list byte -> Z -> W -> bool * W)
    (chunks : list (list byte)) :
  forall p : StreamingParser W,
    parser_ok p = true -> recv_state_ p = READ_BODY ->
    capacity (recv_buffer_ p) < body_length little_endian (current_header_ p) ->
    Forall (fun chunk => size chunk < 2 ^ 31) chunks ->
    exists rs p',
      feed NDEBUG little_endian header_handler_ body_handler_ p chunks
      = Returns (rs, p')
      /\ length rs = length chunks
      /\ recv_state_ p' = READ_BODY
      /\ current_header_ p' = current_header_ p
      /\ world p' = world p
      /\ calls p' = calls p.
Proof.
  induction chunks as [|chunk rest IH]; intros p Hok Hstate Hbig Hall.
  - exists [], p. repeat split; assumption.
  - inversion Hall as [|? ? Hsize Hrest]; subst.
    destruct (handle_blocked NDEBUG little_endian W header_handler_
                body_handler_ p chunk Hok Hstate Hbig Hsize)
      as (r & rb & Hrun & Hok1 & Hcap).
    match type of Hrun with
    | _ = Returns (_, ?q) =>
      destruct (IH q Hok1 Hstate) as (rs & p' & Hfeed & Hlen & Hs & Hh & Hw & Hc);
        [cbn [recv_buffer_ current_header_]; rewrite Hcap; exact Hbig
        |exact Hrest|]
    end.
    cbn [feed]. rewrite Hrun. cbn [bind]. rewrite Hfeed. cbn [bind].
    exists (r :: rs), p'. split; [reflexivity|].
    split; [cbn [length]; rewrite Hlen; reflexivity|].
    split; [exact Hs|]. split; [exact Hh|]. split; [exact Hw|exact Hc].
Qed.

(** X19 on the test's parser after a header that announces 4096 bytes:
    2048 bytes are taken in, the next one is refused, no handler runs. *)
Lemma oversized_body_blocks_parser_witness :
  exists rs p',
    test_feed false true true
      {| recv_state_ := READ_BODY;
         current_header_ :=
           DoBytesOrderConversion true (PH := TestHeader) (wire_header 4096);
         recv_buffer_ := recv_buffer_ (parser_holding []);
         world := tt;
         calls := [] |}
      [repeat x5a 2048; [x01]] = Returns (rs, p')
    /\ length rs = 2%nat
    /\ recv_state_ p' = READ_BODY
    /\ calls p' = [].
Proof.
  destruct (oversized_body_blocks_parser false true (PH := TestHeader)
              (header_says true) (body_says true)
              [repeat x5a 2048; [x01]]
              {| recv_state_ := READ_BODY;
                 current_header_ :=
                   DoBytesOrderConversion true (PH := TestHeader)
                     (wire_header 4096);
                 recv_buffer_ := recv_buffer_ (parser_holding []);
                 world := tt;
                 calls := [] |})
    as (rs & p' & Hfeed & Hlen & Hs & _ & _ & Hc);
    [reflexivity|reflexivity|reflexivity| |].
  { repeat constructor. }
  exists rs, p'. split; [exact Hfeed|]. split; [exact Hlen|].
  split; [exact Hs|exact Hc].
Defined.

(** X20.  Between calls the parser is at rest.  From the constructor on,
    after any sequence of [HandleData] calls that returned, the parser is
    well formed, its ring buffer has the default capacity of 2048 bytes,
    and no complete header or body is left unprocessed; a further call
    with a null pointer or with length 0 returns [true] and changes
    nothing. *)
Theorem parser_rests_between_calls (NDEBUG little_endian : bool)
    {PH : ProtoHeader} {W : Type}
    (header_handler_ : list byte -> W -> bool * W)
    (body_handler_ : list byte -> Z -> W -> bool * W)
    (garbage : list byte) (w : W) (chunks : list (list byte))
    (p0 p' : StreamingParser W) (rs : list bool) :
  size garbage = protocol_header_length ->
  Forall (fun chunk => size chunk < 2 ^ 32) chunks ->
  StreamingParser_new NDEBUG garbage w = Returns p0 ->
  feed NDEBUG little_endian header_handler_ body_handler_ p0 chunks
  = Returns (rs, p') ->
  parser_ok p' = true
  /\ capacity (recv_buffer_ p') = 2048
  /\ match recv_state_ p' with
     | READ_HEADER =>
       buffered_bytes_ (recv_buffer_ p') < protocol_header_length
     | READ_BODY =>
       buffered_bytes_ (recv_buffer_ p')
       < body_length little_endian (current_header_ p')
     end
  /\ forall (data : option (list byte)) (length : Z),
       data = None \/ length = 0 ->
       HandleData NDEBUG little_endian header_handler_ body_handler_ p'
         data length = Returns (true, p').
Proof.
  intros Hg Hall Hnew Hfeed.
  pose proof header_shape as Hs.
  assert (Hinv : parser_ok p0 = true /\ waits little_endian p0
                 /\ size (buffer_ (recv_buffer_ p0)) = 2048).
  { unfold StreamingParser_new, RingBuffer_default in Hnew.
    destruct (RingBuffer_new_well_formed NDEBUG 2048)
      as (rb & Hrb & Hwf & Hcap & Hcnt); [lia|reflexivity|].
    rewrite Hrb in Hnew. cbn [bind] in Hnew. injection Hnew as <-.
    apply well_formed_facts in Hwf as F.
    rewrite (capacity_size _ F) in Hcap.
    split; [|split; [|exact Hcap]].
    - apply parser_ok_facts. cbn [recv_buffer_ current_header_].
      split; assumption.
    - unfold waits. cbn [recv_state_ recv_buffer_]. lia. }
  clear Hnew. revert p0 rs Hinv Hfeed.
  induction chunks as [|chunk rest IH]; intros p0 rs (Hok & Hrest & Hcap) Hfeed.
  - cbn [feed] in Hfeed. injection Hfeed as <- <-.
    pose proof Hok as Hok'. apply parser_ok_facts in Hok' as [F _].
    split; [exact Hok|]. split; [rewrite (capacity_size _ F); exact Hcap|].
    split; [exact Hrest|].
    intros data length Hinvalid. unfold HandleData.
    rewrite (write_invalid NDEBUG _ data length Hinvalid).
    cbn [bind error_code_eqb]. unfold loop_budget.
    rewrite (loop_waits NDEBUG little_endian W header_handler_ body_handler_)
      by (try (apply parser_ok_facts; cbn [recv_buffer_ current_header_];
               apply parser_ok_facts in Hok; exact Hok);
          exact Hrest).
    cbn [bind]. destruct p0. reflexivity.
  - inversion Hall as [|? ? Hsize Hall']; subst.
    cbn [feed] in Hfeed.
    destruct (HandleData NDEBUG little_endian header_handler_ body_handler_
                p0 (Some chunk) (size chunk)) as [[r p1]| | |] eqn:Hrun;
      cbn [bind] in Hfeed; try discriminate.
    destruct (feed NDEBUG little_endian header_handler_ body_handler_ p1 rest)
      as [[rs1 p2]| | |] eqn:Hfeed1; cbn [bind] in Hfeed; try discriminate.
    injection Hfeed as <- <-.
    destruct (handle_keeps_rest NDEBUG little_endian W header_handler_
                body_handler_ p0 p1 chunk r Hok Hrest Hsize Hrun)
      as (Hok1 & Hrest1 & Hsz1).
    apply (IH Hall' p1 rs1); [|exact Hfeed1].
    split; [exact Hok1|]. split; [exact Hrest1|]. rewrite Hsz1. exact Hcap.
Qed.

(** X20 on the parser of the test after a header and one body byte of
    three, given in two calls. *)
Lemma parser_rests_between_calls_witness :
  exists p0 rs p',
    fresh_parser false = Returns p0
    /\ test_feed false true true p0 [wire_header 3; [x01]] = Returns (rs, p')
    /\ capacity (recv_buffer_ p') = 2048
    /\ test_HandleData false true true p' None 4096 = Returns (true, p').
Proof.
  destruct (fresh_parser false) as [p0| | |] eqn:Hnew;
    try (vm_compute in Hnew; discriminate).
  destruct (test_feed false true true p0 [wire_header 3; [x01]])
    as [[rs p']| | |] eqn:Hfeed;
    try (vm_compute in Hnew; injection Hnew as <-;
         vm_compute in Hfeed; discriminate).
  destruct (parser_rests_between_calls false true (PH := TestHeader)
              (header_says true) (body_says true) (repeat x00 12) tt
              [wire_header 3; [x01]] p0 p' rs)
    as (_ & Hcap & _ & Hnull);
    [reflexivity|repeat constructor|exact Hnew|exact Hfeed|].
  exists p0, rs, p'. split; [reflexivity|]. split; [exact Hfeed|].
  split; [exact Hcap|]. apply Hnull. left. reflexivity.
Defined.

(** ** The byte count and the round trip below capacity 2^31 *)

(** X21.  On a well-formed ring buffer, whose capacity is below 2^31,
    let a sequence of writes, reads (copying, or zero-copy with a callback
    that does not call into the ring buffer) and drains be such that every
    write is no longer than the free space at the time it is made.  Then
    every operation returns, and after each of them the byte count is the
    count at the start plus the lengths of the accepted writes minus the
    amounts read or drained, and lies between 0 and the capacity, which
    never changes. *)
Theorem buffered_count_accounting (NDEBUG : bool) (rb : RingBuffer)
    (ops : list op) :
  well_formed rb = true ->
  writes_fit NDEBUG rb ops = true ->
  exists trace,
    run NDEBUG rb 0 0 ops = Returns trace
    /\ length trace = length ops
    /\ Forall (fun x =>
                 let rb' := fst (fst x) in
                 let written := snd (fst x) in
                 let taken := snd x in
                 buffered_bytes_ rb' = buffered_bytes_ rb + written - taken
                 /\ 0 <= buffered_bytes_ rb' <= capacity rb'
                 /\ capacity rb' = capacity rb) trace.
Proof.
  intros Hwf Hfit. apply well_formed_facts in Hwf.
  apply (run_accounts NDEBUG ops rb 0 0 (buffered_bytes_ rb) Hwf Hfit). lia.
Qed.

(** X21 on the operations of [ops_demo], from an empty buffer whose
    indices stand two bytes before the end of the storage. *)
Lemma buffered_count_accounting_witness :
  well_formed ring16_at14 = true
  /\ writes_fit false ring16_at14 ops_demo = true
  /\ exists trace,
       run false ring16_at14 0 0 ops_demo = Returns trace
       /\ length trace = 8%nat.
Proof.
  split; [reflexivity|]. split; [vm_compute; reflexivity|].
  destruct (buffered_count_accounting false ring16_at14 ops_demo)
    as (trace & Hrun & Hlen & _); [reflexivity|vm_compute; reflexivity|].
  exists trace. split; [exact Hrun|exact Hlen].
Defined.

(** X22.  Take a well-formed empty ring buffer, whose capacity is below
    2^31, wherever its indices stand, and a byte sequence no longer than
    its capacity, cut into chunks in any way.  Writing the chunks one after the other and then reading as
    many bytes, in pieces of any lengths, returns at every call, and the
    pieces read, put together, are the bytes written, in order.  Every
    read returns as many bytes as it asked for, and the buffer is empty
    again. *)
Theorem write_read_round_trip (NDEBUG : bool) (rb : RingBuffer)
    (chunks : list (list byte)) (lengths : list Z) :
  well_formed rb = true ->
  buffered_bytes_ rb = 0 ->
  size (concat chunks) <= capacity rb ->
  Forall (fun n => 0 <= n) lengths ->
  total lengths = size (concat chunks) ->
  exists errs rb1 outs rb2,
    write_all NDEBUG rb chunks = Returns (errs, rb1)
    /\ read_all NDEBUG rb1 lengths = Returns (outs, rb2)
    /\ concat outs = concat chunks
    /\ map size outs = lengths
    /\ buffered_bytes_ rb2 = 0
    /\ Forall (fun err => err <> ErrBufferOverflow) errs.
Proof.
  intros Hwf Hempty Hcap Hall Hsum.
  apply well_formed_facts in Hwf as F.
  rewrite (capacity_size rb F) in Hcap.
  destruct (write_all_appends NDEBUG chunks rb F)
    as (errs & rb1 & Hw & F1 & Hsize & Hcont & Herrs); [lia|].
  assert (Hb1 : buffered_bytes_ rb1 = size (concat chunks)).
  { pose proof (rf_count _ F1). rewrite <- (size_contents rb1) by lia.
    rewrite Hcont, size_app, size_contents by lia. lia. }
  assert (Hnil : contents rb = []).
  { unfold contents. rewrite Hempty. reflexivity. }
  destruct (read_all_takes NDEBUG lengths rb1 F1 Hall)
    as (outs & rb2 & Hr & F2 & Hcat & _ & Hcnt2 & Hsz); [lia|].
  exists errs, rb1, outs, rb2.
  split; [exact Hw|]. split; [exact Hr|].
  split; [|split; [exact Hsz|split; [lia|]]].
  - rewrite Hcat, Hcont, Hnil. cbn [app]. rewrite Hsum.
    unfold size. rewrite Nat2Z.id. apply firstn_all.
  - rewrite Herrs. apply Forall_forall. intros err Hin.
    apply in_map_iff in Hin as (chunk & <- & _).
    destruct chunk; discriminate.
Qed.

(** X22 for five bytes written as 3 + 0 + 2 and read as 1 + 0 + 4, across
    the end of a storage of sixteen bytes. *)
Lemma write_read_round_trip_witness :
  exists errs rb1 outs rb2,
    write_all false ring16_at14 [[x01; x02; x03]; []; [x04; x05]]
      = Returns (errs, rb1)
    /\ read_all false rb1 [1; 0; 4] = Returns (outs, rb2)
    /\ concat outs = [x01; x02; x03; x04; x05].
Proof.
  destruct (write_read_round_trip false ring16_at14
              [[x01; x02; x03]; []; [x04; x05]] [1; 0; 4])
    as (errs & rb1 & outs & rb2 & Hw & Hr & Hcat & _).
  - reflexivity.
  - reflexivity.
  - vm_compute. discriminate.
  - repeat constructor; lia.
  - reflexivity.
  - exists errs, rb1, outs, rb2. auto.
Defined.
